(** * Data-access layer of the weather application

    A shallow embedding of [src/utils/api.ts] and [src/utils/apiCounter.ts]
    (with the constants of [config/constants.ts] and the interfaces of
    [types/api.ts] and [types/weather.ts]): the rate limiter, the versioned
    cache, the monthly usage counter, the retrying fetch wrapper, the batch
    helper and the three operations built on them. Of the React components,
    which call these operations, the choice of the hours that
    [components/HourlyForecast.tsx] shows is embedded; their state and their
    rendering are left out, and so is [validateRequest], which nothing
    calls.

    Conventions.
    - A JavaScript [number] that holds a time stamp, a counter or a delay is
      an integer below 2^53, where the arithmetic of the source is exact, and
      is modelled by [Z]; the numbers of the provider's payload are IEEE-754
      binary64 values ([spec_float] at precision 53).
    - A JavaScript string is a [string]; one character stands for one code
      unit.
    - The module-level objects ([rateLimiter], [apiCounter], the two caches)
      make up a [World] that every operation takes and returns; an operation
      either returns a value or throws, and keeps the changes it made to the
      world in both cases.
    - What a run reads from the outside is an oracle of [Env]: the clock by
      the number of the read, the network by the number of the call of
      [fetch], the build-time key.
    - One operation runs at a time. [console.error] is not modelled. *)

From Stdlib Require Import ZArith List String Ascii Bool Lia.
From Stdlib Require Import SpecFloat DecimalString.
Import ListNotations.

Local Open Scope string_scope.
Local Open Scope Z_scope.

(* ================================================================= *)
(** ** JavaScript numbers *)

Module JsNumber.

Definition prec : Z := 53.
Definition emax : Z := 1024.

(** The type [number]: binary64. *)
Definition number : Type := spec_float.

Definition NaN : number := S754_nan.

(** The [number] nearest to an integer (exact below 2^53). *)
Definition of_Z (n : Z) : number := binary_normalize prec emax n 0 false.

(** [x / y]. *)
Definition div (x y : number) : number := SFdiv prec emax x y.

(** A decimal literal [n / 10^k] of the source text or of a JSON body: the
    correctly rounded quotient of two exactly representable integers. *)
Definition decimal (n : Z) (k : nat) : number :=
  div (of_Z n) (of_Z (10 ^ Z.of_nat k)).

(** [floor (x + 1/2)] for [x = (-1)^s * m * 2^e] with [e < 0], computed on
    integers: [floor ((2 * (+-m) + 2^k) / 2^(k+1))] with [k = - e]. *)
Definition round_half_up (s : bool) (m : positive) (e : Z) : Z :=
  Z.shiftr (2 * cond_Zopp s (Zpos m) + 2 ^ (- e)) (- e + 1).

(** [Math.round]: NaN, the infinities, the zeros and integral values are
    returned as they are; otherwise the nearest integer, the one closer to
    +infinity on a tie; a value in [[-0.5, 0)] gives -0. *)
Definition Math_round (x : number) : number :=
  match x with
  | S754_finite s m e =>
      if 0 <=? e then x
      else binary_normalize prec emax (round_half_up s m e) 0 s
  | _ => x
  end.

(** The integer a [number] denotes, when it denotes one. *)
Definition to_Z (x : number) : option Z :=
  match x with
  | S754_zero _ => Some 0
  | S754_finite s m e =>
      if 0 <=? e then Some (cond_Zopp s (Zpos m) * 2 ^ e)
      else if (Zpos m) mod 2 ^ (- e) =? 0
           then Some (cond_Zopp s (Zpos m / 2 ^ (- e)))
           else None
  | _ => None
  end.

End JsNumber.

Import JsNumber.

(* ================================================================= *)
(** ** Strings, thrown values and the host's built-ins *)

(** [s.includes(sub)]. *)
Definition includes (s sub : string) : bool :=
  match String.index 0 sub s with
  | Some _ => true
  | None => false
  end.

(** A string is falsy exactly when it is empty. *)
Definition truthy (s : string) : bool := negb (String.eqb s "").

(** [`${n}`] for an integer [n]. *)
Definition show_Z (n : Z) : string := NilZero.string_of_int (Z.to_int n).

(** What a [throw] or a rejected promise carries. Every value thrown inside
    the layer is an [Error] object ([new Error], the [TypeError] and the
    [AbortError] of [fetch], the [SyntaxError] of [response.json()]);
    [NonError] stands for any other value, so that [instanceof Error] keeps
    its test. *)
Inductive Thrown : Type :=
| JsError (name message : string)
| NonError (value : string).

(** [new Error(message)]. *)
Definition Error (message : string) : Thrown := JsError "Error" message.

Definition instanceof_Error (e : Thrown) : bool :=
  match e with JsError _ _ => true | NonError _ => false end.

Definition error_name (e : Thrown) : string :=
  match e with JsError n _ => n | NonError _ => "" end.

Definition error_message (e : Thrown) : string :=
  match e with JsError _ m => m | NonError _ => "" end.

(** The built-ins of the JavaScript host that the layer calls and that are
    not modelled bit by bit. [encodeURIComponent] is [None] where the host
    throws [URIError] (a lone surrogate); [getMonth] and [getFullYear] read a
    time value (milliseconds since the epoch) in the host's time zone;
    [Date_parse s] is [new Date(s).getTime()]. *)
Record Host : Type := {
  trim : string -> string;
  toLowerCase : string -> string;
  encodeURIComponent : string -> option string;
  getMonth : Z -> Z;
  getFullYear : Z -> Z;
  Date_parse : string -> number
}.

(* ================================================================= *)
(** ** [config/constants.ts] *)

Module CONFIG.
Module API.
Definition BASE_URL : string := "https://api.weatherapi.com/v1".
Definition TIMEOUT : Z := 30000.
Definition RATE_LIMIT : Z := 30.
Definition MIN_QUERY_LENGTH : Z := 2.
Definition MONTHLY_LIMIT : Z := 1000000.
Definition STORAGE_KEY : string := "weather_api_calls".
End API.
Module CACHE.
Definition DURATION : Z := 5 * 60 * 1000.
Definition MAX_SIZE : Z := 50.
Definition VERSION : string := "1.0.0".
End CACHE.
End CONFIG.

Module ERROR_MESSAGES.
Definition EMPTY_CITY : string := "Please enter a city name".
Definition GENERIC_ERROR : string :=
  "Unable to fetch weather information. Please try again.".
Definition RATE_LIMIT : string := "Please wait a moment before trying again".
Definition NETWORK_ERROR : string := "Please check your internet connection".
Definition API_KEY_MISSING : string := "Weather API key is not configured".
End ERROR_MESSAGES.

(* ================================================================= *)
(** ** [getRetryDelay] *)

Module RETRY_CONFIG.
Definition maxRetries : nat := 2.
Definition baseDelay : Z := 1000.
End RETRY_CONFIG.

(** [Math.min(baseDelay * Math.pow(2, attempt), 5000)]. *)
Definition getRetryDelay (attempt : nat) : Z :=
  Z.min (RETRY_CONFIG.baseDelay * 2 ^ Z.of_nat attempt) 5000.

(* ================================================================= *)
(** ** [class RateLimiter] *)

Module RateLimiter.

Record t : Type := { requests : Z; lastReset : Z }.

(** [canMakeRequest()]. [now1] is what [Date.now()] returns in the test of
    the window, [now2] what it returns in the assignment to [lastReset]
    (read only when the window is over). *)
Definition canMakeRequest (now1 now2 : Z) (rl : t) : bool * t :=
  let rl1 :=
    if 60000 <? now1 - lastReset rl
    then {| requests := 0; lastReset := now2 |}
    else rl in
  (requests rl1 <? CONFIG.API.RATE_LIMIT,
   {| requests := requests rl1 + 1; lastReset := lastReset rl1 |}).

(** The number of times [canMakeRequest] reads the clock. *)
Definition clockReads (now1 : Z) (rl : t) : nat :=
  if 60000 <? now1 - lastReset rl then 2%nat else 1%nat.

(** Successive calls, each with its clock readings; the answers in order. *)
Fixpoint calls (ts : list (Z * Z)) (rl : t) : list bool * t :=
  match ts with
  | [] => ([], rl)
  | (now1, now2) :: ts' =>
      let '(ok, rl1) := canMakeRequest now1 now2 rl in
      let '(oks, rl2) := calls ts' rl1 in
      (ok :: oks, rl2)
  end.

End RateLimiter.

(* ================================================================= *)
(** ** [class LRUCache<T>] *)

Module LRUCache.

Section WithData.
Context {T : Type}.

(** [CacheEntry<T>] of [types/weather.ts]. *)
Record CacheEntry : Type := { data : T; timestamp : Z; version : string }.

(** A JavaScript [Map<string, CacheEntry<T>>]: the keys in insertion
    order, each once. *)
Definition Map : Type := list (string * CacheEntry).

Fixpoint Map_get (k : string) (m : Map) : option CacheEntry :=
  match m with
  | [] => None
  | (k', v) :: m' => if String.eqb k' k then Some v else Map_get k m'
  end.

(** [m.delete(k)]. *)
Fixpoint Map_delete (k : string) (m : Map) : Map :=
  match m with
  | [] => []
  | (k', v) :: m' =>
      if String.eqb k' k then Map_delete k m' else (k', v) :: Map_delete k m'
  end.

(** [m.set(k, v)]: a present key keeps its place, a new key goes last. *)
Fixpoint Map_set (k : string) (v : CacheEntry) (m : Map) : Map :=
  match m with
  | [] => [(k, v)]
  | (k', v') :: m' =>
      if String.eqb k' k then (k, v) :: m' else (k', v') :: Map_set k v m'
  end.

Definition Map_size (m : Map) : Z := Z.of_nat (List.length m).

Definition Map_keys (m : Map) : list string := List.map fst m.

Record t : Type := { cache : Map; maxSize : Z }.

(** [new LRUCache(maxSize)]. *)
Definition new (maxSize : Z) : t := {| cache := []; maxSize := maxSize |}.

(** [set(key, value)]. [live] is [CONFIG.CACHE.VERSION] as the call reads
    it and [now] is [Date.now()]. *)
Definition set (live : string) (now : Z) (key : string) (value : T) (c : t) : t :=
  let m1 :=
    if maxSize c <=? Map_size (cache c) then
      match Map_keys (cache c) with
      | firstKey :: _ =>
          if truthy firstKey then Map_delete firstKey (cache c) else cache c
      | [] => cache c
      end
    else cache c in
  {| cache := Map_set key {| data := value; timestamp := now; version := live |} m1;
     maxSize := maxSize c |}.

(** [get(key)]. *)
Definition get (live : string) (key : string) (c : t) : option CacheEntry * t :=
  match Map_get key (cache c) with
  | Some entry =>
      if negb (String.eqb (version entry) live) then
        (None, {| cache := Map_delete key (cache c); maxSize := maxSize c |})
      else
        (Some entry,
         {| cache := Map_set key entry (Map_delete key (cache c));
            maxSize := maxSize c |})
  | None => (None, c)
  end.

Definition clear (c : t) : t := {| cache := []; maxSize := maxSize c |}.

End WithData.

Arguments CacheEntry : clear implicits.
Arguments Map : clear implicits.
Arguments t : clear implicits.

End LRUCache.

(** [isCacheValid(timestamp)], with [now] the value of [Date.now()]. *)
Definition isCacheValid (now timestamp : Z) : bool :=
  now - timestamp <? CONFIG.CACHE.DURATION.

(* ================================================================= *)
(** ** [class ApiCallCounter] *)

Module ApiCallCounter.

(** [ApiCounterState]. [lastReset] is an ISO date string in the source; it
    is held here as the time value [new Date(lastReset)] has, [None] for a
    string that is no date. *)
Record ApiCounterState : Type := { count : Z; lastReset : option Z }.

(** The counter object together with the record it keeps in
    [localStorage] under [CONFIG.API.STORAGE_KEY]. The methods take any
    state for the one they start from; [loadState] and the constructor,
    which run once when the module is loaded, come last. *)
Record t : Type := { state : ApiCounterState; stored : option ApiCounterState }.

(** [saveState()]: a failing [setItem] is logged and nothing else. *)
Definition saveState (writable : bool) (c : t) : t :=
  if writable then {| state := state c; stored := Some (state c) |} else c.

(** [a.getMonth() !== b.getMonth() || a.getFullYear() !== b.getFullYear()];
    an invalid date has [NaN] for both, and [NaN !== x] holds. *)
Definition otherMonth (H : Host) (lastReset : option Z) (now : Z) : bool :=
  match lastReset with
  | Some t =>
      negb (getMonth H t =? getMonth H now)
      || negb (getFullYear H t =? getFullYear H now)
  | None => true
  end.

(** [checkAndResetMonthly()], with [now] the value of [new Date()]. *)
Definition checkAndResetMonthly (H : Host) (writable : bool) (now : Z) (c : t) : t :=
  if otherMonth H (lastReset (state c)) now then
    saveState writable
      {| state := {| count := 0; lastReset := Some now |}; stored := stored c |}
  else c.

(** [increment()]. *)
Definition increment (H : Host) (writable : bool) (now : Z) (c : t) : t :=
  let c1 := checkAndResetMonthly H writable now c in
  saveState writable
    {| state := {| count := count (state c1) + 1;
                   lastReset := lastReset (state c1) |};
       stored := stored c1 |}.

(** [getCount()]. *)
Definition getCount (H : Host) (writable : bool) (now : Z) (c : t) : Z * t :=
  let c1 := checkAndResetMonthly H writable now c in
  (count (state c1), c1).

(** [getPercentage()]. *)
Definition getPercentage (H : Host) (writable : bool) (now : Z) (c : t) : number * t :=
  let '(n, c1) := getCount H writable now c in
  (SFmul prec emax (div (of_Z n) (of_Z CONFIG.API.MONTHLY_LIMIT)) (of_Z 100), c1).

(** What [loadState] finds under [CONFIG.API.STORAGE_KEY]:
    - [NoItem]: [getItem] returns [null] or the empty string;
    - [Unreadable]: [getItem] or [JSON.parse] throws, or the parsed value is
      [null], so that reading [parsed.count] throws;
    - [Parsed n reset]: anything else. [n] is the integer
      [Number(parsed.count)] is, [None] when it is [NaN]; [reset] is [None]
      when [parsed.lastReset] is falsy, and otherwise the time value
      [new Date(parsed.lastReset)] has, as in [ApiCounterState]. *)
Inductive StoredItem : Type :=
| NoItem
| Unreadable
| Parsed (n : option Z) (reset : option (option Z)).

(** [loadState()]. [now1] is the value of [new Date()] in [defaultState],
    [now2] its value in the object returned (read only when
    [parsed.lastReset] is falsy). *)
Definition loadState (now1 now2 : Z) (item : StoredItem) : ApiCounterState :=
  let defaultState := {| count := 0; lastReset := Some now1 |} in
  match item with
  | NoItem => defaultState
  | Unreadable => defaultState
  | Parsed n reset =>
      {| count := match n with Some k => k | None => 0 end;
         lastReset := match reset with Some t => t | None => Some now2 end |}
  end.

(** What [JSON.parse] makes of the record [saveState] wrote, if any; every
    [lastReset] the class assigns is a non-empty string. *)
Definition written (storage : option ApiCounterState) : StoredItem :=
  match storage with
  | Some st => Parsed (Some (count st)) (Some (lastReset st))
  | None => NoItem
  end.

(** [new ApiCallCounter()] when the storage holds what an earlier instance
    left there; [now3] is the value of [new Date()] in
    [checkAndResetMonthly]. *)
Definition new (H : Host) (writable : bool) (now1 now2 now3 : Z)
    (storage : option ApiCounterState) : t :=
  checkAndResetMonthly H writable now3
    {| state := loadState now1 now2 (written storage); stored := storage |}.

End ApiCallCounter.

(* ================================================================= *)
(** ** [types/api.ts] and [types/weather.ts]

    Field names carry a prefix where two interfaces share a name. A part of
    the forecast payload that [getForecastData] tests for presence is an
    [option]. *)

Record Condition : Type := {
  cond_text : string;
  cond_icon : string;
  cond_code : number
}.

(** [WeatherApiResponse['location']]. *)
Record ApiLocation : Type := {
  loc_name : string;
  loc_region : string;
  loc_country : string;
  loc_lat : number;
  loc_lon : number;
  loc_tz_id : string;
  loc_localtime : string
}.

(** [WeatherApiResponse['current']]. *)
Record ApiCurrent : Type := {
  cur_temp_c : number;
  cur_temp_f : number;
  cur_condition : Condition;
  cur_wind_kph : number;
  cur_wind_degree : number;
  cur_pressure_mb : number;
  cur_humidity : number;
  cur_feelslike_c : number
}.

Record WeatherApiResponse : Type := {
  location : ApiLocation;
  current : ApiCurrent
}.

Record HourlyWeather : Type := {
  hr_time : string;
  hr_temp_c : number;
  hr_temp_f : number;
  hr_condition : Condition;
  hr_wind_kph : number;
  hr_wind_degree : number;
  hr_humidity : number;
  hr_chance_of_rain : number;
  hr_chance_of_snow : number;
  hr_is_day : number
}.

Record DaySummary : Type := {
  maxtemp_c : number;
  mintemp_c : number;
  avgtemp_c : number;
  day_condition : Condition
}.

(** One element of [forecast.forecastday] as the provider sends it. *)
Record ApiForecastDay : Type := {
  api_date : string;
  api_day : DaySummary;
  api_hour : option (list HourlyWeather)
}.

Record ApiForecast : Type := {
  api_forecastday : option (list ApiForecastDay)
}.

Record ForecastApiResponse : Type := {
  f_location : ApiLocation;
  f_current : ApiCurrent;
  f_forecast : option ApiForecast
}.

Record CitySearchApiResponse : Type := {
  city_id : number;
  city_name : string;
  city_region : string;
  city_country : string;
  city_lat : number;
  city_lon : number;
  city_url : string
}.

Record WeatherCondition : Type := {
  id : number;
  wc_main : string;
  description : string;
  icon : string
}.

Record WeatherMetrics : Type := {
  temp : number;
  feels_like : number;
  temp_min : number;
  temp_max : number;
  pressure : number;
  humidity : number
}.

Record WindInfo : Type := { speed : number; deg : number }.

Record Place : Type := { place_name : string; place_country : string }.

Record WeatherData : Type := {
  weather : list WeatherCondition;
  main : WeatherMetrics;
  wind : WindInfo;
  name : string;
  sys : Place
}.

Record ForecastDay : Type := {
  dt : number;
  fd_main : WeatherMetrics;
  fd_weather : list WeatherCondition;
  fd_wind : WindInfo;
  dt_txt : string
}.

Record DayForecast : Type := {
  date : string;
  day : DaySummary;
  hour : list HourlyWeather
}.

Record LocationInfo : Type := {
  timezone : string;
  localtime : string;
  li_country : string;
  li_name : string;
  li_region : string
}.

Record ForecastDays : Type := { forecastday : list DayForecast }.

(** [list] is spelled [list_] and [location] is spelled [location_info]. *)
Record ForecastData : Type := {
  list_ : list ForecastDay;
  city : Place;
  forecast : ForecastDays;
  location_info : LocationInfo
}.

(** [WeatherData | ForecastData], the values of [weatherCache]. The casts
    [cached.data as WeatherData] and [as ForecastData] test nothing, so both
    operations return this type. *)
Inductive WeatherOrForecast : Type :=
| IsWeather (d : WeatherData)
| IsForecast (d : ForecastData).

(* ================================================================= *)
(** ** The outside of a run and the state of the module *)

(** The outcome of [response.json()]. *)
Inductive Json (T : Type) : Type :=
| JsonRejects (e : Thrown)
| JsonValue (v : T).
Arguments JsonRejects {T} e.
Arguments JsonValue {T} v.

(** A response. For one that is not [ok] the body is read only through
    [errorData.error?.message]: [Some m] when that is the string [m], [None]
    when it is undefined; a body on which the access itself throws counts as
    [JsonRejects]. *)
Inductive Response (T : Type) : Type :=
| ResponseOk (body : Json T)
| ResponseNotOk (status : Z) (body : Json (option string)).
Arguments ResponseOk {T} body.
Arguments ResponseNotOk {T} status body.

(** The outcome of [await fetch(url, ...)]; the timer that aborts the request
    after [CONFIG.API.TIMEOUT] shows as a rejection named [AbortError]. *)
Inductive FetchOutcome (T : Type) : Type :=
| Rejects (e : Thrown)
| Resolves (r : Response T).
Arguments Rejects {T} e.
Arguments Resolves {T} r.

(** [VITE_WEATHER_API_KEY] is [None] when undefined. [Date_now k] is what the
    clock shows at the [k]-th read of a run; an endpoint answers the [k]-th
    call of [fetch] of a run, by URL; [setItem_ok] tells whether
    [localStorage.setItem] succeeds. *)
Record Env : Type := {
  VITE_WEATHER_API_KEY : option string;
  Date_now : nat -> Z;
  setItem_ok : bool;
  search_json : string -> nat -> FetchOutcome (list CitySearchApiResponse);
  current_json : string -> nat -> FetchOutcome WeatherApiResponse;
  forecast_json : string -> nat -> FetchOutcome ForecastApiResponse
}.

(** The module-level objects of [api.ts] and [apiCounter.ts], with the
    bookkeeping of a run: [clock] and [fetches] count the reads of the clock
    and the calls of [fetch]; [waits] lists the delays slept through, the
    latest last. *)
Record World : Type := {
  clock : nat;
  fetches : nat;
  waits : list Z;
  rateLimiter : RateLimiter.t;
  apiCounter : ApiCallCounter.t;
  cityCache : LRUCache.t (list CitySearchApiResponse);
  weatherCache : LRUCache.t WeatherOrForecast
}.

Definition with_clock (n : nat) (w : World) : World :=
  {| clock := n; fetches := fetches w; waits := waits w;
     rateLimiter := rateLimiter w; apiCounter := apiCounter w;
     cityCache := cityCache w; weatherCache := weatherCache w |}.

Definition with_fetches (n : nat) (w : World) : World :=
  {| clock := clock w; fetches := n; waits := waits w;
     rateLimiter := rateLimiter w; apiCounter := apiCounter w;
     cityCache := cityCache w; weatherCache := weatherCache w |}.

Definition with_waits (l : list Z) (w : World) : World :=
  {| clock := clock w; fetches := fetches w; waits := l;
     rateLimiter := rateLimiter w; apiCounter := apiCounter w;
     cityCache := cityCache w; weatherCache := weatherCache w |}.

Definition with_rateLimiter (rl : RateLimiter.t) (w : World) : World :=
  {| clock := clock w; fetches := fetches w; waits := waits w;
     rateLimiter := rl; apiCounter := apiCounter w;
     cityCache := cityCache w; weatherCache := weatherCache w |}.

Definition with_apiCounter (c : ApiCallCounter.t) (w : World) : World :=
  {| clock := clock w; fetches := fetches w; waits := waits w;
     rateLimiter := rateLimiter w; apiCounter := c;
     cityCache := cityCache w; weatherCache := weatherCache w |}.

Definition with_cityCache (c : LRUCache.t (list CitySearchApiResponse)) (w : World) : World :=
  {| clock := clock w; fetches := fetches w; waits := waits w;
     rateLimiter := rateLimiter w; apiCounter := apiCounter w;
     cityCache := c; weatherCache := weatherCache w |}.

Definition with_weatherCache (c : LRUCache.t WeatherOrForecast) (w : World) : World :=
  {| clock := clock w; fetches := fetches w; waits := waits w;
     rateLimiter := rateLimiter w; apiCounter := apiCounter w;
     cityCache := cityCache w; weatherCache := c |}.

(** *** Computations that may throw *)

Inductive Result (A : Type) : Type :=
| Returns (a : A)
| Throws (e : Thrown).
Arguments Returns {A} a.
Arguments Throws {A} e.

Definition M (A : Type) : Type := World -> Result A * World.

Definition ret {A : Type} (a : A) : M A := fun w => (Returns a, w).

Definition throw {A : Type} (e : Thrown) : M A := fun w => (Throws e, w).

Definition bind {A B : Type} (c : M A) (k : A -> M B) : M B :=
  fun w =>
    match c w with
    | (Returns a, w1) => k a w1
    | (Throws e, w1) => (Throws e, w1)
    end.

(** [try { c } catch (error) { handler error }]. *)
Definition try_catch {A : Type} (c : M A) (handler : Thrown -> M A) : M A :=
  fun w =>
    match c w with
    | (Returns a, w1) => (Returns a, w1)
    | (Throws e, w1) => handler e w1
    end.

Notation "x <- c ;; k" := (bind c (fun x => k))
  (at level 61, c at next level, right associativity).
Notation "c ;;; k" := (bind c (fun _ => k))
  (at level 61, right associativity).

(* ================================================================= *)
(** ** [api.ts]: the fetch wrapper and the three operations *)

Section Service.

Variable H : Host.
Variable E : Env.

(** [Date.now()]. *)
Definition now : M Z :=
  fun w => (Returns (Date_now E (clock w)), with_clock (S (clock w)) w).

(** [rateLimiter.canMakeRequest()]. *)
Definition rateLimiter_canMakeRequest : M bool :=
  fun w =>
    let now1 := Date_now E (clock w) in
    let now2 := Date_now E (S (clock w)) in
    let '(ok, rl) := RateLimiter.canMakeRequest now1 now2 (rateLimiter w) in
    (Returns ok,
     with_rateLimiter rl
       (with_clock (clock w + RateLimiter.clockReads now1 (rateLimiter w)) w)).

(** [apiCounter.increment()]. *)
Definition apiCounter_increment : M unit :=
  t <- now ;;
  fun w =>
    (Returns tt,
     with_apiCounter (ApiCallCounter.increment H (setItem_ok E) t (apiCounter w)) w).

(** [await new Promise(resolve => setTimeout(resolve, ms))]. *)
Definition sleep (ms : Z) : M unit :=
  fun w => (Returns tt, with_waits (waits w ++ [ms]) w).

(** [await fetch(url, ...)] against an endpoint. *)
Definition fetch {T : Type} (endpoint : string -> nat -> FetchOutcome T)
    (url : string) : M (FetchOutcome T) :=
  fun w => (Returns (endpoint url (fetches w)), with_fetches (S (fetches w)) w).

Definition cityCache_get (key : string) : M (option (LRUCache.CacheEntry (list CitySearchApiResponse))) :=
  fun w =>
    let '(entry, c) := LRUCache.get CONFIG.CACHE.VERSION key (cityCache w) in
    (Returns entry, with_cityCache c w).

Definition cityCache_set (key : string) (value : list CitySearchApiResponse) : M unit :=
  t <- now ;;
  fun w =>
    (Returns tt,
     with_cityCache (LRUCache.set CONFIG.CACHE.VERSION t key value (cityCache w)) w).

Definition weatherCache_get (key : string) : M (option (LRUCache.CacheEntry WeatherOrForecast)) :=
  fun w =>
    let '(entry, c) := LRUCache.get CONFIG.CACHE.VERSION key (weatherCache w) in
    (Returns entry, with_weatherCache c w).

Definition weatherCache_set (key : string) (value : WeatherOrForecast) : M unit :=
  t <- now ;;
  fun w =>
    (Returns tt,
     with_weatherCache (LRUCache.set CONFIG.CACHE.VERSION t key value (weatherCache w)) w).

(** [cached && isCacheValid(cached.timestamp)]: the clock is read only for an
    entry that is there. *)
Definition fresh {T : Type} (cached : option (LRUCache.CacheEntry T)) : M bool :=
  match cached with
  | Some entry => t <- now ;; ret (isCacheValid t (LRUCache.timestamp entry))
  | None => ret false
  end.

(** The cache check the three operations start with:
    [const cached = cache.get(key); if (cached && isCacheValid(cached.timestamp))]
    gives the data to return, [None] when the request has to be made. *)
Definition cachedData {T : Type}
    (cache_get : string -> M (option (LRUCache.CacheEntry T))) (key : string) : M (option T) :=
  cached <- cache_get key ;;
  hit <- fresh cached ;;
  ret (match cached, hit with
       | Some entry, true => Some (LRUCache.data entry)
       | _, _ => None
       end).

(** The value [sanitizeInput] returns, [None] where [encodeURIComponent]
    throws. *)
Definition sanitized (input : string) : option string :=
  if negb (truthy input) then Some ""
  else encodeURIComponent H (toLowerCase H (trim H input)).

(** [sanitizeInput]. *)
Definition sanitizeInput (input : string) : M string :=
  match sanitized input with
  | Some s => ret s
  | None => throw (JsError "URIError" "URI malformed")
  end.

(** [import.meta.env.VITE_WEATHER_API_KEY] as a condition. *)
Definition keyConfigured : bool :=
  match VITE_WEATHER_API_KEY E with
  | Some k => truthy k
  | None => false
  end.

(** [validateApiKey]. *)
Definition validateApiKey : M unit :=
  if negb keyConfigured then throw (Error ERROR_MESSAGES.API_KEY_MISSING)
  else ret tt.

(** [`${import.meta.env.VITE_WEATHER_API_KEY}`]. *)
Definition key_text : string :=
  match VITE_WEATHER_API_KEY E with
  | Some k => k
  | None => "undefined"
  end.

(** The test of the [catch] block of [fetchApi] that rethrows at once. *)
Definition notRetried (error : Thrown) : bool :=
  instanceof_Error error
  && negb (String.eqb (error_name error) "AbortError")
  && negb (includes (error_message error) "network").

(** What the [try] block of [fetchApi] makes of the outcome of [fetch]: the
    parsed body of a response that is [ok], and a [throw] otherwise. *)
Definition settle {T : Type} (errorMessage : string) (response : FetchOutcome T) : Result T :=
  match response with
  | Rejects e => Throws e
  | Resolves (ResponseNotOk status body) =>
      match body with
      | JsonRejects e => Throws e
      | JsonValue message =>
          let fallback := errorMessage ++ " (Status: " ++ show_Z status ++ ")" in
          Throws (Error (match message with
                         | Some m => if truthy m then m else fallback
                         | None => fallback
                         end))
      end
  | Resolves (ResponseOk body) =>
      match body with
      | JsonRejects e => Throws e
      | JsonValue data => Returns data
      end
  end.

(** The [try] block of [fetchApi] for one value of [attempt]. *)
Definition attemptOnce {T : Type} (endpoint : string -> nat -> FetchOutcome T)
    (url errorMessage : string) (attempt : nat) : M T :=
  (if Nat.eqb attempt 0 then apiCounter_increment else ret tt) ;;;
  response <- fetch endpoint url ;;
  fun w => (settle errorMessage response, w).

(** The [for] loop of [fetchApi] from [attempt] on, with the statement that
    follows it. [fuel] bounds the iterations left. *)
Fixpoint fetchApi_loop {T : Type} (endpoint : string -> nat -> FetchOutcome T)
    (url errorMessage : string) (fuel attempt : nat) (lastError : option Thrown) : M T :=
  let after_loop :=
    throw (match lastError with
           | Some e => e
           | None => Error ERROR_MESSAGES.GENERIC_ERROR
           end) in
  match fuel with
  | O => after_loop
  | S fuel' =>
      if Nat.leb attempt RETRY_CONFIG.maxRetries then
        try_catch (attemptOnce endpoint url errorMessage attempt)
          (fun error =>
             if notRetried error then throw error
             else if Nat.eqb attempt RETRY_CONFIG.maxRetries then
               throw (Error ERROR_MESSAGES.NETWORK_ERROR)
             else
               sleep (getRetryDelay attempt) ;;;
               fetchApi_loop endpoint url errorMessage fuel' (S attempt) (Some error))
      else after_loop
  end.

(** [fetchApi<T>(url, errorMessage)]. *)
Definition fetchApi {T : Type} (endpoint : string -> nat -> FetchOutcome T)
    (url errorMessage : string) : M T :=
  ok <- rateLimiter_canMakeRequest ;;
  if negb ok then throw (Error ERROR_MESSAGES.RATE_LIMIT)
  else fetchApi_loop endpoint url errorMessage (S RETRY_CONFIG.maxRetries) 0 None.

(** The three request URLs. *)
Definition searchUrl (sanitizedQuery : string) : string :=
  CONFIG.API.BASE_URL ++ "/search.json?key=" ++ key_text ++ "&q=" ++ sanitizedQuery.

Definition currentUrl (sanitizedCity : string) : string :=
  CONFIG.API.BASE_URL ++ "/current.json?key=" ++ key_text ++ "&q=" ++ sanitizedCity
  ++ "&aqi=no".

Definition forecastUrl (sanitizedCity : string) : string :=
  CONFIG.API.BASE_URL ++ "/forecast.json?key=" ++ key_text ++ "&q=" ++ sanitizedCity
  ++ "&days=3&aqi=no".

(** The test [searchCities] starts with:
    [!query?.trim() || query.length < CONFIG.API.MIN_QUERY_LENGTH]. *)
Definition blankOrShort (query : string) : bool :=
  negb (truthy (trim H query))
  || (Z.of_nat (String.length query) <? CONFIG.API.MIN_QUERY_LENGTH).

(** [searchCities(query)]. *)
Definition searchCities (query : string) : M (list CitySearchApiResponse) :=
  if blankOrShort query then ret []
  else
    validateApiKey ;;;
    sanitizedQuery <- sanitizeInput query ;;
    cached <- cachedData cityCache_get sanitizedQuery ;;
    match cached with
    | Some data => ret data
    | None =>
        try_catch
          (data <- fetchApi (search_json E) (searchUrl sanitizedQuery)
                     "Failed to fetch city suggestions" ;;
           cityCache_set sanitizedQuery data ;;;
           ret data)
          (fun _ => ret [])
    end.

(** The object literal of [getWeatherData]. *)
Definition transformWeather (data : WeatherApiResponse) : WeatherData :=
  {| weather :=
       [ {| id := cond_code (cur_condition (current data));
            wc_main := cond_text (cur_condition (current data));
            description := cond_text (cur_condition (current data));
            icon := cond_icon (cur_condition (current data)) |} ];
     main :=
       {| temp := Math_round (cur_temp_c (current data));
          feels_like := Math_round (cur_feelslike_c (current data));
          temp_min := Math_round (cur_temp_c (current data));
          temp_max := Math_round (cur_temp_c (current data));
          pressure := cur_pressure_mb (current data);
          humidity := cur_humidity (current data) |};
     wind :=
       {| speed := Math_round (div (cur_wind_kph (current data)) (decimal 36 1));
          deg := cur_wind_degree (current data) |};
     name := loc_name (location data);
     sys := {| place_name := loc_name (location data);
               place_country := loc_country (location data) |} |}.

(** [getWeatherData(city)]. *)
Definition getWeatherData (city : string) : M WeatherOrForecast :=
  if negb (truthy (trim H city)) then throw (Error ERROR_MESSAGES.EMPTY_CITY)
  else
    validateApiKey ;;;
    sanitizedCity <- sanitizeInput city ;;
    let cacheKey := "weather_" ++ sanitizedCity in
    cached <- cachedData weatherCache_get cacheKey ;;
    match cached with
    | Some data => ret data
    | None =>
        data <- fetchApi (current_json E) (currentUrl sanitizedCity)
                  "Failed to fetch weather data" ;;
        let transformedData := transformWeather data in
        weatherCache_set cacheKey (IsWeather transformedData) ;;;
        ret (IsWeather transformedData)
    end.

(** The first arrow function of the forecast's object literal. *)
Definition dailyEntry (d : ApiForecastDay) : ForecastDay :=
  {| dt := div (Date_parse H (api_date d)) (of_Z 1000);
     fd_main :=
       {| temp := Math_round (avgtemp_c (api_day d));
          feels_like := Math_round (avgtemp_c (api_day d));
          temp_min := Math_round (mintemp_c (api_day d));
          temp_max := Math_round (maxtemp_c (api_day d));
          pressure := of_Z 1015;
          humidity := of_Z 0 |};
     fd_weather :=
       [ {| id := cond_code (day_condition (api_day d));
            wc_main := cond_text (day_condition (api_day d));
            description := cond_text (day_condition (api_day d));
            icon := cond_icon (day_condition (api_day d)) |} ];
     fd_wind := {| speed := of_Z 0; deg := of_Z 0 |};
     dt_txt := api_date d |}.

(** The innermost arrow function: one hour, field by field. *)
Definition hourEntry (h : HourlyWeather) : HourlyWeather :=
  {| hr_time := hr_time h;
     hr_temp_c := hr_temp_c h;
     hr_temp_f := hr_temp_f h;
     hr_condition := hr_condition h;
     hr_wind_kph := hr_wind_kph h;
     hr_wind_degree := hr_wind_degree h;
     hr_humidity := hr_humidity h;
     hr_chance_of_rain := hr_chance_of_rain h;
     hr_chance_of_snow := hr_chance_of_snow h;
     hr_is_day := hr_is_day h |}.

(** The second arrow function; [day.hour.map] throws on a day without
    [hour]. *)
Definition dayEntry (d : ApiForecastDay) : Result DayForecast :=
  match api_hour d with
  | Some hours =>
      Returns
        {| date := api_date d;
           day := {| maxtemp_c := maxtemp_c (api_day d);
                     mintemp_c := mintemp_c (api_day d);
                     avgtemp_c := avgtemp_c (api_day d);
                     day_condition := day_condition (api_day d) |};
           hour := List.map hourEntry hours |}
  | None =>
      Throws (JsError "TypeError" "Cannot read properties of undefined (reading 'map')")
  end.

(** [days.map(dayEntry)], stopping at the first day that throws. *)
Fixpoint dayEntries (days : list ApiForecastDay) : Result (list DayForecast) :=
  match days with
  | [] => Returns []
  | d :: days' =>
      match dayEntry d with
      | Returns x =>
          match dayEntries days' with
          | Returns xs => Returns (x :: xs)
          | Throws e => Throws e
          end
      | Throws e => Throws e
      end
  end.

(** [data.forecast?.forecastday?.[0]?.hour] is there (an array is truthy):
    the days of the payload, or [None]. *)
Definition forecastDays (data : ForecastApiResponse) : option (list ApiForecastDay) :=
  match f_forecast data with
  | Some f =>
      match api_forecastday f with
      | Some (d0 :: days) =>
          match api_hour d0 with
          | Some _ => Some (d0 :: days)
          | None => None
          end
      | _ => None
      end
  | None => None
  end.

(** The check and the object literal of [getForecastData]. *)
Definition transformForecast (data : ForecastApiResponse) : Result ForecastData :=
  match forecastDays data with
  | None => Throws (Error "Invalid forecast data received from API")
  | Some days =>
      match dayEntries days with
      | Throws e => Throws e
      | Returns entries =>
          Returns
            {| list_ := List.map dailyEntry days;
               city := {| place_name := loc_name (f_location data);
                          place_country := loc_country (f_location data) |};
               forecast := {| forecastday := entries |};
               location_info :=
                 {| timezone := loc_tz_id (f_location data);
                    localtime := loc_localtime (f_location data);
                    li_country := loc_country (f_location data);
                    li_name := loc_name (f_location data);
                    li_region := loc_region (f_location data) |} |}
      end
  end.

(** [getForecastData(city)]. *)
Definition getForecastData (city : string) : M WeatherOrForecast :=
  if negb (truthy (trim H city)) then throw (Error ERROR_MESSAGES.EMPTY_CITY)
  else
    validateApiKey ;;;
    sanitizedCity <- sanitizeInput city ;;
    let cacheKey := "forecast_" ++ sanitizedCity in
    cached <- cachedData weatherCache_get cacheKey ;;
    match cached with
    | Some data => ret data
    | None =>
        data <- fetchApi (forecast_json E) (forecastUrl sanitizedCity)
                  "Failed to fetch forecast data" ;;
        match transformForecast data with
        | Throws e => throw e
        | Returns transformedData =>
            weatherCache_set cacheKey (IsForecast transformedData) ;;;
            ret (IsForecast transformedData)
        end
    end.

End Service.

(* ================================================================= *)
(** ** [utils/api.ts]: [batchRequests] *)

(** [array.slice(start, end)], for integers. *)
Definition slice {A : Type} (l : list A) (start end_ : Z) : list A :=
  let len := Z.of_nat (List.length l) in
  let k := if start <? 0 then Z.max (len + start) 0 else Z.min start len in
  let final := if end_ <? 0 then Z.max (len + end_) 0 else Z.min end_ len in
  List.firstn (Z.to_nat (final - k)) (List.skipn (Z.to_nat k) l).

Section BatchRequests.

Context {T : Type}.

(** A promise is given by the way it settles, and [batchSize] is an integer.
    Of the promises of a batch that reject, [Promise.all] reports the one
    that rejects first: [firstToReject] picks its reason among theirs. *)
Variable firstToReject : list Thrown -> Thrown.

Definition rejections (batch : list (Result T)) : list Thrown :=
  List.flat_map (fun r => match r with Throws e => [e] | Returns _ => [] end) batch.

Definition values (batch : list (Result T)) : list T :=
  List.flat_map (fun r => match r with Returns v => [v] | Throws _ => [] end) batch.

(** [await Promise.all(batch)]. *)
Definition Promise_all (batch : list (Result T)) : Result (list T) :=
  match rejections batch with
  | [] => Returns (values batch)
  | reasons => Throws (firstToReject reasons)
  end.

(** The [for] loop of [batchRequests] from [i] on, with the [return] that
    follows it; [None] when the loop is still running after [fuel]
    iterations. *)
Fixpoint batchRequests_loop (fuel : nat) (requests : list (Result T)) (batchSize i : Z)
    (results : list T) : option (Result (list T)) :=
  if i <? Z.of_nat (List.length requests) then
    match fuel with
    | O => None
    | S fuel' =>
        match Promise_all (slice requests i (i + batchSize)) with
        | Returns batchResults =>
            batchRequests_loop fuel' requests batchSize (i + batchSize)
              (results ++ batchResults)%list
        | Throws e => Some (Throws e)
        end
    end
  else Some (Returns results).

(** [batchRequests(requests, batchSize)]. *)
Definition batchRequests (fuel : nat) (requests : list (Result T)) (batchSize : Z) :
    option (Result (list T)) :=
  batchRequests_loop fuel requests batchSize 0 [].

End BatchRequests.

(* ================================================================= *)
(** ** [components/HourlyForecast.tsx] *)

(** [Number.isFinite]: the time value of a date is finite or [NaN]. *)
Definition isFinite (x : number) : bool :=
  match x with
  | S754_zero _ | S754_finite _ _ _ => true
  | S754_infinity _ | S754_nan => false
  end.

Section HourlyForecast.

Variable H : Host.

(** [locationTime.getTime()]: the time value of [new Date(localtime)], or of
    [new Date()], which is [now], for a [localtime] that is missing or
    empty. *)
Definition locationTime (now : Z) (localtime : option string) : number :=
  match localtime with
  | Some s => if truthy s then Date_parse H s else of_Z now
  | None => of_Z now
  end.

(** [hourTime >= currentTime], the test of the filter. *)
Definition upcoming (currentTime : number) (hour : HourlyWeather) : bool :=
  SFleb currentTime (Date_parse H (hr_time hour)).

(** [nextHours]. [locationTime.toISOString()], which is logged before the
    filter, throws on an invalid date. *)
Definition nextHours (now : Z) (localtime : option string) (hours : list HourlyWeather) :
    Result (list HourlyWeather) :=
  match hours with
  | [] => Returns []
  | _ :: _ =>
      let currentTime := locationTime now localtime in
      if negb (isFinite currentTime) then Throws (JsError "RangeError" "Invalid time value")
      else Returns (List.firstn 24 (List.filter (upcoming currentTime) hours))
  end.

End HourlyForecast.

(* ================================================================= *)
(** ** A host for running the model

    The built-ins on strings whose code units are below 256, and the
    calendar of a host whose time zone is UTC. *)

Module Utc.

(** White space and line terminators below 256. *)
Definition isSpace (c : ascii) : bool :=
  let n := Z.of_nat (nat_of_ascii c) in
  ((9 <=? n) && (n <=? 13)) || (n =? 32) || (n =? 160).

Fixpoint trimStart (s : string) : string :=
  match s with
  | String c s' => if isSpace c then trimStart s' else s
  | EmptyString => EmptyString
  end.

Fixpoint reverse (s acc : string) : string :=
  match s with
  | String c s' => reverse s' (String c acc)
  | EmptyString => acc
  end.

Definition trim (s : string) : string :=
  reverse (trimStart (reverse (trimStart s) "")) "".

Definition lowerChar (c : ascii) : ascii :=
  let n := Z.of_nat (nat_of_ascii c) in
  if ((65 <=? n) && (n <=? 90))
     || ((192 <=? n) && (n <=? 222) && negb (n =? 215))
  then ascii_of_nat (Z.to_nat (n + 32))
  else c.

Fixpoint toLowerCase (s : string) : string :=
  match s with
  | String c s' => String (lowerChar c) (toLowerCase s')
  | EmptyString => EmptyString
  end.

Definition hexDigit (n : Z) : ascii :=
  ascii_of_nat (Z.to_nat (if n <? 10 then 48 + n else 55 + n)).

(** [%XX] for one byte. *)
Definition percent (n : Z) : string :=
  String "%" (String (hexDigit (n / 16)) (String (hexDigit (n mod 16)) "")).

(** Letters, digits and [- _ . ! ~ * ' ( )] are kept. *)
Definition unreserved (c : ascii) : bool :=
  let n := Z.of_nat (nat_of_ascii c) in
  ((65 <=? n) && (n <=? 90)) || ((97 <=? n) && (n <=? 122))
  || ((48 <=? n) && (n <=? 57))
  || (n =? 45) || (n =? 95) || (n =? 46) || (n =? 33) || (n =? 126)
  || (n =? 42) || (n =? 39) || (n =? 40) || (n =? 41).

Definition encodeChar (c : ascii) : string :=
  let n := Z.of_nat (nat_of_ascii c) in
  if unreserved c then String c ""
  else if n <? 128 then percent n
  else percent (192 + n / 64) ++ percent (128 + n mod 64).

Fixpoint encode (s : string) : string :=
  match s with
  | String c s' => encodeChar c ++ encode s'
  | EmptyString => EmptyString
  end.

(** No code unit below 256 is a surrogate: the host never throws here. *)
Definition encodeURIComponent (s : string) : option string := Some (encode s).

(** Year and month (from 1) of a day number counted from 1970-01-01. *)
Definition civil (days : Z) : Z * Z :=
  let z := days + 719468 in
  let era := z / 146097 in
  let doe := z - era * 146097 in
  let yoe := (doe - doe / 1460 + doe / 36524 - doe / 146096) / 365 in
  let doy := doe - (365 * yoe + yoe / 4 - yoe / 100) in
  let mp := (5 * doy + 2) / 153 in
  let m := if mp <? 10 then mp + 3 else mp - 9 in
  (yoe + era * 400 + (if m <=? 2 then 1 else 0), m).

Definition getFullYear (t : Z) : Z := fst (civil (t / 86400000)).

Definition getMonth (t : Z) : Z := snd (civil (t / 86400000)) - 1.

(** The day number of a date. *)
Definition dayNumber (y m d : Z) : Z :=
  let y' := if m <=? 2 then y - 1 else y in
  let era := y' / 400 in
  let yoe := y' - era * 400 in
  let doy := (153 * (if 2 <? m then m - 3 else m + 9) + 2) / 5 + d - 1 in
  era * 146097 + (yoe * 365 + yoe / 4 - yoe / 100 + doy) - 719468.

Definition digit (c : ascii) : option Z :=
  let n := Z.of_nat (nat_of_ascii c) in
  if (48 <=? n) && (n <=? 57) then Some (n - 48) else None.

Fixpoint digits (cs : list ascii) (acc : Z) : option Z :=
  match cs with
  | [] => Some acc
  | c :: cs' =>
      match digit c with
      | Some d => digits cs' (10 * acc + d)
      | None => None
      end
  end.

(** [new Date(s).getTime()] for a date of the form [YYYY-MM-DD], which is
    read as midnight UTC; [NaN] for any other string. *)
Definition Date_parse (s : string) : number :=
  match list_ascii_of_string s with
  | [y1; y2; y3; y4; "-"%char; m1; m2; "-"%char; d1; d2] =>
      match digits [y1; y2; y3; y4] 0, digits [m1; m2] 0, digits [d1; d2] 0 with
      | Some y, Some m, Some d =>
          if (1 <=? m) && (m <=? 12) && (1 <=? d) && (d <=? 31)
          then of_Z (dayNumber y m d * 86400000)
          else NaN
      | _, _, _ => NaN
      end
  | _ => NaN
  end.

Definition host : Host :=
  Build_Host trim toLowerCase encodeURIComponent getMonth getFullYear Date_parse.

End Utc.

(* ================================================================= *)
(** * Vocabulary of the properties *)

(** ** Numbers *)

(** [x] is a binary64 value in canonical form, as every JavaScript number
    is. *)
Definition binary64 (x : number) : Prop := valid_binary prec emax x = true.

(** [r] is [x] rounded to the nearest integer, a tie going up: an [x] without
    a fractional part, a zero, an infinity or NaN is [r] itself; otherwise
    [r] denotes the integer [n] with [n - 1/2 <= x < n + 1/2], written for
    [x = (+-m) * 2^e] with both sides scaled by [2 * 2^(-e)]. *)
Definition roundsToNearest (x r : number) : Prop :=
  match x with
  | S754_finite s m e =>
      if 0 <=? e then r = x
      else
        exists n : Z,
          to_Z r = Some n
          /\ 2 ^ (- e) * (2 * n - 1) <= 2 * cond_Zopp s (Zpos m)
             < 2 ^ (- e) * (2 * n + 1)
  | _ => r = x
  end.

(** ** The cache *)

(** Successive calls of [set], each with the clock, the key and the value. *)
Definition setAll {T : Type} (live : string) (entries : list (Z * string * T))
    (c : LRUCache.t T) : LRUCache.t T :=
  List.fold_left (fun c0 '(now, key, value) => LRUCache.set live now key value c0) entries c.

(** The keys of such calls, in order. *)
Definition keysOf {T : Type} (entries : list (Z * string * T)) : list string :=
  List.map (fun entry => snd (fst entry)) entries.

(** ** The rate limiter *)

(** The answer the [i]-th call of a window gets. *)
Definition allowed (i : nat) : bool := Z.of_nat i <? CONFIG.API.RATE_LIMIT.

(** ** The usage counter *)

(** A call on the counter, with what the clock shows when it is made. *)
Inductive Call : Type :=
| Increment (now : Z)
| GetCount (now : Z).

Definition callTime (call : Call) : Z :=
  match call with Increment now => now | GetCount now => now end.

(** A sequence of calls; the values [getCount] returned, in order. *)
Fixpoint runCalls (H : Host) (writable : bool) (calls : list Call)
    (c : ApiCallCounter.t) : list Z * ApiCallCounter.t :=
  match calls with
  | [] => ([], c)
  | Increment now :: calls' =>
      runCalls H writable calls' (ApiCallCounter.increment H writable now c)
  | GetCount now :: calls' =>
      let '(n, c1) := ApiCallCounter.getCount H writable now c in
      let '(ns, c2) := runCalls H writable calls' c1 in
      (n :: ns, c2)
  end.

(** Each element is at least the one before it, the first at least [lo]. *)
Fixpoint nondecreasing (lo : Z) (l : list Z) : Prop :=
  match l with
  | [] => True
  | x :: l' => lo <= x /\ nondecreasing x l'
  end.

(** ** The fetch wrapper *)

(** The world one pass through the [try] block of [fetchApi] leaves: the
    counter is incremented on attempt 0 only, and [fetch] has been called
    once more. *)
Definition afterAttempt (H : Host) (E : Env) (attempt : nat) (w : World) : World :=
  with_fetches (S (fetches w))
    (if Nat.eqb attempt 0
     then with_apiCounter
            (ApiCallCounter.increment H (setItem_ok E) (Date_now E (clock w)) (apiCounter w))
            (with_clock (S (clock w)) w)
     else w).

(** What the [try] block makes of the [k]-th call of [fetch] of a run. *)
Definition outcome {T : Type} (endpoint : string -> nat -> FetchOutcome T)
    (url errorMessage : string) (k : nat) : Result T :=
  settle errorMessage (endpoint url k).

(** A failure after which the loop goes on. *)
Definition retryable {T : Type} (r : Result T) : bool :=
  match r with
  | Throws e => negb (notRetried e)
  | Returns _ => false
  end.

(** The world after [k] attempts, from [attempt] on, that each failed and
    were followed by the wait. *)
Fixpoint afterRetries (H : Host) (E : Env) (attempt k : nat) (w : World) : World :=
  match k with
  | O => w
  | S k' =>
      afterRetries H E (S attempt) k'
        (with_waits (waits w ++ [getRetryDelay attempt]) (afterAttempt H E attempt w))
  end.

(** The answer of the rate limiter to [fetchApi] in a world, and the world
    it leaves. *)
Definition permitted (E : Env) (w : World) : bool :=
  fst (RateLimiter.canMakeRequest (Date_now E (clock w)) (Date_now E (S (clock w)))
         (rateLimiter w)).

Definition afterLimiter (E : Env) (w : World) : World :=
  snd (rateLimiter_canMakeRequest E w).

(** ** The operations *)

(** [entry] is stored under [key] in [weatherCache], has the live version and
    is younger than [CONFIG.CACHE.DURATION] at the next read of the clock. *)
Definition freshEntry (E : Env) (w : World) (key : string)
    (entry : LRUCache.CacheEntry WeatherOrForecast) : Prop :=
  LRUCache.Map_get key (LRUCache.cache (weatherCache w)) = Some entry
  /\ LRUCache.version entry = CONFIG.CACHE.VERSION
  /\ isCacheValid (Date_now E (clock w)) (LRUCache.timestamp entry) = true.

(** The operation returns [data] and has made no request: [fetch] was not
    called, nothing was waited for, and the usage counter and the rate
    limiter are as before. *)
Definition servedWithoutRequest (op : M WeatherOrForecast) (w : World)
    (data : WeatherOrForecast) : Prop :=
  exists w' : World,
    op w = (Returns data, w')
    /\ apiCounter w' = apiCounter w
    /\ rateLimiter w' = rateLimiter w
    /\ fetches w' = fetches w
    /\ waits w' = waits w.

(** [s.startsWith(p)]. *)
Fixpoint startsWith (s p : string) {struct p} : bool :=
  match p with
  | EmptyString => true
  | String a p' =>
      match s with
      | String b s' => Ascii.eqb a b && startsWith s' p'
      | EmptyString => false
      end
  end.

(** Every entry of the cache under a key that starts with ["weather_"] holds
    the transform of some payload. *)
Definition weatherEntries (c : LRUCache.t WeatherOrForecast) : Prop :=
  forall (key : string) (entry : LRUCache.CacheEntry WeatherOrForecast),
    LRUCache.Map_get key (LRUCache.cache c) = Some entry ->
    startsWith key "weather_" = true ->
    exists payload : WeatherApiResponse,
      LRUCache.data entry = IsWeather (transformWeather payload).

(** A call of one of the three exported operations. *)
Inductive Operation : Type :=
| SearchCities (query : string)
| GetWeatherData (city : string)
| GetForecastData (city : string).

(** The world a call leaves, and the world a sequence of calls leaves. *)
Definition perform (H : Host) (E : Env) (w : World) (op : Operation) : World :=
  match op with
  | SearchCities query => snd (searchCities H E query w)
  | GetWeatherData city => snd (getWeatherData H E city w)
  | GetForecastData city => snd (getForecastData H E city w)
  end.

Definition performAll (H : Host) (E : Env) (ops : list Operation) (w : World) : World :=
  List.fold_left (perform H E) ops w.

(** The fields of a normalized snapshot that are rounded, against the
    payload it was made from. *)
Definition roundedFields (payload : WeatherApiResponse) (d : WeatherData) : Prop :=
  temp (main d) = Math_round (cur_temp_c (current payload))
  /\ feels_like (main d) = Math_round (cur_feelslike_c (current payload))
  /\ temp_min (main d) = Math_round (cur_temp_c (current payload))
  /\ temp_max (main d) = Math_round (cur_temp_c (current payload))
  /\ speed (wind d) = Math_round (div (cur_wind_kph (current payload)) (decimal 36 1)).

(** ** Further vocabulary *)

(** A call on a cache, and a sequence of calls. *)
Inductive CacheCall (T : Type) : Type :=
| CallSet (now : Z) (key : string) (value : T)
| CallGet (key : string).
Arguments CallSet {T} now key value.
Arguments CallGet {T} key.

Definition cacheCall {T : Type} (live : string) (c : LRUCache.t T) (call : CacheCall T) :
    LRUCache.t T :=
  match call with
  | CallSet now key value => LRUCache.set live now key value c
  | CallGet key => snd (LRUCache.get live key c)
  end.

Definition cacheCalls {T : Type} (live : string) (calls : list (CacheCall T))
    (c : LRUCache.t T) : LRUCache.t T :=
  List.fold_left (cacheCall live) calls c.

(** The key a call stores under, if it stores. *)
Definition storesUnder {T : Type} (call : CacheCall T) : option string :=
  match call with
  | CallSet _ key _ => Some key
  | CallGet _ => None
  end.

(** The keys are distinct, none is the empty string, and there are no more
    of them than the capacity. *)
Definition withinCapacity {T : Type} (c : LRUCache.t T) : Prop :=
  NoDup (LRUCache.Map_keys (LRUCache.cache c))
  /\ Forall (fun key => key <> "") (LRUCache.Map_keys (LRUCache.cache c))
  /\ LRUCache.Map_size (LRUCache.cache c) <= LRUCache.maxSize c.

(** What [getWeatherData] and [getForecastData] store in [weatherCache], and
    under which key. *)
Definition storedBy (H : Host) (key : string) (value : WeatherOrForecast) : Prop :=
  (exists (s : string) (payload : WeatherApiResponse),
      key = "weather_" ++ s /\ value = IsWeather (transformWeather payload))
  \/ (exists (s : string) (payload : ForecastApiResponse) (d : ForecastData),
         key = "forecast_" ++ s
         /\ transformForecast H payload = Returns d
         /\ value = IsForecast d).

(** Every entry of the cache under a key that starts with ["forecast_"]
    holds the transform of some payload. *)
Definition forecastEntries (H : Host) (c : LRUCache.t WeatherOrForecast) : Prop :=
  forall (key : string) (entry : LRUCache.CacheEntry WeatherOrForecast),
    LRUCache.Map_get key (LRUCache.cache c) = Some entry ->
    startsWith key "forecast_" = true ->
    exists (payload : ForecastApiResponse) (d : ForecastData),
      transformForecast H payload = Returns d
      /\ LRUCache.data entry = IsForecast d.

(** The two operations that go through [weatherCache], and the key each
    uses for a sanitized city. *)
Inductive Lookup : Type := CurrentWeather | Forecast.

Definition lookup (H : Host) (E : Env) (kind : Lookup) (city : string) : M WeatherOrForecast :=
  match kind with
  | CurrentWeather => getWeatherData H E city
  | Forecast => getForecastData H E city
  end.

Definition lookupKey (kind : Lookup) (s : string) : string :=
  match kind with
  | CurrentWeather => "weather_" ++ s
  | Forecast => "forecast_" ++ s
  end.

(** The operation returns [a] and has made no request: as
    [servedWithoutRequest], for any type of result. *)
Definition answeredWithoutRequest {A : Type} (op : M A) (w : World) (a : A) : Prop :=
  exists w' : World,
    op w = (Returns a, w')
    /\ apiCounter w' = apiCounter w
    /\ rateLimiter w' = rateLimiter w
    /\ fetches w' = fetches w
    /\ waits w' = waits w.

(** The sum of the waits. *)
Definition totalWait (l : list Z) : Z := List.fold_right Z.add 0 l.

(** [l1] is [l2] with some elements left out. *)
Inductive Subsequence {A : Type} : list A -> list A -> Prop :=
| SubNil : Subsequence [] []
| SubSkip (x : A) (l1 l2 : list A) : Subsequence l1 l2 -> Subsequence l1 (x :: l2)
| SubKeep (x : A) (l1 l2 : list A) : Subsequence l1 l2 -> Subsequence (x :: l1) (x :: l2).

(* ================================================================= *)
(** ** Runs of the model *)

Module Run.

(** 2025-11-02T00:00:00Z. *)
Definition t0 : Z := 1762041600000.

Definition paris : WeatherApiResponse :=
  {| location :=
       {| loc_name := "Paris"; loc_region := "Ile-de-France"; loc_country := "France";
          loc_lat := decimal 4887 2; loc_lon := decimal 233 2;
          loc_tz_id := "Europe/Paris"; loc_localtime := "2025-11-02 01:00" |};
     current :=
       {| cur_temp_c := decimal 186 1; cur_temp_f := decimal 655 1;
          cur_condition := {| cond_text := "Sunny"; cond_icon := "113.png";
                              cond_code := of_Z 1000 |};
          cur_wind_kph := decimal 108 1; cur_wind_degree := of_Z 250;
          cur_pressure_mb := of_Z 1015; cur_humidity := of_Z 60;
          cur_feelslike_c := decimal 186 1 |} |}.

Definition london : CitySearchApiResponse :=
  {| city_id := of_Z 2801268; city_name := "London";
     city_region := "City of London, Greater London";
     city_country := "United Kingdom";
     city_lat := decimal 5152 2; city_lon := decimal (-11) 2;
     city_url := "london-city-of-london-greater-london-united-kingdom" |}.

Definition noon : HourlyWeather :=
  {| hr_time := "2025-11-02 12:00"; hr_temp_c := decimal 186 1; hr_temp_f := decimal 655 1;
     hr_condition := {| cond_text := "Sunny"; cond_icon := "113.png";
                        cond_code := of_Z 1000 |};
     hr_wind_kph := decimal 108 1; hr_wind_degree := of_Z 250; hr_humidity := of_Z 60;
     hr_chance_of_rain := of_Z 0; hr_chance_of_snow := of_Z 0; hr_is_day := of_Z 1 |}.

Definition parisForecast : ForecastApiResponse :=
  {| f_location := location paris;
     f_current := current paris;
     f_forecast :=
       Some {| api_forecastday :=
                 Some [ {| api_date := "2025-11-02";
                           api_day := {| maxtemp_c := decimal 191 1;
                                         mintemp_c := decimal 94 1;
                                         avgtemp_c := decimal 135 1;
                                         day_condition := hr_condition noon |};
                           api_hour := Some [noon] |} ] |} |}.

(** The clock advances by one second at each read; the key and the answers
    of the three endpoints, by the number of the call, are given. *)
Definition env (key : option string)
    (search : nat -> FetchOutcome (list CitySearchApiResponse))
    (current : nat -> FetchOutcome WeatherApiResponse)
    (forecast : nat -> FetchOutcome ForecastApiResponse) : Env :=
  {| VITE_WEATHER_API_KEY := key;
     Date_now := fun k => t0 + 1000 * Z.of_nat k;
     setItem_ok := true;
     search_json := fun _ => search;
     current_json := fun _ => current;
     forecast_json := fun _ => forecast |}.

(** The module just loaded. *)
Definition start : World :=
  {| clock := 0; fetches := 0; waits := [];
     rateLimiter := {| RateLimiter.requests := 0; RateLimiter.lastReset := t0 |};
     apiCounter :=
       {| ApiCallCounter.state :=
            {| ApiCallCounter.count := 0; ApiCallCounter.lastReset := Some t0 |};
          ApiCallCounter.stored := None |};
     cityCache := LRUCache.new CONFIG.CACHE.MAX_SIZE;
     weatherCache := LRUCache.new CONFIG.CACHE.MAX_SIZE |}.

Definition timeout : Thrown := JsError "AbortError" "The operation was aborted.".

Definition offline : Thrown := JsError "TypeError" "Failed to fetch".

Definition found {T : Type} (data : T) : FetchOutcome T :=
  Resolves (ResponseOk (JsonValue data)).

Definition refused {T : Type} (status : Z) (message : string) : FetchOutcome T :=
  Resolves (ResponseNotOk status (JsonValue (Some message))).

(** A key is configured and the provider answers every request. *)
Definition online : Env :=
  env (Some "k") (fun _ => found [london]) (fun _ => found paris)
    (fun _ => found parisForecast).

(** No key is configured. *)
Definition unconfigured : Env :=
  env None (fun _ => found [london]) (fun _ => found paris)
    (fun _ => found parisForecast).

(** A request that times out once and is then refused by the provider. *)
Definition flaky (k : nat) : FetchOutcome WeatherApiResponse :=
  match k with
  | O => Rejects timeout
  | S _ => refused 400 "No matching location found."
  end.

Definition unstable : Env :=
  env (Some "k") (fun _ => found [london]) flaky (fun _ => found parisForecast).

(** The world after [getWeatherData("Paris")] and [getForecastData("Paris")]
    on a module just loaded. *)
Definition warmed : World :=
  snd (getForecastData Utc.host online "Paris"
         (snd (getWeatherData Utc.host online "Paris" start))).

End Run.

(** ** Further data for runs *)

(** Calls of the rate limiter one second apart. *)
Definition everySecond (from : Z) (n : nat) : list (Z * Z) :=
  List.map (fun i => (from + 1000 * Z.of_nat i, from + 1000 * Z.of_nat i)) (seq 0 n).

(** A cache of capacity two, filled by [set "a"] at time 1 and [set "b"] at
    time 2. *)
Definition twoEntries : LRUCache.t Z :=
  LRUCache.set "1.0.0" 2 "b" 20 (LRUCache.set "1.0.0" 1 "a" 10 (LRUCache.new 2)).

(** A counter at 41 whose [lastReset] is 2025-10-15T00:00:00Z, with nothing
    stored. *)
Definition october : ApiCallCounter.t :=
  {| ApiCallCounter.state :=
       {| ApiCallCounter.count := 41; ApiCallCounter.lastReset := Some 1760486400000 |};
     ApiCallCounter.stored := None |}.

(** The provider refuses every search. *)
Definition refusing : Env :=
  Run.env (Some "k") (fun _ => Run.refused 403 "API key has been disabled.")
    (fun _ => Run.found Run.paris) (fun _ => Run.found Run.parisForecast).

(** The first day of the forecast has no [hour]. *)
Definition withoutHours : ForecastApiResponse :=
  {| f_location := location Run.paris;
     f_current := current Run.paris;
     f_forecast :=
       Some {| api_forecastday :=
                 Some [ {| api_date := "2025-11-02";
                           api_day := {| maxtemp_c := decimal 191 1;
                                         mintemp_c := decimal 94 1;
                                         avgtemp_c := decimal 135 1;
                                         day_condition := hr_condition Run.noon |};
                           api_hour := None |} ] |} |}.

Definition incomplete : Env :=
  Run.env (Some "k") (fun _ => Run.found [Run.london]) (fun _ => Run.found Run.paris)
    (fun _ => Run.found withoutHours).

(** Two matches for the query ["Lon"]. *)
Definition lonMatches : list CitySearchApiResponse :=
  [ Run.london;
    {| city_id := of_Z 2801275; city_name := "Londonderry";
       city_region := "North Yorkshire"; city_country := "United Kingdom";
       city_lat := decimal 5427 2; city_lon := decimal (-153) 2;
       city_url := "londonderry-north-yorkshire-united-kingdom" |} ].

Definition twoMatches : Env :=
  Run.env (Some "k") (fun _ => Run.found lonMatches) (fun _ => Run.found Run.paris)
    (fun _ => Run.found Run.parisForecast).

(** ** Data for the further properties *)

(** A cache of capacity one whose only key is the empty string. *)
Definition unnamed : LRUCache.t Z := LRUCache.set "1.0.0" 1 "" 10 (LRUCache.new 1).

(** The clock advances by 400 s at each read. *)
Definition slowClock : Env :=
  {| VITE_WEATHER_API_KEY := Some "k";
     Date_now := fun k => Run.t0 + 400000 * Z.of_nat k;
     setItem_ok := true;
     search_json := fun _ _ => Run.found [Run.london];
     current_json := fun _ _ => Run.found Run.paris;
     forecast_json := fun _ _ => Run.found Run.parisForecast |}.

(** The world after [getWeatherData("Paris")] with that clock. *)
Definition aged : World := snd (getWeatherData Utc.host slowClock "Paris" Run.start).

(** The world after [searchCities("Lon")] found two matches. *)
Definition searched : World := snd (searchCities Utc.host twoMatches "Lon" Run.start).

(** The second day of the forecast has no [hour]. *)
Definition secondDayWithoutHours : list ApiForecastDay :=
  [ {| api_date := "2025-11-02";
       api_day := {| maxtemp_c := decimal 191 1; mintemp_c := decimal 94 1;
                     avgtemp_c := decimal 135 1;
                     day_condition := hr_condition Run.noon |};
       api_hour := Some [Run.noon] |};
    {| api_date := "2025-11-03";
       api_day := {| maxtemp_c := decimal 172 1; mintemp_c := decimal 88 1;
                     avgtemp_c := decimal 120 1;
                     day_condition := hr_condition Run.noon |};
       api_hour := None |} ].

Definition truncated : ForecastApiResponse :=
  {| f_location := location Run.paris;
     f_current := current Run.paris;
     f_forecast := Some {| api_forecastday := Some secondDayWithoutHours |} |}.

(** [new Date(s).getTime()] for ["YYYY-MM-DD HH:MM"], read as UTC, and for
    what [Utc.Date_parse] reads. *)
Definition parseMinutes (s : string) : number :=
  match list_ascii_of_string s with
  | [y1; y2; y3; y4; "-"%char; m1; m2; "-"%char; d1; d2; " "%char;
     h1; h2; ":"%char; n1; n2] =>
      match Utc.digits [y1; y2; y3; y4] 0, Utc.digits [m1; m2] 0, Utc.digits [d1; d2] 0,
            Utc.digits [h1; h2] 0, Utc.digits [n1; n2] 0 with
      | Some y, Some m, Some d, Some h, Some n =>
          if (1 <=? m) && (m <=? 12) && (1 <=? d) && (d <=? 31) && (h <=? 23) && (n <=? 59)
          then of_Z (Utc.dayNumber y m d * 86400000 + h * 3600000 + n * 60000)
          else NaN
      | _, _, _, _, _ => NaN
      end
  | _ => Utc.Date_parse s
  end.

Definition minutesHost : Host :=
  Build_Host Utc.trim Utc.toLowerCase Utc.encodeURIComponent Utc.getMonth Utc.getFullYear
    parseMinutes.

(** The hour that starts at [time], with the weather of [Run.noon]. *)
Definition hourAt (time : string) : HourlyWeather :=
  {| hr_time := time; hr_temp_c := hr_temp_c Run.noon; hr_temp_f := hr_temp_f Run.noon;
     hr_condition := hr_condition Run.noon; hr_wind_kph := hr_wind_kph Run.noon;
     hr_wind_degree := hr_wind_degree Run.noon; hr_humidity := hr_humidity Run.noon;
     hr_chance_of_rain := hr_chance_of_rain Run.noon;
     hr_chance_of_snow := hr_chance_of_snow Run.noon; hr_is_day := hr_is_day Run.noon |}.

Definition midday : list HourlyWeather :=
  [hourAt "2025-11-02 11:00"; hourAt "2025-11-02 12:00"; hourAt "2025-11-02 13:00"].

(* ================================================================= *)
(** * Properties *)

(** ** [Math.round] *)

Section RoundingFacts.

Lemma digits2_pos_size (m : positive) : digits2_pos m = Pos.size m.
Proof. induction m; cbn; congruence. Qed.

Lemma Zpos_lt_pow2_digits (m : positive) : Zpos m < 2 ^ Zpos (digits2_pos m).
Proof.
  rewrite digits2_pos_size.
  pose proof (Pos.size_gt m) as Hgt.
  apply Pos2Z.pos_lt_pos in Hgt. rewrite Pos2Z.inj_pow in Hgt. exact Hgt.
Qed.

Lemma pow2_digits_le_Zpos (m : positive) : 2 ^ (Zpos (digits2_pos m) - 1) <= Zpos m.
Proof.
  rewrite digits2_pos_size.
  pose proof (Pos.size_le m) as Hle.
  apply Pos2Z.pos_le_pos in Hle. rewrite Pos2Z.inj_pow in Hle.
  replace (Zpos (Pos.size m)) with (Z.succ (Zpos (Pos.size m) - 1)) in Hle by lia.
  rewrite Z.pow_succ_r in Hle by lia. lia.
Qed.

Lemma Zpos_iter_xO (p m : positive) : Zpos (Pos.iter xO m p) = Zpos m * 2 ^ Zpos p.
Proof.
  induction p as [| p IH] using Pos.peano_ind.
  - cbn. lia.
  - rewrite Pos.iter_succ, Pos2Z.inj_xO, IH, Pos2Z.inj_succ, Z.pow_succ_r by lia. lia.
Qed.

Lemma digits2_pos_iter_xO (p m : positive) :
  digits2_pos (Pos.iter xO m p) = (digits2_pos m + p)%positive.
Proof.
  induction p as [| p IH] using Pos.peano_ind.
  - cbn. lia.
  - rewrite Pos.iter_succ. cbn [digits2_pos]. rewrite IH. lia.
Qed.

Lemma digits_le_53 (m : positive) : Zpos m < 2 ^ 53 -> Zpos (digits2_pos m) <= 53.
Proof.
  intros Hlt. pose proof (pow2_digits_le_Zpos m) as Hle.
  destruct (Z.le_gt_cases (Zpos (digits2_pos m)) 53) as [Hd | Hd]; [exact Hd |].
  assert (2 ^ 53 <= 2 ^ (Zpos (digits2_pos m) - 1)) by (apply Z.pow_le_mono_r; lia).
  lia.
Qed.

Lemma fexp_53 (d : Z) : 1 <= d <= 53 -> fexp prec emax d = d - 53.
Proof. intros Hd. unfold fexp, emin, prec, emax. lia. Qed.

(** A mantissa of exactly 53 bits, at an exponent in range, is not rounded. *)
Lemma binary_round_aux_exact (s : bool) (m : positive) (e : Z) :
  Zpos (digits2_pos m) = 53 -> -1074 <= e <= 971 ->
  binary_round_aux prec emax s (Zpos m) e loc_Exact = S754_finite s m e.
Proof.
  intros Hd He. unfold binary_round_aux, shr_fexp.
  cbn [Zdigits2 shr_record_of_loc]. rewrite Hd.
  assert (Hf : fexp prec emax (53 + e) - e = 0) by (unfold fexp, emin, prec, emax; lia).
  rewrite Hf. cbn [shr shr_m loc_of_shr_record round_nearest_even Zdigits2].
  rewrite Hd, Hf. cbn [shr shr_m].
  assert (Hle : (e <=? emax - prec) = true) by (apply Z.leb_le; unfold emax, prec; lia).
  now rewrite Hle.
Qed.

Lemma binary_round_int (s : bool) (m : positive) :
  Zpos m < 2 ^ 53 ->
  to_Z (binary_round prec emax s m 0) = Some (cond_Zopp s (Zpos m)).
Proof.
  intros Hlt. pose proof (digits_le_53 m Hlt) as Hd.
  unfold binary_round. rewrite Z.add_0_r.
  rewrite fexp_53 by lia.
  unfold shl_align. rewrite Z.sub_0_r.
  destruct (Zpos (digits2_pos m) - 53) as [| p | p] eqn:Hp; [| lia |].
  - rewrite binary_round_aux_exact by lia.
    cbn. f_equal. lia.
  - rewrite binary_round_aux_exact.
    + unfold to_Z. cbn [Z.leb Z.compare Z.opp]. rewrite Zpos_iter_xO.
      rewrite Z.mod_mul, Z.eqb_refl by lia.
      rewrite Z.div_mul by lia. reflexivity.
    + rewrite digits2_pos_iter_xO. lia.
    + lia.
Qed.

(** An integer below 2^53 is a [number], exactly. *)
Lemma to_Z_of_int (n : Z) (szero : bool) :
  Z.abs n < 2 ^ 53 -> to_Z (binary_normalize prec emax n 0 szero) = Some n.
Proof.
  intros Hn. destruct n as [| m | m]; cbn [binary_normalize].
  - reflexivity.
  - apply (binary_round_int false m). exact Hn.
  - apply (binary_round_int true m). exact Hn.
Qed.

(** [round_half_up] is within one half of the value, the upper end
    excluded. *)
Lemma round_half_up_nearest (s : bool) (m : positive) (e : Z) :
  e < 0 ->
  2 ^ (- e) * (2 * round_half_up s m e - 1) <= 2 * cond_Zopp s (Zpos m)
  < 2 ^ (- e) * (2 * round_half_up s m e + 1).
Proof.
  intros He. unfold round_half_up.
  set (v := cond_Zopp s (Zpos m)). set (k := - e).
  assert (Hk : 0 < k) by lia.
  assert (Hpow : 0 < 2 ^ k) by (apply Z.pow_pos_nonneg; lia).
  rewrite Z.shiftr_div_pow2 by lia.
  rewrite Z.pow_add_r by lia. rewrite Z.pow_1_r.
  pose proof (Z.div_mod (2 * v + 2 ^ k) (2 ^ k * 2) ltac:(lia)) as Hdm.
  pose proof (Z.mod_pos_bound (2 * v + 2 ^ k) (2 ^ k * 2) ltac:(lia)) as Hmod.
  set (n := (2 * v + 2 ^ k) / (2 ^ k * 2)) in *.
  nia.
Qed.

Lemma binary64_mantissa (s : bool) (m : positive) (e : Z) :
  binary64 (S754_finite s m e) -> Zpos m < 2 ^ 53.
Proof.
  unfold binary64. cbn [valid_binary]. unfold bounded, canonical_mantissa.
  intros Hv. apply andb_prop in Hv. destruct Hv as [Hc _].
  apply Z.eqb_eq in Hc. unfold fexp, emin, prec, emax in Hc.
  pose proof (Zpos_lt_pow2_digits m) as Hlt.
  assert (Hd : Zpos (digits2_pos m) <= 53) by lia.
  assert (2 ^ Zpos (digits2_pos m) <= 2 ^ 53) by (apply Z.pow_le_mono_r; lia).
  lia.
Qed.

Lemma round_half_up_small (s : bool) (m : positive) (e : Z) :
  e < 0 -> Zpos m < 2 ^ 53 -> Z.abs (round_half_up s m e) < 2 ^ 53.
Proof.
  intros He Hm. pose proof (round_half_up_nearest s m e He) as Hn.
  set (n := round_half_up s m e) in *.
  assert (Hpow : 2 <= 2 ^ (- e)).
  { change 2 with (2 ^ 1) at 1. apply Z.pow_le_mono_r; lia. }
  set (p := 2 ^ (- e)) in *.
  assert (Hv : - 2 ^ 53 < cond_Zopp s (Zpos m) < 2 ^ 53) by (destruct s; cbn; lia).
  set (v := cond_Zopp s (Zpos m)) in *.
  change (2 ^ 53) with 9007199254740992 in *.
  nia.
Qed.

(** [Math.round] of a binary64 value is that value rounded to the nearest
    integer, a tie going up. *)
Lemma Math_round_nearest (x : number) : binary64 x -> roundsToNearest x (Math_round x).
Proof.
  intros Hx. destruct x as [s | s | | s m e]; cbn [roundsToNearest Math_round];
    try reflexivity.
  destruct (Z.leb_spec 0 e) as [Hge | He]; [reflexivity |].
  exists (round_half_up s m e). split.
  - apply to_Z_of_int. apply round_half_up_small; [exact He |].
    exact (binary64_mantissa s m e Hx).
  - exact (round_half_up_nearest s m e He).
Qed.

End RoundingFacts.

(** ** The rate limiter *)

Section RateLimiterFacts.

Import RateLimiter.

(** A call inside the window counts and leaves the window alone. *)
Lemma canMakeRequest_inside (now1 now2 : Z) (rl : t) :
  now1 - lastReset rl <= 60000 ->
  canMakeRequest now1 now2 rl =
  (requests rl <? CONFIG.API.RATE_LIMIT,
   {| requests := requests rl + 1; lastReset := lastReset rl |}).
Proof.
  intros Hin. unfold canMakeRequest.
  destruct (Z.ltb_spec 60000 (now1 - lastReset rl)) as [Hlt | _]; [lia | reflexivity].
Qed.

(** A call after the window starts the next one. *)
Lemma canMakeRequest_expired (now1 now2 : Z) (rl : t) :
  60000 < now1 - lastReset rl ->
  canMakeRequest now1 now2 rl = (true, {| requests := 1; lastReset := now2 |}).
Proof.
  intros Hout. unfold canMakeRequest.
  destruct (Z.ltb_spec 60000 (now1 - lastReset rl)) as [_ | Hle]; [reflexivity | lia].
Qed.

(** Calls that stay inside the window: the [i]-th is answered from the
    count the window had reached. *)
Lemma calls_inside (ts : list (Z * Z)) :
  forall rl : t,
    Forall (fun r => fst r - lastReset rl <= 60000) ts ->
    fst (calls ts rl) =
    List.map (fun i => requests rl + Z.of_nat i <? CONFIG.API.RATE_LIMIT)
      (seq 0 (List.length ts)).
Proof.
  induction ts as [| [now1 now2] ts IH]; intros rl Hall; [reflexivity |].
  inversion Hall as [| r rs Hhd Htl]; subst. cbn [fst] in Hhd.
  cbn [calls List.length seq List.map].
  rewrite (canMakeRequest_inside now1 now2 rl Hhd).
  destruct (calls ts _) as [oks rl2] eqn:Hcalls.
  cbn [fst]. f_equal.
  - f_equal. lia.
  - specialize (IH {| requests := requests rl + 1; lastReset := lastReset rl |} Htl).
    rewrite Hcalls in IH. cbn [fst requests lastReset] in IH. rewrite IH.
    rewrite <- seq_shift, List.map_map.
    apply List.map_ext. intros i. f_equal. lia.
Qed.

End RateLimiterFacts.

(** C4. From a window that has counted no request yet, calls whose clock
    readings stay within 60 s of the window's start are answered [true]
    exactly for the first [RATE_LIMIT] of them and [false] afterwards; a call
    made more than 60 s after the start resets the count and the start, and
    it and the calls of the new window are again answered [true] for the
    first [RATE_LIMIT] and [false] afterwards. *)
Theorem canMakeRequest_window :
  forall (rl : RateLimiter.t) (ts : list (Z * Z)),
    (RateLimiter.requests rl = 0 ->
     Forall (fun r => fst r - RateLimiter.lastReset rl <= 60000) ts ->
     fst (RateLimiter.calls ts rl) = List.map allowed (seq 0 (List.length ts)))
    /\
    (forall now1 now2 : Z,
        60000 < now1 - RateLimiter.lastReset rl ->
        Forall (fun r => fst r - now2 <= 60000) ts ->
        RateLimiter.canMakeRequest now1 now2 rl =
        (true, {| RateLimiter.requests := 1; RateLimiter.lastReset := now2 |})
        /\ fst (RateLimiter.calls ((now1, now2) :: ts) rl) =
           List.map allowed (seq 0 (S (List.length ts)))).
Proof.
  intros rl ts. split.
  - intros Hzero Hall. rewrite (calls_inside ts rl Hall), Hzero. reflexivity.
  - intros now1 now2 Hout Hall.
    pose proof (canMakeRequest_expired now1 now2 rl Hout) as Hfirst.
    split; [exact Hfirst |].
    cbn [RateLimiter.calls]. rewrite Hfirst.
    destruct (RateLimiter.calls ts _) as [oks rl2] eqn:Hcalls.
    cbn [fst List.length seq List.map]. f_equal.
    pose proof (calls_inside ts {| RateLimiter.requests := 1; RateLimiter.lastReset := now2 |} Hall) as Hrest.
    rewrite Hcalls in Hrest. cbn [fst RateLimiter.requests] in Hrest. rewrite Hrest.
    rewrite <- seq_shift, List.map_map.
    apply List.map_ext. intros i. unfold allowed. f_equal. lia.
Qed.

(** Thirty-two calls one second apart in a fresh window, and thirty-three
    calls that start after a window has run out. *)
Lemma canMakeRequest_window_witness :
  fst (RateLimiter.calls (everySecond 0 32)
         {| RateLimiter.requests := 0; RateLimiter.lastReset := 0 |})
  = List.map allowed (seq 0 32)
  /\ fst (RateLimiter.calls ((70000, 70001) :: everySecond 71000 32)
            {| RateLimiter.requests := 45; RateLimiter.lastReset := 0 |})
     = List.map allowed (seq 0 33).
Proof.
  split.
  - apply (proj1 (canMakeRequest_window
                    {| RateLimiter.requests := 0; RateLimiter.lastReset := 0 |}
                    (everySecond 0 32))).
    + reflexivity.
    + repeat constructor; vm_compute; discriminate.
  - apply (proj2 (canMakeRequest_window
                    {| RateLimiter.requests := 45; RateLimiter.lastReset := 0 |}
                    (everySecond 71000 32)) 70000 70001).
    + vm_compute. reflexivity.
    + repeat constructor; vm_compute; discriminate.
Defined.

(** ** The cache *)

Section CacheFacts.

Import LRUCache.

Context {T : Type}.

Implicit Types (m : Map T) (c : t T) (e : CacheEntry T) (k key : string).

Lemma Map_get_set_same k e m : Map_get k (Map_set k e m) = Some e.
Proof.
  induction m as [| [k' e'] m IH]; cbn.
  - now rewrite String.eqb_refl.
  - destruct (String.eqb k' k) eqn:Hk; cbn.
    + now rewrite String.eqb_refl.
    + now rewrite Hk.
Qed.

Lemma Map_get_set_other k key e m :
  k <> key -> Map_get k (Map_set key e m) = Map_get k m.
Proof.
  intros Hne. induction m as [| [k' e'] m IH]; cbn.
  - destruct (String.eqb_spec key k); [congruence | reflexivity].
  - destruct (String.eqb_spec k' key) as [-> | Hk']; cbn.
    + destruct (String.eqb_spec key k); [congruence | reflexivity].
    + destruct (String.eqb_spec k' k); [reflexivity | exact IH].
Qed.

Lemma Map_get_delete_same k m : Map_get k (Map_delete k m) = None.
Proof.
  induction m as [| [k' e'] m IH]; cbn; [reflexivity |].
  destruct (String.eqb k' k) eqn:Hk; cbn; [exact IH | now rewrite Hk].
Qed.

Lemma Map_get_delete_other k key m :
  k <> key -> Map_get k (Map_delete key m) = Map_get k m.
Proof.
  intros Hne. induction m as [| [k' e'] m IH]; cbn; [reflexivity |].
  destruct (String.eqb_spec k' key) as [-> | Hk']; cbn.
  - destruct (String.eqb_spec key k); [congruence | exact IH].
  - destruct (String.eqb_spec k' k); [reflexivity | exact IH].
Qed.

Lemma Map_get_None_not_key k m : Map_get k m = None <-> ~ In k (Map_keys m).
Proof.
  induction m as [| [k' e'] m IH]; cbn.
  - tauto.
  - destruct (String.eqb_spec k' k) as [-> | Hk'].
    + split; [discriminate | tauto].
    + rewrite IH. tauto.
Qed.

(** Deleting an absent key changes nothing. *)
Lemma Map_delete_absent k m : ~ In k (Map_keys m) -> Map_delete k m = m.
Proof.
  induction m as [| [k' e'] m IH]; cbn; [reflexivity |].
  intros Hnot. destruct (String.eqb_spec k' k) as [-> | Hk'].
  - tauto.
  - f_equal. apply IH. tauto.
Qed.

(** Setting an absent key appends it. *)
Lemma Map_set_absent k e m : ~ In k (Map_keys m) -> Map_set k e m = (m ++ [(k, e)])%list.
Proof.
  induction m as [| [k' e'] m IH]; cbn; [reflexivity |].
  intros Hnot. destruct (String.eqb_spec k' k) as [-> | Hk'].
  - tauto.
  - f_equal. apply IH. tauto.
Qed.

Lemma Map_keys_delete_incl k key m :
  In k (Map_keys (Map_delete key m)) -> In k (Map_keys m) /\ k <> key.
Proof.
  induction m as [| [k' e'] m IH]; cbn; [tauto |].
  destruct (String.eqb_spec k' key) as [-> | Hk']; cbn.
  - intros Hin. destruct (IH Hin). tauto.
  - intros [<- | Hin]; [tauto |]. destruct (IH Hin). tauto.
Qed.

Lemma Map_delete_NoDup key m : NoDup (Map_keys m) -> NoDup (Map_keys (Map_delete key m)).
Proof.
  induction m as [| [k' e'] m IH]; cbn; [trivial |].
  intros Hnd. inversion Hnd as [| x xs Hnotin Hnd']; subst.
  destruct (String.eqb_spec k' key) as [-> | Hk']; cbn; [auto |].
  constructor; [| auto].
  intros Hin. apply Map_keys_delete_incl in Hin. tauto.
Qed.

Lemma Map_keys_set key e m :
  forall k, In k (Map_keys (Map_set key e m)) <-> k = key \/ In k (Map_keys m).
Proof.
  induction m as [| [k' e'] m IH]; cbn; intros k.
  - intuition congruence.
  - destruct (String.eqb_spec k' key) as [-> | Hk']; cbn.
    + intuition congruence.
    + rewrite IH. intuition congruence.
Qed.

Lemma Map_set_NoDup key e m : NoDup (Map_keys m) -> NoDup (Map_keys (Map_set key e m)).
Proof.
  induction m as [| [k' e'] m IH]; cbn.
  - intros _. constructor; [tauto | constructor].
  - intros Hnd. inversion Hnd as [| x xs Hnotin Hnd']; subst.
    destruct (String.eqb_spec k' key) as [-> | Hk']; cbn.
    + constructor; assumption.
    + constructor; [| auto].
      intros Hin. apply Map_keys_set in Hin. destruct Hin as [-> | Hin]; tauto.
Qed.

(** The keys of a [Map] stay distinct under [set] and [get]. *)
Lemma set_NoDup live now key (value : T) c :
  NoDup (Map_keys (cache c)) -> NoDup (Map_keys (cache (set live now key value c))).
Proof.
  intros Hnd. unfold set. cbn [cache]. apply Map_set_NoDup.
  destruct (maxSize c <=? Map_size (cache c)); [| assumption].
  destruct (cache c) as [| [firstKey e0] rest]; cbn [Map_keys List.map fst];
    [assumption |].
  destruct (truthy firstKey); [apply Map_delete_NoDup |]; assumption.
Qed.

Lemma get_NoDup live key c :
  NoDup (Map_keys (cache c)) -> NoDup (Map_keys (cache (snd (get live key c)))).
Proof.
  intros Hnd. unfold get.
  destruct (Map_get key (cache c)) as [entry |]; [| assumption].
  destruct (negb (String.eqb (version entry) live)); cbn [snd cache].
  - now apply Map_delete_NoDup.
  - now apply Map_set_NoDup, Map_delete_NoDup.
Qed.

(** What [set] does to a cache that is full: the first key of the map goes
    (unless it is the empty string), then the entry is stored. *)
Lemma set_at_capacity live now key (value : T) c k0 e0 rest :
  cache c = (k0, e0) :: rest ->
  NoDup (Map_keys (cache c)) ->
  maxSize c <= Map_size (cache c) ->
  k0 <> "" ->
  cache (set live now key value c) =
  Map_set key {| data := value; timestamp := now; version := live |} rest.
Proof.
  intros Hc Hnd Hfull Hk0. unfold set. cbn [cache].
  destruct (Z.leb_spec (maxSize c) (Map_size (cache c))) as [_ | Hlt]; [| lia].
  rewrite Hc in *. cbn [Map_keys List.map fst].
  unfold truthy. destruct (String.eqb_spec k0 "") as [-> | _]; [congruence |].
  cbn [negb Map_delete]. rewrite String.eqb_refl.
  inversion Hnd as [| x xs Hnotin _]; subst.
  now rewrite Map_delete_absent.
Qed.

(** What a hit of [get] does: the entry is returned and moved to the end. *)
Lemma get_hit live key c e :
  Map_get key (cache c) = Some e ->
  version e = live ->
  get live key c =
  (Some e, {| cache := (Map_delete key (cache c) ++ [(key, e)])%list; maxSize := maxSize c |}).
Proof.
  intros Hget Hv. unfold get. rewrite Hget, Hv, String.eqb_refl. cbn [negb].
  rewrite Map_set_absent; [reflexivity |].
  apply Map_get_None_not_key, Map_get_delete_same.
Qed.

(** An entry found after [get] was there before. *)
Lemma Map_get_after_get live key k c e :
  Map_get k (cache (snd (get live key c))) = Some e -> Map_get k (cache c) = Some e.
Proof.
  unfold get. destruct (Map_get key (cache c)) as [entry |] eqn:Hentry; [| trivial].
  destruct (String.eqb_spec k key) as [-> | Hne].
  - destruct (negb (String.eqb (version entry) live)); cbn [snd cache].
    + now rewrite Map_get_delete_same.
    + rewrite Map_get_set_same. congruence.
  - destruct (negb (String.eqb (version entry) live)); cbn [snd cache].
    + now rewrite Map_get_delete_other.
    + rewrite Map_get_set_other, Map_get_delete_other by assumption. trivial.
Qed.

(** An entry found after [set] is the one just stored or was there before. *)
Lemma Map_get_after_set live now key k (value : T) c e :
  Map_get k (cache (set live now key value c)) = Some e ->
  (k = key /\ data e = value) \/ Map_get k (cache c) = Some e.
Proof.
  unfold set. cbn [cache].
  destruct (String.eqb_spec k key) as [-> | Hne].
  - rewrite Map_get_set_same. intros [= <-]. now left.
  - rewrite Map_get_set_other by assumption. intros Hget. right.
    destruct (maxSize c <=? Map_size (cache c)); [| exact Hget].
    destruct (cache c) as [| [firstKey e0] rest] eqn:Hc; [exact Hget |].
    cbn [Map_keys List.map fst] in Hget.
    destruct (truthy firstKey); [| exact Hget].
    destruct (String.eqb_spec k firstKey) as [-> | Hk].
    + now rewrite Map_get_delete_same in Hget.
    + now rewrite Map_get_delete_other in Hget.
Qed.

(** What [get] returns is what the map holds under the key. *)
Lemma get_Some live key c e :
  fst (get live key c) = Some e -> Map_get key (cache c) = Some e.
Proof.
  unfold get. destruct (Map_get key (cache c)) as [entry |]; [| discriminate].
  destruct (negb (String.eqb (version entry) live)); [discriminate | trivial].
Qed.

(** Below capacity [set] of a new key appends it. *)
Lemma set_below_capacity live now key (value : T) c :
  Map_size (cache c) < maxSize c ->
  ~ In key (Map_keys (cache c)) ->
  cache (set live now key value c)
  = (cache c ++ [(key, {| data := value; timestamp := now; version := live |})])%list.
Proof.
  intros Hsize Hnew. unfold set. cbn [cache].
  destruct (Z.leb_spec (maxSize c) (Map_size (cache c))) as [Hle | _]; [lia |].
  now apply Map_set_absent.
Qed.

Lemma Map_keys_app (m1 m2 : Map T) :
  Map_keys (m1 ++ m2)%list = (Map_keys m1 ++ Map_keys m2)%list.
Proof. unfold Map_keys. apply List.map_app. Qed.

Lemma maxSize_setAll live (entries : list (Z * string * T)) :
  forall c, maxSize (setAll live entries c) = maxSize c.
Proof.
  induction entries as [| [[now key] value] entries IH]; intros c; [reflexivity |].
  cbn [setAll List.fold_left]. fold (setAll live entries (set live now key value c)).
  now rewrite IH.
Qed.

(** Distinct new keys that fit are all kept, in the order of their [set]. *)
Lemma setAll_below_capacity live (entries : list (Z * string * T)) :
  forall c,
    NoDup (Map_keys (cache c) ++ keysOf entries) ->
    Map_size (cache c) + Z.of_nat (List.length entries) <= maxSize c ->
    Map_keys (cache (setAll live entries c)) = (Map_keys (cache c) ++ keysOf entries)%list.
Proof.
  induction entries as [| [[now key] value] entries IH]; intros c Hnd Hfit.
  - cbn. now rewrite List.app_nil_r.
  - cbn [setAll List.fold_left]. fold (setAll live entries (set live now key value c)).
    cbn [keysOf List.map fst snd] in *. fold (keysOf entries) in *.
    cbn [List.length] in Hfit.
    assert (Hnew : ~ In key (Map_keys (cache c))).
    { apply NoDup_remove_2 in Hnd. intros Hin. apply Hnd. apply in_or_app. now left. }
    pose proof (set_below_capacity live now key value c ltac:(lia) Hnew) as Hset.
    rewrite IH.
    + rewrite Hset, Map_keys_app. cbn. now rewrite <- List.app_assoc.
    + rewrite Hset, Map_keys_app. cbn. rewrite <- List.app_assoc. cbn.
      apply NoDup_Add with (a := key) (l := (Map_keys (cache c) ++ keysOf entries)%list).
      * apply Add_app.
      * split.
        -- now apply NoDup_remove_1 in Hnd.
        -- now apply NoDup_remove_2 in Hnd.
    + rewrite Hset. cbn [set maxSize]. unfold Map_size in *.
      rewrite List.length_app. cbn. lia.
Qed.

End CacheFacts.

(** C1 as stated fails. The cache holds ["a"] (stored at time 1, the oldest
    insertion) and ["b"] (stored at time 2) and is full. After a hit of
    [get "a"], the next [set] evicts ["b"], and ["a"] is still there with its
    time stamp 1: the hit did protect the oldest-inserted entry. *)
Lemma get_hit_protects_oldest_inserted :
  LRUCache.Map_keys (LRUCache.cache twoEntries) = ["a"; "b"]
  /\ option_map LRUCache.timestamp (LRUCache.Map_get "a" (LRUCache.cache twoEntries)) = Some 1
  /\ option_map LRUCache.timestamp (LRUCache.Map_get "b" (LRUCache.cache twoEntries)) = Some 2
  /\ LRUCache.Map_size (LRUCache.cache (snd (LRUCache.get "1.0.0" "a" twoEntries)))
     = LRUCache.maxSize twoEntries
  /\ LRUCache.Map_keys
       (LRUCache.cache
          (LRUCache.set "1.0.0" 3 "c" 30 (snd (LRUCache.get "1.0.0" "a" twoEntries))))
     = ["a"; "c"]
  /\ option_map LRUCache.timestamp
       (LRUCache.Map_get "a"
          (LRUCache.cache
             (LRUCache.set "1.0.0" 3 "c" 30 (snd (LRUCache.get "1.0.0" "a" twoEntries)))))
     = Some 1.
Proof. repeat split. Qed.

(** C1, amended. When [set] is called with the cache at capacity, the entry
    evicted is the first one in the order of the map (its key not being the
    empty string), and the new entry is then stored. A hit of [get] moves
    the entry it returns to the end of that order. So the order of eviction
    is the order of the latest insertion or hit: after a hit on the first
    key, the next [set] at capacity evicts the second key and keeps the
    first. *)
Theorem set_evicts_first_key_of_map :
  forall (T : Type) (live : string) (now : Z) (key : string) (value : T)
         (c : LRUCache.t T) (k0 : string) (e0 : LRUCache.CacheEntry T)
         (rest : LRUCache.Map T),
    LRUCache.cache c = (k0, e0) :: rest ->
    NoDup (LRUCache.Map_keys (LRUCache.cache c)) ->
    LRUCache.maxSize c <= LRUCache.Map_size (LRUCache.cache c) ->
    let stored :=
      {| LRUCache.data := value; LRUCache.timestamp := now; LRUCache.version := live |} in
    (k0 <> "" ->
     LRUCache.cache (LRUCache.set live now key value c) = LRUCache.Map_set key stored rest)
    /\ (forall (k : string) (e : LRUCache.CacheEntry T),
           LRUCache.Map_get k (LRUCache.cache c) = Some e ->
           LRUCache.version e = live ->
           LRUCache.get live k c =
           (Some e,
            {| LRUCache.cache :=
                 (LRUCache.Map_delete k (LRUCache.cache c) ++ [(k, e)])%list;
               LRUCache.maxSize := LRUCache.maxSize c |}))
    /\ (LRUCache.version e0 = live ->
        LRUCache.get live k0 c =
        (Some e0, {| LRUCache.cache := (rest ++ [(k0, e0)])%list;
                     LRUCache.maxSize := LRUCache.maxSize c |}))
    /\ (forall (k1 : string) (e1 : LRUCache.CacheEntry T) (rest' : LRUCache.Map T),
           rest = (k1, e1) :: rest' ->
           LRUCache.version e0 = live ->
           k1 <> "" ->
           LRUCache.cache (LRUCache.set live now key value (snd (LRUCache.get live k0 c)))
           = LRUCache.Map_set key stored (rest' ++ [(k0, e0)])%list).
Proof.
  intros T live now key value c k0 e0 rest Hc Hnd Hfull stored.
  assert (Hnotin : ~ In k0 (LRUCache.Map_keys rest)).
  { rewrite Hc in Hnd. now inversion Hnd. }
  assert (Hget : LRUCache.Map_get k0 (LRUCache.cache c) = Some e0).
  { rewrite Hc. cbn. now rewrite String.eqb_refl. }
  assert (Hhit : LRUCache.version e0 = live ->
                 LRUCache.get live k0 c =
                 (Some e0, {| LRUCache.cache := (rest ++ [(k0, e0)])%list;
                              LRUCache.maxSize := LRUCache.maxSize c |})).
  { intros Hv. rewrite (get_hit live k0 c e0 Hget Hv). rewrite Hc. cbn.
    rewrite String.eqb_refl. now rewrite Map_delete_absent. }
  split; [| split; [| split]].
  - intros Hk0. exact (set_at_capacity live now key value c k0 e0 rest Hc Hnd Hfull Hk0).
  - intros k e Hk Hv. exact (get_hit live k c e Hk Hv).
  - exact Hhit.
  - intros k1 e1 rest' Hrest Hv Hk1.
    pose proof (get_NoDup live k0 c Hnd) as Hnd'.
    rewrite (Hhit Hv) in *. cbn [snd] in *. subst rest.
    apply (set_at_capacity live now key value _ k1 e1 (rest' ++ [(k0, e0)])%list).
    + reflexivity.
    + exact Hnd'.
    + cbn [LRUCache.cache LRUCache.maxSize]. rewrite Hc in Hfull.
      unfold LRUCache.Map_size in *. cbn [List.length] in *.
      rewrite List.length_app. cbn [List.length]. lia.
    + exact Hk1.
Qed.

Lemma set_evicts_first_key_of_map_witness :
  LRUCache.Map_keys (LRUCache.cache (LRUCache.set "1.0.0" 3 "c" 30 twoEntries)) = ["b"; "c"]
  /\ LRUCache.Map_keys
       (LRUCache.cache
          (LRUCache.set "1.0.0" 3 "c" 30 (snd (LRUCache.get "1.0.0" "a" twoEntries))))
     = ["a"; "c"].
Proof.
  pose proof (set_evicts_first_key_of_map Z "1.0.0" 3 "c" 30 twoEntries "a"
                {| LRUCache.data := 10; LRUCache.timestamp := 1; LRUCache.version := "1.0.0" |}
                [("b", {| LRUCache.data := 20; LRUCache.timestamp := 2;
                          LRUCache.version := "1.0.0" |})]
                eq_refl) as Hthm.
  assert (Hnd : NoDup (LRUCache.Map_keys (LRUCache.cache twoEntries))).
  { vm_compute. repeat constructor; cbn; intuition discriminate. }
  assert (Hfull : LRUCache.maxSize twoEntries <= LRUCache.Map_size (LRUCache.cache twoEntries)).
  { vm_compute. discriminate. }
  destruct (Hthm Hnd Hfull) as [Hset [_ [_ Hafter]]].
  split.
  - rewrite Hset; [reflexivity | discriminate].
  - rewrite (Hafter "b" _ [] eq_refl eq_refl); [reflexivity | discriminate].
Defined.

(** C6. A [set(key, value)] followed at once by [get(key)], the version read
    by [get] being the one [set] stored, returns an entry whose [data] is
    exactly [value]; its time stamp is the time of the [set], so that it
    passes [isCacheValid] for the whole of [CONFIG.CACHE.DURATION]. *)
Theorem set_then_get_returns_value :
  forall (T : Type) (live live' : string) (now now' : Z) (key : string) (value : T)
         (c : LRUCache.t T),
    live' = live ->
    now' - now < CONFIG.CACHE.DURATION ->
    exists (entry : LRUCache.CacheEntry T) (c' : LRUCache.t T),
      LRUCache.get live' key (LRUCache.set live now key value c) = (Some entry, c')
      /\ LRUCache.data entry = value
      /\ LRUCache.timestamp entry = now
      /\ isCacheValid now' (LRUCache.timestamp entry) = true.
Proof.
  intros T live live' now now' key value c -> Hfresh.
  unfold LRUCache.get, LRUCache.set. cbn [LRUCache.cache LRUCache.maxSize].
  rewrite Map_get_set_same. cbn [LRUCache.version].
  rewrite String.eqb_refl. cbn [negb].
  eexists. eexists. split; [reflexivity |].
  cbn [LRUCache.data LRUCache.timestamp]. repeat split.
  unfold isCacheValid. now apply Z.ltb_lt.
Qed.

Lemma set_then_get_returns_value_witness :
  exists (entry : LRUCache.CacheEntry Z) (c' : LRUCache.t Z),
    LRUCache.get "1.0.0" "c" (LRUCache.set "1.0.0" 3 "c" 30 twoEntries) = (Some entry, c')
    /\ LRUCache.data entry = 30
    /\ LRUCache.timestamp entry = 3
    /\ isCacheValid 299999 (LRUCache.timestamp entry) = true.
Proof.
  apply (set_then_get_returns_value Z "1.0.0" "1.0.0" 3 299999 "c" 30 twoEntries).
  - reflexivity.
  - vm_compute. reflexivity.
Defined.

(** C7. When the version read by [get] is not the one stored in the entry of
    [key], [get(key)] returns [undefined] and the entry is gone from the
    cache afterwards, whatever its time stamp; the other keys keep their
    entries. *)
Theorem get_drops_entry_of_other_version :
  forall (T : Type) (live : string) (key : string) (c : LRUCache.t T)
         (entry : LRUCache.CacheEntry T),
    LRUCache.Map_get key (LRUCache.cache c) = Some entry ->
    LRUCache.version entry <> live ->
    fst (LRUCache.get live key c) = None
    /\ LRUCache.Map_get key (LRUCache.cache (snd (LRUCache.get live key c))) = None
    /\ forall k : string,
        k <> key ->
        LRUCache.Map_get k (LRUCache.cache (snd (LRUCache.get live key c)))
        = LRUCache.Map_get k (LRUCache.cache c).
Proof.
  intros T live key c entry Hget Hv. unfold LRUCache.get. rewrite Hget.
  destruct (String.eqb_spec (LRUCache.version entry) live) as [Heq | _]; [contradiction |].
  cbn [negb fst snd LRUCache.cache]. split; [reflexivity | split].
  - apply Map_get_delete_same.
  - intros k Hk. now apply Map_get_delete_other.
Qed.

Lemma get_drops_entry_of_other_version_witness :
  fst (LRUCache.get "1.0.1" "a" twoEntries) = None
  /\ LRUCache.Map_get "a" (LRUCache.cache (snd (LRUCache.get "1.0.1" "a" twoEntries))) = None
  /\ LRUCache.Map_get "b" (LRUCache.cache (snd (LRUCache.get "1.0.1" "a" twoEntries)))
     = LRUCache.Map_get "b" (LRUCache.cache twoEntries).
Proof.
  destruct (get_drops_entry_of_other_version Z "1.0.1" "a" twoEntries
              {| LRUCache.data := 10; LRUCache.timestamp := 1; LRUCache.version := "1.0.0" |})
    as [Hnone [Hgone Hothers]].
  - reflexivity.
  - discriminate.
  - split; [exact Hnone | split; [exact Hgone | apply Hothers; discriminate]].
Defined.

(** ** The usage counter *)

Section CounterFacts.

Import ApiCallCounter.

Variable H : Host.
Variable writable : bool.

Lemma nondecreasing_weaken (lo lo' : Z) (l : list Z) :
  lo' <= lo -> nondecreasing lo l -> nondecreasing lo' l.
Proof. destruct l as [| x l]; cbn; [trivial | intuition lia]. Qed.

Lemma state_saveState (c : t) : state (saveState writable c) = state c.
Proof. unfold saveState. now destruct writable. Qed.

(** In the month of [lastReset] nothing is reset. *)
Lemma checkAndResetMonthly_same_month (now : Z) (c : t) :
  otherMonth H (lastReset (state c)) now = false ->
  checkAndResetMonthly H writable now c = c.
Proof. intros Hsame. unfold checkAndResetMonthly. now rewrite Hsame. Qed.

(** In another month the state becomes [{count: 0, lastReset: now}]. *)
Lemma checkAndResetMonthly_other_month (now : Z) (c : t) :
  otherMonth H (lastReset (state c)) now = true ->
  state (checkAndResetMonthly H writable now c) = {| count := 0; lastReset := Some now |}.
Proof.
  intros Hother. unfold checkAndResetMonthly. rewrite Hother.
  now rewrite state_saveState.
Qed.

Lemma increment_same_month (now : Z) (c : t) :
  otherMonth H (lastReset (state c)) now = false ->
  state (increment H writable now c) =
  {| count := count (state c) + 1; lastReset := lastReset (state c) |}.
Proof.
  intros Hsame. unfold increment.
  rewrite (checkAndResetMonthly_same_month now c Hsame).
  now rewrite state_saveState.
Qed.

Lemma runCalls_same_month (calls : list Call) :
  forall c : t,
    Forall (fun call => otherMonth H (lastReset (state c)) (callTime call) = false) calls ->
    nondecreasing (count (state c)) (fst (runCalls H writable calls c)).
Proof.
  induction calls as [| call calls IH]; intros c Hall; [exact I |].
  inversion Hall as [| x xs Hhd Htl]; subst.
  destruct call as [now | now]; cbn [callTime] in Hhd; cbn [runCalls].
  - pose proof (increment_same_month now c Hhd) as Hinc.
    apply (nondecreasing_weaken (count (state (increment H writable now c)))).
    + rewrite Hinc. cbn. lia.
    + apply IH. rewrite Hinc. exact Htl.
  - unfold getCount. rewrite (checkAndResetMonthly_same_month now c Hhd).
    destruct (runCalls H writable calls c) as [ns c2] eqn:Hrun. cbn [fst nondecreasing].
    split; [lia |].
    specialize (IH c Htl). now rewrite Hrun in IH.
Qed.

End CounterFacts.

(** C5. Over any sequence of [increment] and [getCount] calls made in the
    calendar month of [lastReset], the counts [getCount] returns never go
    down. When the month or the year of the clock differs from that of
    [lastReset], the state is reset to count 0 with [lastReset] set to the
    clock, so that one [increment] across the boundary followed by
    [getCount] in the new month returns exactly 1. *)
Theorem counter_monotone_and_monthly_reset :
  forall (H : Host) (writable : bool) (c : ApiCallCounter.t),
    (forall calls : list Call,
        Forall (fun call =>
                  ApiCallCounter.otherMonth H
                    (ApiCallCounter.lastReset (ApiCallCounter.state c))
                    (callTime call) = false) calls ->
        nondecreasing (ApiCallCounter.count (ApiCallCounter.state c))
          (fst (runCalls H writable calls c)))
    /\ (forall now now' : Z,
           ApiCallCounter.otherMonth H
             (ApiCallCounter.lastReset (ApiCallCounter.state c)) now = true ->
           ApiCallCounter.state (ApiCallCounter.checkAndResetMonthly H writable now c)
           = {| ApiCallCounter.count := 0; ApiCallCounter.lastReset := Some now |}
           /\ (ApiCallCounter.otherMonth H (Some now) now' = false ->
               fst (ApiCallCounter.getCount H writable now'
                      (ApiCallCounter.increment H writable now c)) = 1)).
Proof.
  intros H writable c. split.
  - intros calls Hall. now apply runCalls_same_month.
  - intros now now' Hother.
    pose proof (checkAndResetMonthly_other_month H writable now c Hother) as Hreset.
    split; [exact Hreset |].
    intros Hsame.
    assert (Hinc : ApiCallCounter.state (ApiCallCounter.increment H writable now c)
                   = {| ApiCallCounter.count := 1; ApiCallCounter.lastReset := Some now |}).
    { unfold ApiCallCounter.increment. rewrite state_saveState.
      cbn [ApiCallCounter.state]. now rewrite Hreset. }
    unfold ApiCallCounter.getCount. cbn [fst].
    rewrite checkAndResetMonthly_same_month by (rewrite Hinc; exact Hsame).
    now rewrite Hinc.
Qed.

(** Calls on 2025-10-20 and 2025-10-31 stay in the month of the counter
    [october]; a call on 2025-11-02 crosses the boundary. *)
Lemma counter_monotone_and_monthly_reset_witness :
  nondecreasing 41
    (fst (runCalls Utc.host true
            [GetCount 1760918400000; Increment 1760918400000;
             GetCount 1760918400001; Increment 1761868800000;
             GetCount 1761868800000] october))
  /\ ApiCallCounter.state
       (ApiCallCounter.checkAndResetMonthly Utc.host true 1762041600000 october)
     = {| ApiCallCounter.count := 0; ApiCallCounter.lastReset := Some 1762041600000 |}
  /\ fst (ApiCallCounter.getCount Utc.host true 1762041600500
            (ApiCallCounter.increment Utc.host true 1762041600000 october)) = 1.
Proof.
  destruct (counter_monotone_and_monthly_reset Utc.host true october)
    as [Hmono Hreset].
  split.
  - apply Hmono. repeat constructor.
  - destruct (Hreset 1762041600000 1762041600500) as [Hstate Hone]; [reflexivity |].
    split; [exact Hstate | apply Hone; reflexivity].
Defined.

(** ** The fetch wrapper *)

Section FetchFacts.

Variable H : Host.
Variable E : Env.

Context {T : Type}.
Variable endpoint : string -> nat -> FetchOutcome T.
Variables url errorMessage : string.

Lemma attemptOnce_eq (attempt : nat) (w : World) :
  attemptOnce H E endpoint url errorMessage attempt w
  = (outcome endpoint url errorMessage (fetches w), afterAttempt H E attempt w).
Proof. destruct attempt; reflexivity. Qed.

Lemma fetchApi_loop_S (fuel attempt : nat) (lastError : option Thrown) :
  fetchApi_loop H E endpoint url errorMessage (S fuel) attempt lastError
  = if Nat.leb attempt RETRY_CONFIG.maxRetries then
      try_catch (attemptOnce H E endpoint url errorMessage attempt)
        (fun error =>
           if notRetried error then throw error
           else if Nat.eqb attempt RETRY_CONFIG.maxRetries then
             throw (Error ERROR_MESSAGES.NETWORK_ERROR)
           else
             sleep (getRetryDelay attempt) ;;;
             fetchApi_loop H E endpoint url errorMessage fuel (S attempt) (Some error))
    else
      throw (match lastError with
             | Some e => e
             | None => Error ERROR_MESSAGES.GENERIC_ERROR
             end).
Proof. reflexivity. Qed.

(** One iteration of the loop, by the outcome of its attempt. *)
Lemma fetchApi_loop_step (fuel attempt : nat) (lastError : option Thrown) (w : World) :
  (attempt <= RETRY_CONFIG.maxRetries)%nat ->
  fetchApi_loop H E endpoint url errorMessage (S fuel) attempt lastError w
  = match outcome endpoint url errorMessage (fetches w) with
    | Returns data => (Returns data, afterAttempt H E attempt w)
    | Throws e =>
        if notRetried e then (Throws e, afterAttempt H E attempt w)
        else if Nat.eqb attempt RETRY_CONFIG.maxRetries then
          (Throws (Error ERROR_MESSAGES.NETWORK_ERROR), afterAttempt H E attempt w)
        else
          fetchApi_loop H E endpoint url errorMessage fuel (S attempt) (Some e)
            (with_waits (waits w ++ [getRetryDelay attempt]) (afterAttempt H E attempt w))
    end.
Proof.
  intros Hle. rewrite fetchApi_loop_S.
  apply Nat.leb_le in Hle. rewrite Hle.
  unfold try_catch. rewrite attemptOnce_eq.
  destruct (outcome endpoint url errorMessage (fetches w)) as [data | e]; [reflexivity |].
  destruct (notRetried e); [reflexivity |].
  destruct (Nat.eqb attempt RETRY_CONFIG.maxRetries); [reflexivity |].
  destruct attempt; reflexivity.
Qed.

(** The fuel [fetchApi] gives the loop never runs out: from [attempt] on,
    any fuel of at least [maxRetries + 1 - attempt] gives the same run. *)
Lemma fetchApi_loop_fuel (fuel : nat) :
  forall (fuel' attempt : nat) (lastError : option Thrown) (w : World),
    (S RETRY_CONFIG.maxRetries - attempt <= fuel)%nat ->
    (S RETRY_CONFIG.maxRetries - attempt <= fuel')%nat ->
    fetchApi_loop H E endpoint url errorMessage fuel attempt lastError w
    = fetchApi_loop H E endpoint url errorMessage fuel' attempt lastError w.
Proof.
  induction fuel as [| fuel IH]; intros fuel' attempt lastError w Hfuel Hfuel'.
  - destruct fuel' as [| fuel']; [reflexivity |].
    rewrite fetchApi_loop_S.
    destruct (Nat.leb_spec attempt RETRY_CONFIG.maxRetries) as [Hle | _]; [lia | reflexivity].
  - rewrite fetchApi_loop_S.
    destruct (Nat.leb_spec attempt RETRY_CONFIG.maxRetries) as [Hle | Hgt].
    + destruct fuel' as [| fuel']; [lia |].
      rewrite fetchApi_loop_S.
      apply Nat.leb_le in Hle. rewrite Hle. apply Nat.leb_le in Hle.
      unfold try_catch.
      destruct (attemptOnce H E endpoint url errorMessage attempt w) as [[data | e] w1];
        [reflexivity |].
      destruct (notRetried e); [reflexivity |].
      destruct (Nat.eqb attempt RETRY_CONFIG.maxRetries); [reflexivity |].
      unfold bind, sleep. apply IH; lia.
    + destruct fuel' as [| fuel']; [reflexivity |].
      rewrite fetchApi_loop_S.
      destruct (Nat.leb_spec attempt RETRY_CONFIG.maxRetries) as [Hle | _];
        [lia | reflexivity].
Qed.

Lemma fetches_afterRetries (k : nat) :
  forall (attempt : nat) (w : World),
    fetches (afterRetries H E attempt k w) = (fetches w + k)%nat.
Proof.
  induction k as [| k IH]; intros attempt w; cbn [afterRetries]; [lia |].
  rewrite IH. destruct attempt; cbn; lia.
Qed.

Lemma waits_afterRetries (k : nat) :
  forall (attempt : nat) (w : World),
    waits (afterRetries H E attempt k w)
    = (waits w ++ List.map getRetryDelay (seq attempt k))%list.
Proof.
  induction k as [| k IH]; intros attempt w; cbn [afterRetries seq List.map].
  - now rewrite List.app_nil_r.
  - rewrite IH. destruct attempt; cbn [with_waits waits]; now rewrite <- List.app_assoc.
Qed.

(** After [k] retryable failures the loop stands at attempt [attempt + k]. *)
Lemma fetchApi_loop_retries (k : nat) :
  forall (fuel attempt : nat) (lastError : option Thrown) (w : World),
    (attempt + k <= RETRY_CONFIG.maxRetries)%nat ->
    (forall j : nat,
        (j < k)%nat ->
        retryable (outcome endpoint url errorMessage (fetches w + j)) = true) ->
    exists lastError' : option Thrown,
      fetchApi_loop H E endpoint url errorMessage (k + fuel) attempt lastError w
      = fetchApi_loop H E endpoint url errorMessage fuel (attempt + k) lastError'
          (afterRetries H E attempt k w).
Proof.
  induction k as [| k IH]; intros fuel attempt lastError w Hle Hfail.
  - exists lastError. now rewrite Nat.add_0_r.
  - cbn [Nat.add afterRetries].
    rewrite fetchApi_loop_step by lia.
    pose proof (Hfail 0%nat ltac:(lia)) as Hfirst. rewrite Nat.add_0_r in Hfirst.
    destruct (outcome endpoint url errorMessage (fetches w)) as [data | e];
      [discriminate |].
    cbn [retryable] in Hfirst. apply negb_true_iff in Hfirst. rewrite Hfirst.
    destruct (Nat.eqb_spec attempt RETRY_CONFIG.maxRetries) as [Heq | _]; [lia |].
    destruct (IH fuel (S attempt) (Some e)
                (with_waits (waits w ++ [getRetryDelay attempt])
                   (afterAttempt H E attempt w)))
      as [lastError' Hloop].
    + lia.
    + intros j Hj. specialize (Hfail (S j) ltac:(lia)).
      replace (fetches (with_waits (waits w ++ [getRetryDelay attempt])
                          (afterAttempt H E attempt w)) + j)%nat
        with (fetches w + S j)%nat; [exact Hfail |].
      destruct attempt; cbn; lia.
    + exists lastError'. rewrite Hloop. f_equal. lia.
Qed.

Lemma fetchApi_eq (w : World) :
  fetchApi H E endpoint url errorMessage w
  = if permitted E w
    then fetchApi_loop H E endpoint url errorMessage (S RETRY_CONFIG.maxRetries) 0 None
           (afterLimiter E w)
    else (Throws (Error ERROR_MESSAGES.RATE_LIMIT), afterLimiter E w).
Proof.
  unfold fetchApi, bind, permitted, afterLimiter, rateLimiter_canMakeRequest.
  destruct (RateLimiter.canMakeRequest _ _ _) as [ok rl].
  destruct ok; reflexivity.
Qed.

Lemma afterLimiter_frame (w : World) :
  fetches (afterLimiter E w) = fetches w
  /\ waits (afterLimiter E w) = waits w
  /\ apiCounter (afterLimiter E w) = apiCounter w
  /\ cityCache (afterLimiter E w) = cityCache w
  /\ weatherCache (afterLimiter E w) = weatherCache w.
Proof.
  unfold afterLimiter, rateLimiter_canMakeRequest.
  destruct (RateLimiter.canMakeRequest _ _ _) as [ok rl]. now cbn.
Qed.

(** Attempt 0 increments the counter; the attempts after it leave it alone. *)
Lemma apiCounter_afterAttempt_0 (w : World) :
  apiCounter (afterAttempt H E 0 w)
  = ApiCallCounter.increment H (setItem_ok E) (Date_now E (clock w)) (apiCounter w).
Proof. reflexivity. Qed.

Lemma apiCounter_afterAttempt_S (attempt : nat) (w : World) :
  apiCounter (afterAttempt H E (S attempt) w) = apiCounter w.
Proof. reflexivity. Qed.

(** What the loop leaves alone, for any part of the world that an attempt
    and a wait leave alone. *)
Lemma fetchApi_loop_frame {X : Type} (f : World -> X) (from : nat) :
  (forall (attempt : nat) (w : World),
      (from <= attempt)%nat -> f (afterAttempt H E attempt w) = f w) ->
  (forall (l : list Z) (w : World), f (with_waits l w) = f w) ->
  forall (fuel attempt : nat) (lastError : option Thrown) (w : World),
    (from <= attempt)%nat ->
    f (snd (fetchApi_loop H E endpoint url errorMessage fuel attempt lastError w)) = f w.
Proof.
  intros Hattempt Hwaits.
  induction fuel as [| fuel IH]; intros attempt lastError w Hfrom; [reflexivity |].
  rewrite fetchApi_loop_S.
  destruct (Nat.leb attempt RETRY_CONFIG.maxRetries); [| reflexivity].
  unfold try_catch. rewrite attemptOnce_eq.
  destruct (outcome endpoint url errorMessage (fetches w)) as [data | e];
    [now apply Hattempt |].
  destruct (notRetried e); [now apply Hattempt |].
  destruct (Nat.eqb attempt RETRY_CONFIG.maxRetries); [now apply Hattempt |].
  unfold bind, sleep. rewrite IH by lia. rewrite Hwaits. now apply Hattempt.
Qed.

(** The loop from attempt 1 on leaves the counter alone. *)
Lemma fetchApi_loop_counter_frame (fuel attempt : nat) (lastError : option Thrown)
    (w : World) :
  apiCounter
    (snd (fetchApi_loop H E endpoint url errorMessage fuel (S attempt) lastError w))
  = apiCounter w.
Proof.
  apply (fetchApi_loop_frame apiCounter 1).
  - intros [| a] w0 Ha; [lia | reflexivity].
  - reflexivity.
  - lia.
Qed.

(** [fetchApi] leaves the weather cache alone. *)
Lemma weatherCache_fetchApi (w : World) :
  weatherCache (snd (fetchApi H E endpoint url errorMessage w)) = weatherCache w.
Proof.
  rewrite fetchApi_eq.
  destruct (afterLimiter_frame w) as [_ [_ [_ [_ Hcache]]]].
  destruct (permitted E w); cbn [snd]; [| exact Hcache].
  rewrite (fetchApi_loop_frame weatherCache 0); [exact Hcache | | | lia].
  - intros attempt w0 _. destruct attempt; reflexivity.
  - reflexivity.
Qed.

(** Every attempt calls [fetch] once: the loop never lowers the count. *)
Lemma fetchApi_loop_fetches (fuel : nat) :
  forall (attempt : nat) (lastError : option Thrown) (w : World),
    (fetches w
     <= fetches (snd (fetchApi_loop H E endpoint url errorMessage fuel attempt lastError w)))%nat.
Proof.
  induction fuel as [| fuel IH]; intros attempt lastError w; [cbn; lia |].
  rewrite fetchApi_loop_S.
  destruct (Nat.leb attempt RETRY_CONFIG.maxRetries); [| cbn; lia].
  unfold try_catch. rewrite attemptOnce_eq.
  assert (Hone : fetches (afterAttempt H E attempt w) = S (fetches w)) by reflexivity.
  destruct (outcome endpoint url errorMessage (fetches w)) as [data | e];
    [cbn [snd]; lia |].
  destruct (notRetried e); [cbn [snd throw]; lia |].
  destruct (Nat.eqb attempt RETRY_CONFIG.maxRetries); [cbn [snd throw]; lia |].
  unfold bind, sleep.
  etransitivity; [| apply IH]. cbn [with_waits fetches]. lia.
Qed.

End FetchFacts.

(** The delays grow up to the last retry of the configuration. *)
Lemma getRetryDelay_increasing (i j : nat) :
  (i < j <= RETRY_CONFIG.maxRetries)%nat -> getRetryDelay i < getRetryDelay j.
Proof.
  unfold RETRY_CONFIG.maxRetries. intros Hij.
  assert (Hcases : ((i = 0 /\ j = 1) \/ (i = 0 /\ j = 2) \/ (i = 1 /\ j = 2))%nat) by lia.
  destruct Hcases as [[-> ->] | [[-> ->] | [-> ->]]]; reflexivity.
Qed.

(** C3. Let [fetchApi] pass the rate limiter and let its first [k] attempts
    fail in a way the loop retries. If attempt [k] fails with an error that
    is an [Error], is not named [AbortError] and has no ["network"] in its
    message, that error is thrown at once: no further attempt is made (one
    attempt in all when [k = 0]). If attempt [k] succeeds its data is
    returned. If [k = maxRetries] and attempt [k] fails in the retried way
    again, the generic network error is thrown after [maxRetries + 1]
    attempts. In each case the waits were [getRetryDelay 0], ...,
    [getRetryDelay (k - 1)], with
    [getRetryDelay attempt = min (baseDelay * 2^attempt) 5000], and these
    delays increase strictly over the attempts of the configuration. *)
Theorem fetchApi_retry_policy :
  forall (H : Host) (E : Env) (T : Type) (endpoint : string -> nat -> FetchOutcome T)
         (url errorMessage : string) (w : World) (k : nat),
    permitted E w = true ->
    (k <= RETRY_CONFIG.maxRetries)%nat ->
    (forall j : nat,
        (j < k)%nat ->
        retryable (outcome endpoint url errorMessage (fetches w + j)) = true) ->
    let r := fetchApi H E endpoint url errorMessage w in
    let last := outcome endpoint url errorMessage (fetches w + k) in
    let made :=
      fetches (snd r) = (fetches w + k + 1)%nat
      /\ waits (snd r) = (waits w ++ List.map getRetryDelay (seq 0 k))%list in
    (forall e : Thrown, last = Throws e -> notRetried e = true -> fst r = Throws e /\ made)
    /\ (forall data : T, last = Returns data -> fst r = Returns data /\ made)
    /\ (k = RETRY_CONFIG.maxRetries ->
        retryable last = true ->
        fst r = Throws (Error ERROR_MESSAGES.NETWORK_ERROR) /\ made)
    /\ (forall name message : string,
           notRetried (JsError name message)
           = negb (String.eqb name "AbortError") && negb (includes message "network"))
    /\ (forall attempt : nat,
           getRetryDelay attempt
           = Z.min (RETRY_CONFIG.baseDelay * 2 ^ Z.of_nat attempt) 5000)
    /\ (forall i j : nat,
           (i < j <= RETRY_CONFIG.maxRetries)%nat -> getRetryDelay i < getRetryDelay j).
Proof.
  intros H E T endpoint url errorMessage w k Hpermitted Hk Hfail r last made.
  destruct (afterLimiter_frame E w) as [Hfetches [Hwaits _]].
  destruct (fetchApi_loop_retries H E endpoint url errorMessage k
              (S (RETRY_CONFIG.maxRetries - k)) 0 None (afterLimiter E w))
    as [lastError Hloop].
  { lia. }
  { intros j Hj. rewrite Hfetches. now apply Hfail. }
  assert (Hr : r = fetchApi_loop H E endpoint url errorMessage
                     (S (RETRY_CONFIG.maxRetries - k)) k lastError
                     (afterRetries H E 0 k (afterLimiter E w))).
  { subst r. rewrite fetchApi_eq, Hpermitted.
    replace (S RETRY_CONFIG.maxRetries) with (k + S (RETRY_CONFIG.maxRetries - k))%nat by lia.
    exact Hloop. }
  rewrite fetchApi_loop_step in Hr by exact Hk.
  rewrite fetches_afterRetries, Hfetches in Hr. fold last in Hr.
  assert (Hmade : forall res : Result T,
             r = (res, afterAttempt H E k (afterRetries H E 0 k (afterLimiter E w))) ->
             fst r = res /\ made).
  { intros res ->. subst made. cbn [fst snd]. split; [reflexivity | split].
    - change (fetches (afterAttempt H E k (afterRetries H E 0 k (afterLimiter E w))))
        with (S (fetches (afterRetries H E 0 k (afterLimiter E w)))).
      rewrite fetches_afterRetries, Hfetches. lia.
    - transitivity (waits (afterRetries H E 0 k (afterLimiter E w))).
      + destruct k; reflexivity.
      + now rewrite waits_afterRetries, Hwaits. }
  split; [| split; [| split; [| split; [| split]]]].
  - intros e Hlast Hnot. apply Hmade. now rewrite Hr, Hlast, Hnot.
  - intros data Hlast. apply Hmade. now rewrite Hr, Hlast.
  - intros Hkmax Hretry. apply Hmade. rewrite Hr.
    destruct last as [data | e]; [discriminate |].
    cbn [retryable] in Hretry. apply negb_true_iff in Hretry. rewrite Hretry.
    apply Nat.eqb_eq in Hkmax. now rewrite Hkmax.
  - reflexivity.
  - reflexivity.
  - exact getRetryDelay_increasing.
Qed.

(** The request for the current weather times out once and is then refused
    by the provider: two attempts, one wait of a second. *)
Lemma fetchApi_retry_policy_witness :
  fst (fetchApi Utc.host Run.unstable (current_json Run.unstable) "u"
         "Failed to fetch weather data" Run.start)
  = Throws (Error "No matching location found.")
  /\ fetches (snd (fetchApi Utc.host Run.unstable (current_json Run.unstable) "u"
                     "Failed to fetch weather data" Run.start))
     = 2%nat
  /\ waits (snd (fetchApi Utc.host Run.unstable (current_json Run.unstable) "u"
                   "Failed to fetch weather data" Run.start))
     = [1000].
Proof.
  destruct (fetchApi_retry_policy Utc.host Run.unstable WeatherApiResponse
              (current_json Run.unstable) "u" "Failed to fetch weather data"
              Run.start 1)
    as [Hthrown _].
  - reflexivity.
  - unfold RETRY_CONFIG.maxRetries. lia.
  - intros j Hj. assert (j = 0%nat) as -> by lia. reflexivity.
  - exact (Hthrown (Error "No matching location found.") eq_refl eq_refl).
Defined.

(** One [increment] makes the count one more than the monthly check
    leaves it: one more than it was in the month of [lastReset], and 1 in
    another month. *)
Lemma count_increment (H : Host) (writable : bool) (now : Z) (c : ApiCallCounter.t) :
  ApiCallCounter.count (ApiCallCounter.state (ApiCallCounter.increment H writable now c))
  = (if ApiCallCounter.otherMonth H
          (ApiCallCounter.lastReset (ApiCallCounter.state c)) now
     then 0
     else ApiCallCounter.count (ApiCallCounter.state c)) + 1.
Proof.
  unfold ApiCallCounter.increment. rewrite state_saveState.
  cbn [ApiCallCounter.state ApiCallCounter.count].
  unfold ApiCallCounter.checkAndResetMonthly.
  destruct (ApiCallCounter.otherMonth H _ now); [| reflexivity].
  now rewrite state_saveState.
Qed.

(** C9. A run of [fetchApi] that passes the rate limiter makes at least one
    attempt and leaves the usage counter as exactly one [increment] makes
    it, the one of attempt 0 (at the time the clock shows then): however
    many attempts follow, the count is one more than it was, or 1 when the
    month of [lastReset] is over. An attempt of index above 0 leaves the
    counter as it is. A run the rate limiter rejects throws the rate-limit
    error, calls [fetch] not at all and leaves the counter as it is. *)
Theorem fetchApi_counts_once :
  forall (H : Host) (E : Env) (T : Type) (endpoint : string -> nat -> FetchOutcome T)
         (url errorMessage : string) (w : World),
    (if permitted E w
     then apiCounter (snd (fetchApi H E endpoint url errorMessage w))
          = ApiCallCounter.increment H (setItem_ok E)
              (Date_now E (clock (afterLimiter E w))) (apiCounter w)
          /\ (fetches w + 1 <= fetches (snd (fetchApi H E endpoint url errorMessage w)))%nat
          /\ ApiCallCounter.count
               (ApiCallCounter.state
                  (apiCounter (snd (fetchApi H E endpoint url errorMessage w))))
             = (if ApiCallCounter.otherMonth H
                     (ApiCallCounter.lastReset (ApiCallCounter.state (apiCounter w)))
                     (Date_now E (clock (afterLimiter E w)))
                then 0
                else ApiCallCounter.count (ApiCallCounter.state (apiCounter w))) + 1
     else fetchApi H E endpoint url errorMessage w
          = (Throws (Error ERROR_MESSAGES.RATE_LIMIT), afterLimiter E w)
          /\ apiCounter (afterLimiter E w) = apiCounter w
          /\ fetches (afterLimiter E w) = fetches w)
    /\ (forall (attempt : nat) (w' : World),
           apiCounter (snd (attemptOnce H E endpoint url errorMessage 0 w'))
           = ApiCallCounter.increment H (setItem_ok E) (Date_now E (clock w')) (apiCounter w')
           /\ apiCounter (snd (attemptOnce H E endpoint url errorMessage (S attempt) w'))
              = apiCounter w'
           /\ ApiCallCounter.count
                (ApiCallCounter.state
                   (apiCounter (snd (attemptOnce H E endpoint url errorMessage 0 w'))))
              = (if ApiCallCounter.otherMonth H
                      (ApiCallCounter.lastReset (ApiCallCounter.state (apiCounter w')))
                      (Date_now E (clock w'))
                 then 0
                 else ApiCallCounter.count (ApiCallCounter.state (apiCounter w'))) + 1).
Proof.
  intros H E T endpoint url errorMessage w.
  destruct (afterLimiter_frame E w) as [Hfetches [_ [Hcounter _]]].
  split.
  - rewrite fetchApi_eq. destruct (permitted E w); [| now repeat split].
    assert (Hrun : apiCounter
                     (snd (fetchApi_loop H E endpoint url errorMessage
                             (S RETRY_CONFIG.maxRetries) 0 None (afterLimiter E w)))
                   = ApiCallCounter.increment H (setItem_ok E)
                       (Date_now E (clock (afterLimiter E w))) (apiCounter w)
                   /\ (fetches w + 1
                       <= fetches
                            (snd (fetchApi_loop H E endpoint url errorMessage
                                    (S RETRY_CONFIG.maxRetries) 0 None (afterLimiter E w))))%nat).
    { rewrite fetchApi_loop_step by lia.
      assert (Hone : fetches (afterAttempt H E 0 (afterLimiter E w)) = S (fetches w)).
      { change (fetches (afterAttempt H E 0 (afterLimiter E w)))
          with (S (fetches (afterLimiter E w))).
        now rewrite Hfetches. }
      assert (Hinc : apiCounter (afterAttempt H E 0 (afterLimiter E w))
                     = ApiCallCounter.increment H (setItem_ok E)
                         (Date_now E (clock (afterLimiter E w))) (apiCounter w)).
      { rewrite apiCounter_afterAttempt_0. now rewrite Hcounter. }
      destruct (outcome endpoint url errorMessage (fetches (afterLimiter E w))) as [data | e].
      { cbn [snd]. split; [exact Hinc | lia]. }
      destruct (notRetried e); [cbn [snd]; split; [exact Hinc | lia] |].
      destruct (Nat.eqb 0 RETRY_CONFIG.maxRetries); [cbn [snd]; split; [exact Hinc | lia] |].
      split.
      + rewrite fetchApi_loop_counter_frame. exact Hinc.
      + etransitivity; [| apply fetchApi_loop_fetches]. cbn [with_waits fetches]. lia. }
    destruct Hrun as [Hinc Hmore].
    split; [exact Hinc | split; [exact Hmore |]].
    rewrite Hinc. apply count_increment.
  - intros attempt w'. rewrite !attemptOnce_eq.
    split; [reflexivity | split; [reflexivity |]].
    cbn [snd]. rewrite apiCounter_afterAttempt_0. apply count_increment.
Qed.

(** A request that times out and is then refused: two calls of [fetch], and
    the count goes from 0 to 1. With the thirty calls of the window used up,
    the request is rejected and the count stays at 0. *)
Lemma fetchApi_counts_once_witness :
  ApiCallCounter.count (ApiCallCounter.state (apiCounter Run.start)) = 0
  /\ fetches (snd (fetchApi Utc.host Run.unstable (current_json Run.unstable) "u"
                     "Failed to fetch weather data" Run.start))
     = 2%nat
  /\ ApiCallCounter.count
       (ApiCallCounter.state
          (apiCounter (snd (fetchApi Utc.host Run.unstable (current_json Run.unstable) "u"
                              "Failed to fetch weather data" Run.start))))
     = 1
  /\ fetchApi Utc.host Run.unstable (current_json Run.unstable) "u"
       "Failed to fetch weather data"
       (with_rateLimiter
          {| RateLimiter.requests := 30; RateLimiter.lastReset := Run.t0 |} Run.start)
     = (Throws (Error ERROR_MESSAGES.RATE_LIMIT),
        afterLimiter Run.unstable
          (with_rateLimiter
             {| RateLimiter.requests := 30; RateLimiter.lastReset := Run.t0 |} Run.start))
  /\ ApiCallCounter.count
       (ApiCallCounter.state
          (apiCounter
             (afterLimiter Run.unstable
                (with_rateLimiter
                   {| RateLimiter.requests := 30; RateLimiter.lastReset := Run.t0 |}
                   Run.start))))
     = 0.
Proof.
  pose proof (proj1 (fetchApi_counts_once Utc.host Run.unstable WeatherApiResponse
                       (current_json Run.unstable) "u" "Failed to fetch weather data"
                       Run.start)) as Hpassed.
  change (permitted Run.unstable Run.start) with true in Hpassed.
  destruct Hpassed as [_ [_ Hcount]].
  pose proof (proj1 (fetchApi_counts_once Utc.host Run.unstable WeatherApiResponse
                       (current_json Run.unstable) "u" "Failed to fetch weather data"
                       (with_rateLimiter
                          {| RateLimiter.requests := 30; RateLimiter.lastReset := Run.t0 |}
                          Run.start))) as Hrejected.
  change (permitted Run.unstable
            (with_rateLimiter
               {| RateLimiter.requests := 30; RateLimiter.lastReset := Run.t0 |} Run.start))
    with false in Hrejected.
  destruct Hrejected as [Hthrown [Hsame _]].
  split; [reflexivity | split; [reflexivity | split; [| split]]].
  - rewrite Hcount. reflexivity.
  - exact Hthrown.
  - rewrite Hsame. reflexivity.
Defined.

(** ** The three operations *)

Section OperationFacts.

Variable H : Host.
Variable E : Env.

(** The cache check throws nothing. *)
Lemma cachedData_returns {T : Type}
    (cache_get : string -> M (option (LRUCache.CacheEntry T))) (key : string) (w : World) :
  (forall w0 : World, exists entry w1, cache_get key w0 = (Returns entry, w1)) ->
  exists (cached : option T) (w' : World),
    cachedData E cache_get key w = (Returns cached, w').
Proof.
  intros Hget. destruct (Hget w) as [entry [w1 Hw1]].
  unfold cachedData, bind. rewrite Hw1.
  destruct entry as [entry |]; cbn; do 2 eexists; reflexivity.
Qed.

Lemma cityCache_get_returns (key : string) (w0 : World) :
  exists entry w1, cityCache_get key w0 = (Returns entry, w1).
Proof.
  unfold cityCache_get.
  destruct (LRUCache.get CONFIG.CACHE.VERSION key (cityCache w0)) as [entry c].
  do 2 eexists; reflexivity.
Qed.

(** A [catch] block that returns a value lets nothing through. *)
Lemma try_catch_returns {A : Type} (c : M A) (fallback : A) (w : World) :
  exists (a : A) (w' : World),
    try_catch c (fun _ => ret fallback) w = (Returns a, w').
Proof.
  unfold try_catch. destruct (c w) as [[a | e] w']; do 2 eexists; reflexivity.
Qed.

(** The cache check on [weatherCache] when it hits. *)
Lemma cachedData_weather_hit (w : World) (key : string)
    (entry : LRUCache.CacheEntry WeatherOrForecast) :
  freshEntry E w key entry ->
  cachedData E weatherCache_get key w
  = (Returns (Some (LRUCache.data entry)),
     with_clock (S (clock w))
       (with_weatherCache (snd (LRUCache.get CONFIG.CACHE.VERSION key (weatherCache w))) w)).
Proof.
  intros [Hget [Hversion Hvalid]].
  unfold cachedData, bind, weatherCache_get.
  rewrite (get_hit CONFIG.CACHE.VERSION key (weatherCache w) entry Hget Hversion).
  cbn [fresh bind now with_weatherCache clock ret fst snd].
  now rewrite Hvalid.
Qed.

(** The cache check on [weatherCache] in general: it throws nothing, what
    it leaves in the cache was there, and what it returns is the data of
    the entry under the key. *)
Lemma cachedData_weather (key : string) (w : World) :
  exists (cached : option WeatherOrForecast) (w1 : World),
    cachedData E weatherCache_get key w = (Returns cached, w1)
    /\ weatherCache w1 = snd (LRUCache.get CONFIG.CACHE.VERSION key (weatherCache w))
    /\ forall data : WeatherOrForecast,
        cached = Some data ->
        exists entry : LRUCache.CacheEntry WeatherOrForecast,
          LRUCache.Map_get key (LRUCache.cache (weatherCache w)) = Some entry
          /\ LRUCache.data entry = data.
Proof.
  unfold cachedData, bind, weatherCache_get.
  pose proof (get_Some CONFIG.CACHE.VERSION key (weatherCache w)) as Hsome.
  destruct (LRUCache.get CONFIG.CACHE.VERSION key (weatherCache w)) as [[entry |] c];
    cbn [fst snd] in *.
  - cbn [fresh bind now ret].
    do 2 eexists. split; [reflexivity | split; [reflexivity |]].
    intros data Hdata. exists entry. split; [now apply Hsome |].
    destruct (isCacheValid _ _); congruence.
  - do 2 eexists. split; [reflexivity | split; [reflexivity |]]. discriminate.
Qed.

(** The operations once the input, the key and the encoding are in order. *)
Lemma searchCities_ready (query s : string) (w : World) :
  blankOrShort H query = false ->
  keyConfigured E = true ->
  sanitized H query = Some s ->
  searchCities H E query w
  = bind (cachedData E cityCache_get s)
      (fun cached =>
         match cached with
         | Some data => ret data
         | None =>
             try_catch
               (data <- fetchApi H E (search_json E) (searchUrl E s)
                          "Failed to fetch city suggestions" ;;
                cityCache_set E s data ;;;
                ret data)
               (fun _ => ret [])
         end) w.
Proof.
  intros Hquery Hkey Hs. unfold searchCities, validateApiKey, sanitizeInput.
  now rewrite Hquery, Hkey, Hs.
Qed.

Lemma getWeatherData_ready (city s : string) (w : World) :
  truthy (trim H city) = true ->
  keyConfigured E = true ->
  sanitized H city = Some s ->
  getWeatherData H E city w
  = bind (cachedData E weatherCache_get ("weather_" ++ s))
      (fun cached =>
         match cached with
         | Some data => ret data
         | None =>
             data <- fetchApi H E (current_json E) (currentUrl E s)
                       "Failed to fetch weather data" ;;
             weatherCache_set E ("weather_" ++ s) (IsWeather (transformWeather data)) ;;;
             ret (IsWeather (transformWeather data))
         end) w.
Proof.
  intros Hcity Hkey Hs. unfold getWeatherData, validateApiKey, sanitizeInput.
  now rewrite Hcity, Hkey, Hs.
Qed.

Lemma getForecastData_ready (city s : string) (w : World) :
  truthy (trim H city) = true ->
  keyConfigured E = true ->
  sanitized H city = Some s ->
  getForecastData H E city w
  = bind (cachedData E weatherCache_get ("forecast_" ++ s))
      (fun cached =>
         match cached with
         | Some data => ret data
         | None =>
             data <- fetchApi H E (forecast_json E) (forecastUrl E s)
                       "Failed to fetch forecast data" ;;
             match transformForecast H data with
             | Throws e => throw e
             | Returns transformedData =>
                 weatherCache_set E ("forecast_" ++ s) (IsForecast transformedData) ;;;
                 ret (IsForecast transformedData)
             end
         end) w.
Proof.
  intros Hcity Hkey Hs. unfold getForecastData, validateApiKey, sanitizeInput.
  now rewrite Hcity, Hkey, Hs.
Qed.

(** *** What the weather cache holds *)

Lemma weatherEntries_get (live key : string) (c : LRUCache.t WeatherOrForecast) :
  weatherEntries c -> weatherEntries (snd (LRUCache.get live key c)).
Proof.
  intros Hinv k e Hget. apply Hinv. now apply Map_get_after_get in Hget.
Qed.

Lemma weatherEntries_set_weather (live : string) (now : Z) (key : string)
    (payload : WeatherApiResponse) (c : LRUCache.t WeatherOrForecast) :
  weatherEntries c ->
  weatherEntries (LRUCache.set live now key (IsWeather (transformWeather payload)) c).
Proof.
  intros Hinv k e Hget Hprefix.
  apply Map_get_after_set in Hget. destruct Hget as [[_ Hdata] | Hold].
  - now exists payload.
  - now apply (Hinv k).
Qed.

Lemma weatherEntries_set_forecast (live : string) (now : Z) (s : string)
    (value : WeatherOrForecast) (c : LRUCache.t WeatherOrForecast) :
  weatherEntries c -> weatherEntries (LRUCache.set live now ("forecast_" ++ s) value c).
Proof.
  intros Hinv k e Hget Hprefix.
  apply Map_get_after_set in Hget. destruct Hget as [[-> _] | Hold].
  - discriminate.
  - now apply (Hinv k).
Qed.

Lemma getWeatherData_entries (city : string) (w : World) :
  weatherEntries (weatherCache w) ->
  weatherEntries (weatherCache (snd (getWeatherData H E city w)))
  /\ forall result : WeatherOrForecast,
      fst (getWeatherData H E city w) = Returns result ->
      exists payload : WeatherApiResponse, result = IsWeather (transformWeather payload).
Proof.
  intros Hinv.
  destruct (truthy (trim H city)) eqn:Hcity;
    [| unfold getWeatherData; rewrite Hcity; split; [exact Hinv | discriminate]].
  destruct (keyConfigured E) eqn:Hkey;
    [| unfold getWeatherData, validateApiKey; rewrite Hcity, Hkey;
       split; [exact Hinv | discriminate]].
  destruct (sanitized H city) as [s |] eqn:Hs;
    [| unfold getWeatherData, validateApiKey, sanitizeInput; rewrite Hcity, Hkey, Hs;
       split; [exact Hinv | discriminate]].
  destruct (getWeatherData H E city w) as [r w'] eqn:Hrun. cbn [fst snd].
  rewrite (getWeatherData_ready city s w Hcity Hkey Hs) in Hrun.
  unfold bind at 1 in Hrun.
  destruct (cachedData_weather ("weather_" ++ s) w) as [cached [w1 [Hcached [Hcache Hdata]]]].
  rewrite Hcached in Hrun.
  assert (Hinv1 : weatherEntries (weatherCache w1)).
  { rewrite Hcache. now apply weatherEntries_get. }
  destruct cached as [data |].
  - injection Hrun as <- <-. split; [exact Hinv1 |].
    intros result [= <-].
    destruct (Hdata data eq_refl) as [entry [Hentry <-]].
    apply (Hinv ("weather_" ++ s) entry); [exact Hentry | reflexivity].
  - unfold bind at 1 in Hrun.
    pose proof (weatherCache_fetchApi H E (current_json E) (currentUrl E s)
                  "Failed to fetch weather data" w1) as Hframe.
    destruct (fetchApi H E (current_json E) (currentUrl E s)
                "Failed to fetch weather data" w1) as [[payload | e] w2];
      cbn [snd] in Hframe.
    + injection Hrun as <- <-. split.
      * cbn. rewrite Hframe. now apply weatherEntries_set_weather.
      * intros result [= <-]. now exists payload.
    + injection Hrun as <- <-. split; [now rewrite Hframe | discriminate].
Qed.

Lemma getForecastData_entries (city : string) (w : World) :
  weatherEntries (weatherCache w) ->
  weatherEntries (weatherCache (snd (getForecastData H E city w))).
Proof.
  intros Hinv.
  destruct (truthy (trim H city)) eqn:Hcity;
    [| unfold getForecastData; now rewrite Hcity].
  destruct (keyConfigured E) eqn:Hkey;
    [| unfold getForecastData, validateApiKey; now rewrite Hcity, Hkey].
  destruct (sanitized H city) as [s |] eqn:Hs;
    [| unfold getForecastData, validateApiKey, sanitizeInput; now rewrite Hcity, Hkey, Hs].
  rewrite (getForecastData_ready city s w Hcity Hkey Hs).
  unfold bind at 1.
  destruct (cachedData_weather ("forecast_" ++ s) w) as [cached [w1 [Hcached [Hcache _]]]].
  rewrite Hcached.
  assert (Hinv1 : weatherEntries (weatherCache w1)).
  { rewrite Hcache. now apply weatherEntries_get. }
  destruct cached as [data |]; [exact Hinv1 |].
  unfold bind at 1.
  pose proof (weatherCache_fetchApi H E (forecast_json E) (forecastUrl E s)
                "Failed to fetch forecast data" w1) as Hframe.
  destruct (fetchApi H E (forecast_json E) (forecastUrl E s)
              "Failed to fetch forecast data" w1) as [[payload | e] w2];
    cbn [snd] in Hframe; [| cbn [snd]; now rewrite Hframe].
  destruct (transformForecast H payload) as [transformedData | e].
  - cbn. rewrite Hframe. now apply weatherEntries_set_forecast.
  - cbn [throw snd]. now rewrite Hframe.
Qed.

Lemma weatherCache_searchCities (query : string) (w : World) :
  weatherCache (snd (searchCities H E query w)) = weatherCache w.
Proof.
  destruct (blankOrShort H query) eqn:Hquery;
    [unfold searchCities; now rewrite Hquery |].
  destruct (keyConfigured E) eqn:Hkey;
    [| unfold searchCities, validateApiKey; now rewrite Hquery, Hkey].
  destruct (sanitized H query) as [s |] eqn:Hs;
    [| unfold searchCities, validateApiKey, sanitizeInput; now rewrite Hquery, Hkey, Hs].
  rewrite (searchCities_ready query s w Hquery Hkey Hs).
  unfold bind at 1, cachedData, bind, cityCache_get.
  destruct (LRUCache.get CONFIG.CACHE.VERSION s (cityCache w)) as [entry c].
  assert (Hmiss : forall w1 : World,
             weatherCache w1 = weatherCache w ->
             weatherCache
               (snd (try_catch
                       (data <- fetchApi H E (search_json E) (searchUrl E s)
                                  "Failed to fetch city suggestions" ;;
                        cityCache_set E s data ;;;
                        ret data)
                       (fun _ => ret []) w1))
             = weatherCache w).
  { intros w1 Hw1. unfold try_catch, bind.
    pose proof (weatherCache_fetchApi H E (search_json E) (searchUrl E s)
                  "Failed to fetch city suggestions" w1) as Hframe.
    destruct (fetchApi H E (search_json E) (searchUrl E s)
                "Failed to fetch city suggestions" w1) as [[data | e] w2];
      cbn [snd] in Hframe; cbn; congruence. }
  destruct entry as [entry |]; cbn [fresh bind now ret].
  - destruct (isCacheValid _ _); [reflexivity |]. now apply Hmiss.
  - now apply Hmiss.
Qed.

(** Whatever the operations called, the entries of the weather cache under
    the keys of [getWeatherData] are transforms of payloads. *)
Lemma performAll_entries (ops : list Operation) :
  forall w : World,
    weatherEntries (weatherCache w) ->
    weatherEntries (weatherCache (performAll H E ops w)).
Proof.
  induction ops as [| op ops IH]; intros w Hinv; [exact Hinv |].
  cbn [performAll List.fold_left]. apply IH.
  destruct op as [query | city | city]; cbn [perform].
  - now rewrite weatherCache_searchCities.
  - now apply getWeatherData_entries.
  - now apply getForecastData_entries.
Qed.

End OperationFacts.

(** C2 as stated fails: with no key configured, a query that is neither
    blank nor too short makes [searchCities] throw the key-missing error. *)
Lemma searchCities_throws_without_key :
  searchCities Utc.host Run.unconfigured "London" Run.start
  = (Throws (Error "Weather API key is not configured"), Run.start).
Proof. reflexivity. Qed.

(** C2, amended. [searchCities] returns the empty list, and does nothing
    else, for a query that is blank or shorter than the minimum. For any
    other query: with no key configured it throws the key-missing error
    ([validateApiKey] is called before the [try] block); with a key, a query
    that [encodeURIComponent] rejects makes it throw that [URIError]; with a
    key and a query that sanitizes to [s] it never throws, and when the cache
    has no fresh entry and [fetchApi] throws, whatever the error (rate limit,
    network, provider), it returns the empty list. *)
Theorem searchCities_failures :
  forall (H : Host) (E : Env) (query : string) (w : World),
    (blankOrShort H query = true -> searchCities H E query w = (Returns [], w))
    /\ (blankOrShort H query = false ->
        keyConfigured E = false ->
        searchCities H E query w
        = (Throws (Error ERROR_MESSAGES.API_KEY_MISSING), w))
    /\ (blankOrShort H query = false ->
        keyConfigured E = true ->
        sanitized H query = None ->
        searchCities H E query w = (Throws (JsError "URIError" "URI malformed"), w))
    /\ (forall s : string,
           blankOrShort H query = false ->
           keyConfigured E = true ->
           sanitized H query = Some s ->
           (exists (cities : list CitySearchApiResponse) (w' : World),
               searchCities H E query w = (Returns cities, w'))
           /\ (forall (w1 w2 : World) (e : Thrown),
                  cachedData E cityCache_get s w = (Returns None, w1) ->
                  fetchApi H E (search_json E) (searchUrl E s)
                    "Failed to fetch city suggestions" w1 = (Throws e, w2) ->
                  searchCities H E query w = (Returns [], w2))).
Proof.
  intros H E query w. split; [| split; [| split]].
  - intros Hquery. unfold searchCities. now rewrite Hquery.
  - intros Hquery Hkey. unfold searchCities, validateApiKey. now rewrite Hquery, Hkey.
  - intros Hquery Hkey Hs. unfold searchCities, validateApiKey, sanitizeInput.
    now rewrite Hquery, Hkey, Hs.
  - intros s Hquery Hkey Hs.
    rewrite (searchCities_ready H E query s w Hquery Hkey Hs). split.
    + destruct (cachedData_returns E cityCache_get s w (cityCache_get_returns s))
        as [cached [w1 Hcached]].
      unfold bind at 1. rewrite Hcached.
      destruct cached as [data |]; [do 2 eexists; reflexivity | apply try_catch_returns].
    + intros w1 w2 e Hcached Hfetch.
      unfold bind at 1. rewrite Hcached.
      unfold try_catch, bind. now rewrite Hfetch.
Qed.

(** A blank query; a query with no key configured; a query the provider
    refuses. *)
Lemma searchCities_failures_witness :
  searchCities Utc.host refusing "   " Run.start = (Returns [], Run.start)
  /\ searchCities Utc.host Run.unconfigured "London" Run.start
     = (Throws (Error ERROR_MESSAGES.API_KEY_MISSING), Run.start)
  /\ fst (searchCities Utc.host refusing "London" Run.start) = Returns [].
Proof.
  split; [| split].
  - apply (proj1 (searchCities_failures Utc.host refusing "   " Run.start)).
    reflexivity.
  - apply (proj1 (proj2 (searchCities_failures Utc.host Run.unconfigured "London" Run.start)));
      reflexivity.
  - destruct (proj2 (proj2 (proj2 (searchCities_failures Utc.host refusing "London" Run.start)))
                "london" eq_refl eq_refl eq_refl) as [_ Hfails].
    erewrite Hfails; reflexivity.
Defined.

(** C10. Let the city be non-blank, the key configured and [s] the
    sanitized city. When [weatherCache] holds under ["weather_" ++ s] (for
    [getWeatherData]) or ["forecast_" ++ s] (for [getForecastData]) an entry
    of the live version whose time stamp is within [CONFIG.CACHE.DURATION]
    of the clock, the operation returns the data of that entry and makes no
    request: the usage counter and the rate limiter are the same after the
    call as before it. *)
Theorem cache_hit_makes_no_request :
  forall (H : Host) (E : Env) (city s : string) (w : World),
    truthy (trim H city) = true ->
    keyConfigured E = true ->
    sanitized H city = Some s ->
    (forall entry : LRUCache.CacheEntry WeatherOrForecast,
        freshEntry E w ("weather_" ++ s) entry ->
        servedWithoutRequest (getWeatherData H E city) w (LRUCache.data entry))
    /\ (forall entry : LRUCache.CacheEntry WeatherOrForecast,
           freshEntry E w ("forecast_" ++ s) entry ->
           servedWithoutRequest (getForecastData H E city) w (LRUCache.data entry)).
Proof.
  intros H E city s w Hcity Hkey Hs. split; intros entry Hfresh.
  - eexists. rewrite (getWeatherData_ready H E city s w Hcity Hkey Hs).
    unfold bind at 1. rewrite (cachedData_weather_hit E w _ entry Hfresh).
    split; [reflexivity | now cbn].
  - eexists. rewrite (getForecastData_ready H E city s w Hcity Hkey Hs).
    unfold bind at 1. rewrite (cachedData_weather_hit E w _ entry Hfresh).
    split; [reflexivity | now cbn].
Qed.

(** Both operations on the world [Run.warmed], whose cache they filled three
    and six seconds earlier. *)
Lemma cache_hit_makes_no_request_witness :
  servedWithoutRequest (getWeatherData Utc.host Run.online " PARIS ") Run.warmed
    (IsWeather (transformWeather Run.paris))
  /\ exists entry : LRUCache.CacheEntry WeatherOrForecast,
      LRUCache.Map_get "forecast_paris" (LRUCache.cache (weatherCache Run.warmed))
      = Some entry
      /\ servedWithoutRequest (getForecastData Utc.host Run.online " PARIS ") Run.warmed
           (LRUCache.data entry).
Proof.
  destruct (cache_hit_makes_no_request Utc.host Run.online " PARIS " "paris" Run.warmed
              eq_refl eq_refl eq_refl) as [Hweather Hforecast].
  split.
  - apply (Hweather {| LRUCache.data := IsWeather (transformWeather Run.paris);
                       LRUCache.timestamp := Run.t0 + 2000;
                       LRUCache.version := CONFIG.CACHE.VERSION |}).
    repeat split.
  - destruct (LRUCache.Map_get "forecast_paris" (LRUCache.cache (weatherCache Run.warmed)))
      as [entry |] eqn:Hentry; [| vm_compute in Hentry; discriminate].
    exists entry. split; [reflexivity |].
    apply Hforecast. split; [exact Hentry |].
    vm_compute in Hentry. injection Hentry as <-. split; reflexivity.
Defined.

(** C8. Whatever operations were called since the module was loaded, a
    result that [getWeatherData] returns is the transform of a provider
    payload: [temp], [feels_like], [temp_min] and [temp_max] are [Math.round]
    of the payload's Celsius values and the wind speed is [Math.round] of
    [wind_kph / 3.6]; on binary64 values [Math.round] is rounding to the
    nearest integer. With [temp_c] 18.6 and [wind_kph] 10.8 the
    result has [temp] 19 and wind speed 3. When the cache has no fresh entry
    the payload is the one [fetchApi] returned for the request. *)
Theorem getWeatherData_rounds :
  forall (H : Host) (E : Env) (ops : list Operation) (w0 : World) (city : string)
         (result : WeatherOrForecast),
    LRUCache.cache (weatherCache w0) = [] ->
    fst (getWeatherData H E city (performAll H E ops w0)) = Returns result ->
    (exists payload : WeatherApiResponse,
        result = IsWeather (transformWeather payload)
        /\ roundedFields payload (transformWeather payload)
        /\ (binary64 (cur_temp_c (current payload)) ->
            roundsToNearest (cur_temp_c (current payload))
              (temp (main (transformWeather payload))))
        /\ (binary64 (cur_feelslike_c (current payload)) ->
            roundsToNearest (cur_feelslike_c (current payload))
              (feels_like (main (transformWeather payload))))
        /\ (binary64 (div (cur_wind_kph (current payload)) (decimal 36 1)) ->
            roundsToNearest (div (cur_wind_kph (current payload)) (decimal 36 1))
              (speed (wind (transformWeather payload))))
        /\ (cur_temp_c (current payload) = decimal 186 1 ->
            cur_wind_kph (current payload) = decimal 108 1 ->
            temp (main (transformWeather payload)) = of_Z 19
            /\ speed (wind (transformWeather payload)) = of_Z 3))
    /\ (forall (s : string) (w1 w2 : World) (payload : WeatherApiResponse),
           truthy (trim H city) = true ->
           keyConfigured E = true ->
           sanitized H city = Some s ->
           cachedData E weatherCache_get ("weather_" ++ s) (performAll H E ops w0)
           = (Returns None, w1) ->
           fetchApi H E (current_json E) (currentUrl E s) "Failed to fetch weather data" w1
           = (Returns payload, w2) ->
           result = IsWeather (transformWeather payload)).
Proof.
  intros H E ops w0 city result Hempty Hresult. split.
  - assert (Hinv0 : weatherEntries (weatherCache w0)).
    { intros key entry Hget. rewrite Hempty in Hget. discriminate. }
    pose proof (performAll_entries H E ops w0 Hinv0) as Hinv.
    destruct (getWeatherData_entries H E city _ Hinv) as [_ Hpayload].
    destruct (Hpayload result Hresult) as [payload ->].
    exists payload. split; [reflexivity |].
    split; [repeat split |].
    split; [intros Hx; now apply Math_round_nearest |].
    split; [intros Hx; now apply Math_round_nearest |].
    split; [intros Hx; now apply Math_round_nearest |].
    intros Htemp Hwind. cbn [transformWeather main temp wind speed].
    rewrite Htemp, Hwind. split; reflexivity.
  - intros s w1 w2 payload Hcity Hkey Hs Hcached Hfetch.
    rewrite (getWeatherData_ready H E city s _ Hcity Hkey Hs) in Hresult.
    unfold bind at 1 in Hresult. rewrite Hcached in Hresult.
    unfold bind at 1 in Hresult. rewrite Hfetch in Hresult.
    cbn in Hresult. now injection Hresult as <-.
Qed.

(** The provider answers the request for Paris with [temp_c] 18.6 and
    [wind_kph] 10.8, after a search and a forecast request. *)
Lemma getWeatherData_rounds_witness :
  exists payload : WeatherApiResponse,
    IsWeather (transformWeather Run.paris) = IsWeather (transformWeather payload)
    /\ cur_temp_c (current Run.paris) = decimal 186 1
    /\ cur_wind_kph (current Run.paris) = decimal 108 1
    /\ temp (main (transformWeather payload)) = of_Z 19
    /\ speed (wind (transformWeather payload)) = of_Z 3.
Proof.
  destruct (getWeatherData_rounds Utc.host Run.online
              [SearchCities "London"; GetForecastData "Paris"] Run.start "Paris"
              (IsWeather (transformWeather Run.paris)) eq_refl eq_refl)
    as [[payload [Hresult _]] _].
  exists payload. split; [exact Hresult |].
  assert (Hsame : transformWeather Run.paris = transformWeather payload) by congruence.
  rewrite <- Hsame. repeat split.
Defined.

(** ** Further properties *)

(** X1. Starting from an empty cache of capacity [n >= 1], [set] on [n + 1]
    distinct keys (none the empty string) evicts exactly the first-inserted
    key: the cache then holds the other [n] keys in the order of their
    insertion. *)
Theorem overflow_evicts_first_inserted :
  forall (T : Type) (live : string) (entries : list (Z * string * T)) (n : nat)
         (last : Z * string * T),
    (1 <= n)%nat ->
    List.length entries = n ->
    NoDup (keysOf (entries ++ [last])) ->
    Forall (fun key => key <> "") (keysOf entries) ->
    LRUCache.Map_keys
      (LRUCache.cache (setAll live (entries ++ [last]) (LRUCache.new (Z.of_nat n))))
    = List.tl (keysOf (entries ++ [last])).
Proof.
  intros T live entries n [[now key] value] Hn Hlen Hnd Hkeys.
  unfold setAll. rewrite List.fold_left_app. fold (setAll live entries (LRUCache.new (Z.of_nat n))).
  cbn [List.fold_left].
  unfold keysOf in Hnd. rewrite List.map_app in Hnd. fold (keysOf entries) in Hnd.
  cbn [List.map fst snd] in Hnd.
  assert (Hfilled : LRUCache.Map_keys
                      (LRUCache.cache (setAll live entries (LRUCache.new (Z.of_nat n))))
                    = keysOf entries).
  { apply (setAll_below_capacity live entries (LRUCache.new (Z.of_nat n))).
    - cbn. now apply NoDup_app_remove_r in Hnd.
    - cbn. lia. }
  set (c := setAll live entries (LRUCache.new (Z.of_nat n))) in *.
  destruct (LRUCache.cache c) as [| [k0 e0] rest] eqn:Hc.
  - destruct entries; [cbn in Hlen; lia | discriminate].
  - assert (Hk : LRUCache.Map_keys (LRUCache.cache c) = keysOf entries)
      by (rewrite Hc; exact Hfilled).
    rewrite (set_at_capacity live now key value c k0 e0 rest Hc).
    + assert (Hnew : ~ In key (LRUCache.Map_keys rest)).
      { apply NoDup_remove_2 in Hnd. rewrite List.app_nil_r in Hnd.
        rewrite <- Hk, Hc in Hnd. cbn in Hnd. tauto. }
      rewrite (Map_set_absent key _ rest Hnew).
      unfold LRUCache.Map_keys. rewrite List.map_app. cbn [List.map fst].
      unfold keysOf. rewrite List.map_app. fold (keysOf entries). rewrite <- Hk, Hc.
      reflexivity.
    + rewrite Hk. now apply NoDup_app_remove_r in Hnd.
    + unfold c. rewrite maxSize_setAll. cbn [LRUCache.new LRUCache.maxSize].
      unfold LRUCache.Map_size.
      assert (Hl : List.length (LRUCache.Map_keys (LRUCache.cache (setAll live entries (LRUCache.new (Z.of_nat n))))) = n).
      { fold c. rewrite Hk. unfold keysOf. now rewrite List.length_map. }
      unfold LRUCache.Map_keys in Hl. rewrite List.length_map in Hl. lia.
    + rewrite <- Hk, Hc in Hkeys. now inversion Hkeys.
Qed.

(** Capacity two and the keys ["a"], ["b"], ["c"]. *)
Lemma overflow_evicts_first_inserted_witness :
  LRUCache.Map_keys
    (LRUCache.cache
       (setAll "1.0.0" ([(1, "a", 10); (2, "b", 20)] ++ [(3, "c", 30)]) (LRUCache.new 2)))
  = ["b"; "c"].
Proof.
  apply (overflow_evicts_first_inserted Z "1.0.0" [(1, "a", 10); (2, "b", 20)] 2 (3, "c", 30)).
  - lia.
  - reflexivity.
  - repeat constructor; cbn; intuition discriminate.
  - repeat constructor; discriminate.
Defined.

(** X2. [getWeatherData] and [getForecastData] on a blank city throw the
    empty-city error at once: the world is unchanged, so no request was
    made. *)
Theorem blank_city_is_rejected_before_any_request :
  forall (H : Host) (E : Env) (city : string) (w : World),
    trim H city = "" ->
    getWeatherData H E city w = (Throws (Error ERROR_MESSAGES.EMPTY_CITY), w)
    /\ getForecastData H E city w = (Throws (Error ERROR_MESSAGES.EMPTY_CITY), w).
Proof.
  intros H E city w Hblank. unfold getWeatherData, getForecastData.
  rewrite Hblank. split; reflexivity.
Qed.

Lemma blank_city_is_rejected_before_any_request_witness :
  getWeatherData Utc.host Run.online "" Run.start
  = (Throws (Error "Please enter a city name"), Run.start)
  /\ getForecastData Utc.host Run.online "" Run.start
     = (Throws (Error "Please enter a city name"), Run.start).
Proof.
  apply (blank_city_is_rejected_before_any_request Utc.host Run.online "" Run.start).
  reflexivity.
Defined.

(** X3. When the forecast the provider returns lacks
    [forecast.forecastday[0].hour], [getForecastData] throws the
    invalid-forecast error and stores nothing. *)
Theorem forecast_without_hours_is_invalid :
  forall (H : Host) (E : Env) (city s : string) (w w1 w2 : World)
         (payload : ForecastApiResponse),
    truthy (trim H city) = true ->
    keyConfigured E = true ->
    sanitized H city = Some s ->
    cachedData E weatherCache_get ("forecast_" ++ s) w = (Returns None, w1) ->
    fetchApi H E (forecast_json E) (forecastUrl E s) "Failed to fetch forecast data" w1
    = (Returns payload, w2) ->
    forecastDays payload = None ->
    getForecastData H E city w
    = (Throws (Error "Invalid forecast data received from API"), w2).
Proof.
  intros H E city s w w1 w2 payload Hcity Hkey Hs Hcached Hfetch Hdays.
  rewrite (getForecastData_ready H E city s w Hcity Hkey Hs).
  unfold bind at 1. rewrite Hcached.
  unfold bind at 1. rewrite Hfetch.
  unfold transformForecast. now rewrite Hdays.
Qed.

Lemma forecast_without_hours_is_invalid_witness :
  fst (getForecastData Utc.host incomplete "Paris" Run.start)
  = Throws (Error "Invalid forecast data received from API")
  /\ LRUCache.cache (weatherCache (snd (getForecastData Utc.host incomplete "Paris" Run.start)))
     = [].
Proof.
  erewrite (forecast_without_hours_is_invalid Utc.host incomplete "Paris" "paris" Run.start);
    try reflexivity.
  split; reflexivity.
Defined.

(** X4. When the cache has no fresh entry and the provider answers,
    [searchCities] returns the provider's matches and stores them in
    [cityCache] under the sanitized query, stamped with the clock. *)
Theorem searchCities_caches_under_sanitized_query :
  forall (H : Host) (E : Env) (query s : string) (w w1 w2 : World)
         (data : list CitySearchApiResponse),
    blankOrShort H query = false ->
    keyConfigured E = true ->
    sanitized H query = Some s ->
    cachedData E cityCache_get s w = (Returns None, w1) ->
    fetchApi H E (search_json E) (searchUrl E s) "Failed to fetch city suggestions" w1
    = (Returns data, w2) ->
    fst (searchCities H E query w) = Returns data
    /\ LRUCache.Map_get s (LRUCache.cache (cityCache (snd (searchCities H E query w))))
       = Some {| LRUCache.data := data;
                 LRUCache.timestamp := Date_now E (clock w2);
                 LRUCache.version := CONFIG.CACHE.VERSION |}.
Proof.
  intros H E query s w w1 w2 data Hquery Hkey Hs Hcached Hfetch.
  destruct (searchCities H E query w) as [r w'] eqn:Hrun.
  rewrite (searchCities_ready H E query s w Hquery Hkey Hs) in Hrun.
  unfold bind at 1 in Hrun. rewrite Hcached in Hrun.
  unfold try_catch, bind in Hrun. rewrite Hfetch in Hrun.
  cbn in Hrun. injection Hrun as <- <-.
  split; [reflexivity |].
  cbn [snd cityCache LRUCache.cache]. apply Map_get_set_same.
Qed.

(** The query ["Lon"] with two matches: cached under ["lon"]. *)
Lemma searchCities_caches_under_sanitized_query_witness :
  fst (searchCities Utc.host twoMatches "Lon" Run.start) = Returns lonMatches
  /\ LRUCache.Map_get "lon"
       (LRUCache.cache (cityCache (snd (searchCities Utc.host twoMatches "Lon" Run.start))))
     = Some {| LRUCache.data := lonMatches;
               LRUCache.timestamp := Run.t0 + 2000;
               LRUCache.version := "1.0.0" |}.
Proof.
  apply (searchCities_caches_under_sanitized_query Utc.host twoMatches "Lon" "lon"
           Run.start Run.start
           (snd (fetchApi Utc.host twoMatches (search_json twoMatches) (searchUrl twoMatches "lon")
                   "Failed to fetch city suggestions" Run.start)));
    reflexivity.
Defined.

(* ================================================================= *)
(** ** The caches: capacity *)

Section CapacityFacts.
Import LRUCache.
Context {T : Type}.
Implicit Types (m : Map T) (c : t T) (e : CacheEntry T) (k key : string).

Lemma Map_size_set key e m :
  Map_size (Map_set key e m)
  = if In_dec string_dec key (Map_keys m) then Map_size m else Map_size m + 1.
Proof.
  unfold Map_size. induction m as [| [k' e'] m IH]; cbn [Map_set List.length Map_keys List.map fst].
  - destruct (in_dec string_dec key []) as [[] | _]. cbn. lia.
  - destruct (String.eqb_spec k' key) as [-> | Hne].
    + destruct (in_dec string_dec key (key :: List.map fst m)) as [_ | Hout];
        [reflexivity | exfalso; apply Hout; now left].
    + cbn [List.length]. rewrite !Nat2Z.inj_succ, IH.
      fold (Map_keys m).
      destruct (in_dec string_dec key (Map_keys m)) as [Hin | Hout];
        destruct (in_dec string_dec key (k' :: Map_keys m)) as [Hin' | Hout'];
        try lia.
      * exfalso. apply Hout'. now right.
      * exfalso. destruct Hin' as [Heq | Hin']; [congruence | tauto].
Qed.

Lemma Map_size_delete_le key m : Map_size (Map_delete key m) <= Map_size m.
Proof.
  unfold Map_size. induction m as [| [k' e'] m IH]; cbn [Map_delete List.length]; [lia |].
  destruct (String.eqb k' key); cbn [List.length]; lia.
Qed.

Lemma Map_keys_delete_Forall (P : string -> Prop) key m :
  Forall P (Map_keys m) -> Forall P (Map_keys (Map_delete key m)).
Proof.
  intros Hall. apply Forall_forall. intros k Hin.
  apply Map_keys_delete_incl in Hin. rewrite Forall_forall in Hall. now apply Hall.
Qed.

Lemma Map_keys_set_Forall (P : string -> Prop) key e m :
  P key -> Forall P (Map_keys m) -> Forall P (Map_keys (Map_set key e m)).
Proof.
  intros Hkey Hall. apply Forall_forall. intros k Hin.
  apply Map_keys_set in Hin. rewrite Forall_forall in Hall.
  destruct Hin as [-> | Hin]; auto.
Qed.

Lemma set_withinCapacity live now key (value : T) c :
  1 <= maxSize c -> key <> "" -> withinCapacity c ->
  withinCapacity (set live now key value c).
Proof.
  intros Hcap Hkey [Hnd [Hkeys Hsize]].
  split; [now apply set_NoDup | split].
  - unfold set. cbn [cache]. apply Map_keys_set_Forall; [exact Hkey |].
    destruct (maxSize c <=? Map_size (cache c)); [| exact Hkeys].
    destruct (cache c) as [| [k0 e0] rest]; cbn [Map_keys List.map fst]; [exact Hkeys |].
    destruct (truthy k0); [| exact Hkeys].
    now apply (Map_keys_delete_Forall _ k0 ((k0, e0) :: rest)).
  - cbn [maxSize set].
    destruct (Z.leb_spec (maxSize c) (Map_size (cache c))) as [Hfull | Hroom].
    + case_eq (cache c).
      { intros Hc. rewrite Hc in Hfull. unfold Map_size in Hfull. cbn in Hfull. lia. }
      intros [k0 e0] rest Hc.
      assert (Hk0 : k0 <> "") by (rewrite Hc in Hkeys; now inversion Hkeys).
      rewrite (set_at_capacity live now key value c k0 e0 rest Hc Hnd Hfull Hk0).
      rewrite Map_size_set. rewrite Hc in Hsize. unfold Map_size in *.
      cbn [List.length] in *.
      destruct (in_dec string_dec key (Map_keys rest)); lia.
    + unfold set. cbn [cache].
      destruct (Z.leb_spec (maxSize c) (Map_size (cache c))) as [Hfull | _]; [lia |].
      rewrite Map_size_set. destruct (in_dec string_dec key (Map_keys (cache c))); lia.
Qed.

Lemma get_withinCapacity live key c :
  withinCapacity c -> withinCapacity (snd (get live key c)).
Proof.
  intros [Hnd [Hkeys Hsize]].
  split; [now apply get_NoDup | split].
  - unfold get. destruct (Map_get key (cache c)) as [entry |] eqn:Hget; [| exact Hkeys].
    assert (Hkey : key <> "").
    { rewrite Forall_forall in Hkeys. apply Hkeys.
      destruct (in_dec string_dec key (Map_keys (cache c))) as [Hin | Hout]; [exact Hin |].
      apply Map_get_None_not_key in Hout. congruence. }
    destruct (negb (String.eqb (version entry) live)); cbn [snd cache].
    + now apply Map_keys_delete_Forall.
    + apply Map_keys_set_Forall; [exact Hkey | now apply Map_keys_delete_Forall].
  - unfold get. destruct (Map_get key (cache c)) as [entry |] eqn:Hget; [| exact Hsize].
    destruct (negb (String.eqb (version entry) live)); cbn [snd cache maxSize].
    + pose proof (Map_size_delete_le key (cache c)). lia.
    + rewrite Map_set_absent by (apply Map_get_None_not_key, Map_get_delete_same).
      unfold Map_size. rewrite List.length_app. cbn [List.length].
      assert (Hlt : Map_size (Map_delete key (cache c)) < Map_size (cache c)).
      { clear - Hget. unfold Map_size.
        induction (cache c) as [| [k' e'] m IH]; cbn in *; [discriminate |].
        destruct (String.eqb k' key).
        - pose proof (Map_size_delete_le key m) as Hle. unfold Map_size in Hle. lia.
        - cbn [List.length]. specialize (IH Hget). lia. }
      unfold Map_size in *. lia.
Qed.

Lemma maxSize_get live key c : maxSize (snd (get live key c)) = maxSize c.
Proof.
  unfold get. destruct (Map_get key (cache c)) as [entry |]; [| reflexivity].
  destruct (negb (String.eqb (version entry) live)); reflexivity.
Qed.

End CapacityFacts.

(** A sequence of calls keeps the capacity and stays within it. *)
Lemma cacheCalls_withinCapacity {T : Type} (live : string) (calls : list (CacheCall T)) :
  Forall (fun call => storesUnder call <> Some "") calls ->
  forall c : LRUCache.t T,
    1 <= LRUCache.maxSize c ->
    withinCapacity c ->
    LRUCache.maxSize (cacheCalls live calls c) = LRUCache.maxSize c
    /\ withinCapacity (cacheCalls live calls c).
Proof.
  induction 1 as [| call calls Hcall Hcalls IH]; intros c Hcap Hin; [now split |].
  cbn [cacheCalls List.fold_left].
  assert (Hstep : LRUCache.maxSize (cacheCall live c call) = LRUCache.maxSize c
                  /\ withinCapacity (cacheCall live c call)).
  { destruct call as [now key value | key]; cbn [cacheCall].
    - split; [reflexivity |].
      apply set_withinCapacity; [exact Hcap | | exact Hin].
      cbn in Hcall. congruence.
    - split; [apply maxSize_get | now apply get_withinCapacity]. }
  destruct Hstep as [Hmax Hstep].
  destruct (IH (cacheCall live c call)) as [Hmax' Hin']; [lia | exact Hstep |].
  split; [unfold cacheCalls in Hmax'; lia | exact Hin'].
Qed.

(** X5. A cache created with a capacity of at least one never holds more
    entries than its capacity, whatever calls of [set] and [get] are made on
    it, as long as no [set] has the empty string for key. *)
Theorem cache_never_exceeds_capacity :
  forall (T : Type) (live : string) (maxSize : Z) (calls : list (CacheCall T)),
    1 <= maxSize ->
    Forall (fun call => storesUnder call <> Some "") calls ->
    LRUCache.Map_size (LRUCache.cache (cacheCalls live calls (LRUCache.new maxSize)))
    <= maxSize.
Proof.
  intros T live maxSize calls Hcap Hcalls.
  destruct (cacheCalls_withinCapacity live calls Hcalls (LRUCache.new maxSize))
    as [Hmax [_ [_ Hsize]]].
  - exact Hcap.
  - split; [constructor | split; [constructor |]]. cbn. lia.
  - now rewrite Hmax in Hsize.
Qed.

(** Capacity two; three keys are set, the first being read in between. *)
Lemma cache_never_exceeds_capacity_witness :
  LRUCache.Map_size
    (LRUCache.cache
       (cacheCalls "1.0.0"
          [CallSet 1 "a" 10; CallSet 2 "b" 20; CallGet "a"; CallSet 3 "c" 30]
          (LRUCache.new 2)))
  <= 2.
Proof.
  apply (cache_never_exceeds_capacity Z "1.0.0" 2
           [CallSet 1 "a" 10; CallSet 2 "b" 20; CallGet "a"; CallSet 3 "c" 30]).
  - lia.
  - repeat constructor; discriminate.
Defined.

(** X6. When the first key of a full cache is the empty string, [set] of a
    new key evicts nothing, as [if (firstKey)] takes the empty string for no
    key: the entry is appended, and the cache then holds more entries than
    its capacity. *)
Theorem empty_key_is_never_evicted :
  forall (T : Type) (live : string) (now : Z) (key : string) (value : T)
         (c : LRUCache.t T) (e0 : LRUCache.CacheEntry T) (rest : LRUCache.Map T),
    LRUCache.cache c = ("", e0) :: rest ->
    LRUCache.maxSize c <= LRUCache.Map_size (LRUCache.cache c) ->
    ~ In key (LRUCache.Map_keys (LRUCache.cache c)) ->
    LRUCache.cache (LRUCache.set live now key value c)
    = (LRUCache.cache c
       ++ [(key, {| LRUCache.data := value; LRUCache.timestamp := now;
                    LRUCache.version := live |})])%list
    /\ LRUCache.maxSize c
       < LRUCache.Map_size (LRUCache.cache (LRUCache.set live now key value c)).
Proof.
  intros T live now key value c e0 rest Hc Hfull Hnew.
  assert (Hset : LRUCache.cache (LRUCache.set live now key value c)
                 = (LRUCache.cache c
                    ++ [(key, {| LRUCache.data := value; LRUCache.timestamp := now;
                                 LRUCache.version := live |})])%list).
  { unfold LRUCache.set. cbn [LRUCache.cache].
    destruct (Z.leb_spec (LRUCache.maxSize c) (LRUCache.Map_size (LRUCache.cache c)))
      as [_ | Hlt]; [| lia].
    rewrite Hc in *. cbn [LRUCache.Map_keys List.map fst truthy String.eqb negb].
    now apply Map_set_absent. }
  split; [exact Hset |].
  rewrite Hset. unfold LRUCache.Map_size in *. rewrite List.length_app. cbn [List.length]. lia.
Qed.

(** A cache of capacity one that holds the empty key, and [set "a"]. *)
Lemma empty_key_is_never_evicted_witness :
  LRUCache.cache (LRUCache.set "1.0.0" 2 "a" 20 unnamed)
  = (LRUCache.cache unnamed
     ++ [("a", {| LRUCache.data := 20; LRUCache.timestamp := 2;
                  LRUCache.version := "1.0.0" |})])%list
  /\ LRUCache.maxSize unnamed
     < LRUCache.Map_size (LRUCache.cache (LRUCache.set "1.0.0" 2 "a" 20 unnamed)).
Proof.
  apply (empty_key_is_never_evicted Z "1.0.0" 2 "a" 20 unnamed
           {| LRUCache.data := 10; LRUCache.timestamp := 1; LRUCache.version := "1.0.0" |}
           []).
  - reflexivity.
  - vm_compute. discriminate.
  - intros [Heq | []]. discriminate Heq.
Defined.

(* ================================================================= *)
(** ** What the operations keep in [weatherCache] *)

Section LookupFacts.

Variable H : Host.
Variable E : Env.

(** A lookup that throws before the cache check leaves the world as it
    is. *)
Lemma lookup_not_ready (kind : Lookup) (city : string) (w : World) :
  truthy (trim H city) = false \/ keyConfigured E = false \/ sanitized H city = None ->
  exists e : Thrown, lookup H E kind city w = (Throws e, w).
Proof.
  intros Hnot.
  destruct kind; cbn [lookup]; unfold getWeatherData, getForecastData.
  all: destruct (truthy (trim H city)); cbn [negb]; [| eexists; reflexivity].
  all: unfold validateApiKey; destruct (keyConfigured E); cbn [negb];
    [| eexists; reflexivity].
  all: unfold sanitizeInput; destruct (sanitized H city);
    [| eexists; reflexivity].
  all: exfalso; destruct Hnot as [Hn | [Hn | Hn]]; discriminate.
Qed.

(** What is stored in [weatherCache]: the operations only call its [get],
    and its [set] with what [storedBy] describes. *)
Lemma weatherCache_lookup (P : LRUCache.t WeatherOrForecast -> Prop)
    (kind : Lookup) (city : string) (w : World) :
  (forall (key : string) (c : LRUCache.t WeatherOrForecast),
      P c -> P (snd (LRUCache.get CONFIG.CACHE.VERSION key c))) ->
  (forall (now : Z) (key : string) (value : WeatherOrForecast)
          (c : LRUCache.t WeatherOrForecast),
      storedBy H key value -> P c -> P (LRUCache.set CONFIG.CACHE.VERSION now key value c)) ->
  P (weatherCache w) -> P (weatherCache (snd (lookup H E kind city w))).
Proof.
  intros Hget Hset Hinv.
  destruct (truthy (trim H city)) eqn:Hcity;
    [| destruct (lookup_not_ready kind city w) as [e ->]; auto].
  destruct (keyConfigured E) eqn:Hkey;
    [| destruct (lookup_not_ready kind city w) as [e ->]; auto].
  destruct (sanitized H city) as [s |] eqn:Hs;
    [| destruct (lookup_not_ready kind city w) as [e ->]; auto].
  destruct kind; cbn [lookup].
  - rewrite (getWeatherData_ready H E city s w Hcity Hkey Hs).
    unfold bind at 1.
    destruct (cachedData_weather E ("weather_" ++ s) w) as [cached [w1 [-> [Hcache _]]]].
    assert (Hinv1 : P (weatherCache w1)) by (rewrite Hcache; now apply Hget).
    destruct cached as [data |]; [exact Hinv1 |].
    unfold bind at 1.
    pose proof (weatherCache_fetchApi H E (current_json E) (currentUrl E s)
                  "Failed to fetch weather data" w1) as Hframe.
    destruct (fetchApi H E (current_json E) (currentUrl E s)
                "Failed to fetch weather data" w1) as [[payload | e] w2];
      cbn [snd] in Hframe; [| cbn [snd]; now rewrite Hframe].
    cbn. rewrite Hframe. apply Hset; [| exact Hinv1].
    left. now exists s, payload.
  - rewrite (getForecastData_ready H E city s w Hcity Hkey Hs).
    unfold bind at 1.
    destruct (cachedData_weather E ("forecast_" ++ s) w) as [cached [w1 [-> [Hcache _]]]].
    assert (Hinv1 : P (weatherCache w1)) by (rewrite Hcache; now apply Hget).
    destruct cached as [data |]; [exact Hinv1 |].
    unfold bind at 1.
    pose proof (weatherCache_fetchApi H E (forecast_json E) (forecastUrl E s)
                  "Failed to fetch forecast data" w1) as Hframe.
    destruct (fetchApi H E (forecast_json E) (forecastUrl E s)
                "Failed to fetch forecast data" w1) as [[payload | e] w2];
      cbn [snd] in Hframe; [| cbn [snd]; now rewrite Hframe].
    destruct (transformForecast H payload) as [d | e] eqn:Hd.
    + cbn. rewrite Hframe. apply Hset; [| exact Hinv1].
      right. now exists s, payload, d.
    + cbn [throw snd]. now rewrite Hframe.
Qed.

Lemma weatherCache_performAll (P : LRUCache.t WeatherOrForecast -> Prop)
    (ops : list Operation) :
  (forall (key : string) (c : LRUCache.t WeatherOrForecast),
      P c -> P (snd (LRUCache.get CONFIG.CACHE.VERSION key c))) ->
  (forall (now : Z) (key : string) (value : WeatherOrForecast)
          (c : LRUCache.t WeatherOrForecast),
      storedBy H key value -> P c -> P (LRUCache.set CONFIG.CACHE.VERSION now key value c)) ->
  forall w : World, P (weatherCache w) -> P (weatherCache (performAll H E ops w)).
Proof.
  intros Hget Hset. induction ops as [| op ops IH]; intros w Hinv; [exact Hinv |].
  cbn [performAll List.fold_left]. apply IH.
  destruct op as [query | city | city]; cbn [perform].
  - now rewrite weatherCache_searchCities.
  - now apply (weatherCache_lookup P CurrentWeather).
  - now apply (weatherCache_lookup P Forecast).
Qed.

Lemma storedBy_key (key : string) (value : WeatherOrForecast) :
  storedBy H key value -> key <> "".
Proof.
  intros [[s [payload [-> _]]] | [s [payload [d [-> _]]]]]; discriminate.
Qed.

Lemma forecastEntries_get (live key : string) (c : LRUCache.t WeatherOrForecast) :
  forecastEntries H c -> forecastEntries H (snd (LRUCache.get live key c)).
Proof.
  intros Hinv k e Hget. apply Hinv. now apply Map_get_after_get in Hget.
Qed.

Lemma forecastEntries_set (live : string) (now : Z) (key : string)
    (value : WeatherOrForecast) (c : LRUCache.t WeatherOrForecast) :
  storedBy H key value ->
  forecastEntries H c -> forecastEntries H (LRUCache.set live now key value c).
Proof.
  intros Hstored Hinv k e Hget Hprefix.
  apply Map_get_after_set in Hget. destruct Hget as [[-> Hdata] | Hold].
  - destruct Hstored as [[s [payload [-> _]]] | [s [payload [d [_ [Hd ->]]]]]];
      [discriminate |].
    now exists payload, d.
  - now apply (Hinv k).
Qed.

(** A forecast that [transformForecast] returns has a first day. *)
Lemma transformForecast_first_day (payload : ForecastApiResponse) (d : ForecastData) :
  transformForecast H payload = Returns d -> forecastday (forecast d) <> [].
Proof.
  unfold transformForecast.
  destruct (forecastDays payload) as [days |] eqn:Hdays; [| discriminate].
  destruct (dayEntries days) as [entries | e] eqn:Hentries; [| discriminate].
  intros [= <-]. cbn [forecast forecastday].
  unfold forecastDays in Hdays.
  destruct (f_forecast payload) as [f |]; [| discriminate].
  destruct (api_forecastday f) as [[| d0 rest] |]; try discriminate.
  destruct (api_hour d0) eqn:Hhour; [| discriminate].
  injection Hdays as <-. cbn [dayEntries] in Hentries.
  unfold dayEntry in Hentries. rewrite Hhour in Hentries.
  destruct (dayEntries rest); [| discriminate].
  injection Hentries as <-. discriminate.
Qed.

Lemma getForecastData_result (city : string) (w : World) (result : WeatherOrForecast) :
  forecastEntries H (weatherCache w) ->
  fst (getForecastData H E city w) = Returns result ->
  exists (payload : ForecastApiResponse) (d : ForecastData),
    transformForecast H payload = Returns d /\ result = IsForecast d.
Proof.
  intros Hinv.
  destruct (truthy (trim H city)) eqn:Hcity;
    [| destruct (lookup_not_ready Forecast city w) as [e He]; auto;
       cbn [lookup] in He; now rewrite He].
  destruct (keyConfigured E) eqn:Hkey;
    [| destruct (lookup_not_ready Forecast city w) as [e He]; auto;
       cbn [lookup] in He; now rewrite He].
  destruct (sanitized H city) as [s |] eqn:Hs;
    [| destruct (lookup_not_ready Forecast city w) as [e He]; auto;
       cbn [lookup] in He; now rewrite He].
  rewrite (getForecastData_ready H E city s w Hcity Hkey Hs).
  unfold bind at 1.
  destruct (cachedData_weather E ("forecast_" ++ s) w) as [cached [w1 [-> [_ Hdata]]]].
  destruct cached as [data |].
  - cbn [ret fst]. intros [= <-].
    destruct (Hdata data eq_refl) as [entry [Hentry <-]].
    apply (Hinv ("forecast_" ++ s) entry); [exact Hentry | reflexivity].
  - unfold bind at 1.
    destruct (fetchApi H E (forecast_json E) (forecastUrl E s)
                "Failed to fetch forecast data" w1) as [[payload | e] w2];
      [| discriminate].
    destruct (transformForecast H payload) as [d | e] eqn:Hd; [| discriminate].
    cbn. intros [= <-]. now exists payload, d.
Qed.

End LookupFacts.

(** X7. Whatever operations are called, [weatherCache] never holds more than
    [CONFIG.CACHE.MAX_SIZE] entries: every key the operations store under
    starts with ["weather_"] or ["forecast_"], so none is empty. *)
Theorem weatherCache_stays_within_capacity :
  forall (H : Host) (E : Env) (ops : list Operation) (w : World),
    LRUCache.maxSize (weatherCache w) = CONFIG.CACHE.MAX_SIZE ->
    withinCapacity (weatherCache w) ->
    LRUCache.Map_size (LRUCache.cache (weatherCache (performAll H E ops w)))
    <= CONFIG.CACHE.MAX_SIZE.
Proof.
  intros H E ops w Hmax Hwithin.
  assert (Hinv : LRUCache.maxSize (weatherCache (performAll H E ops w))
                 = CONFIG.CACHE.MAX_SIZE
                 /\ withinCapacity (weatherCache (performAll H E ops w))).
  { apply (weatherCache_performAll H E
             (fun c => LRUCache.maxSize c = CONFIG.CACHE.MAX_SIZE /\ withinCapacity c)).
    - intros key c [Hm Hc]. split; [now rewrite maxSize_get | now apply get_withinCapacity].
    - intros now key value c Hstored [Hm Hc]. split; [exact Hm |].
      apply set_withinCapacity; [rewrite Hm; discriminate | | exact Hc].
      now apply (storedBy_key H key value).
    - now split. }
  destruct Hinv as [Hmax' [_ [_ Hsize]]]. now rewrite Hmax' in Hsize.
Qed.

Lemma weatherCache_stays_within_capacity_witness :
  LRUCache.Map_size
    (LRUCache.cache
       (weatherCache
          (performAll Utc.host Run.online
             [GetWeatherData "Paris"; SearchCities "Lon"; GetForecastData "Paris"]
             Run.start)))
  <= CONFIG.CACHE.MAX_SIZE.
Proof.
  apply (weatherCache_stays_within_capacity Utc.host Run.online
           [GetWeatherData "Paris"; SearchCities "Lon"; GetForecastData "Paris"] Run.start).
  - reflexivity.
  - split; [constructor | split; [constructor |]]. vm_compute. discriminate.
Defined.

(** X8. Whatever operations were called since the module was loaded, a
    result that [getForecastData] returns is a forecast, never a snapshot of
    [getWeatherData] from the cache the two share: it is the transform of a
    payload that passed the check of [forecastday[0].hour], so it has a
    first day. *)
Theorem getForecastData_returns_a_forecast :
  forall (H : Host) (E : Env) (ops : list Operation) (w0 : World) (city : string)
         (result : WeatherOrForecast),
    LRUCache.cache (weatherCache w0) = [] ->
    fst (getForecastData H E city (performAll H E ops w0)) = Returns result ->
    exists (payload : ForecastApiResponse) (d : ForecastData),
      transformForecast H payload = Returns d
      /\ result = IsForecast d
      /\ forecastday (forecast d) <> [].
Proof.
  intros H E ops w0 city result Hempty Hresult.
  assert (Hinv : forecastEntries H (weatherCache (performAll H E ops w0))).
  { apply (weatherCache_performAll H E (forecastEntries H)).
    - intros key c. apply forecastEntries_get.
    - intros now key value c. apply forecastEntries_set.
    - intros key entry Hget. rewrite Hempty in Hget. discriminate. }
  destruct (getForecastData_result H E city _ result Hinv Hresult) as [payload [d [Hd ->]]].
  exists payload, d. split; [exact Hd | split; [reflexivity |]].
  now apply (transformForecast_first_day H payload).
Qed.

Lemma getForecastData_returns_a_forecast_witness :
  exists (result : WeatherOrForecast) (payload : ForecastApiResponse) (d : ForecastData),
    fst (getForecastData Utc.host Run.online "Paris"
           (performAll Utc.host Run.online [GetWeatherData "Paris"] Run.start))
    = Returns result
    /\ transformForecast Utc.host payload = Returns d
    /\ result = IsForecast d
    /\ forecastday (forecast d) <> [].
Proof.
  destruct (fst (getForecastData Utc.host Run.online "Paris"
                   (performAll Utc.host Run.online [GetWeatherData "Paris"] Run.start)))
    as [result | e] eqn:Hrun; [| vm_compute in Hrun; discriminate Hrun].
  destruct (getForecastData_returns_a_forecast Utc.host Run.online
              [GetWeatherData "Paris"] Run.start "Paris" result eq_refl Hrun)
    as [payload [d Hd]].
  exists result, payload, d. split; [reflexivity | exact Hd].
Defined.

(* ================================================================= *)
(** ** [fetchApi]: bounds *)

Section MoreFetchFacts.

Variable H : Host.
Variable E : Env.

Context {T : Type}.
Variable endpoint : string -> nat -> FetchOutcome T.
Variables url errorMessage : string.

Lemma afterAttempt_fetches_waits (attempt : nat) (w : World) :
  fetches (afterAttempt H E attempt w) = S (fetches w)
  /\ waits (afterAttempt H E attempt w) = waits w.
Proof. destruct attempt; split; reflexivity. Qed.

(** From [attempt] on the loop makes [n >= 1] calls of [fetch], at most one
    per attempt left, and waits [getRetryDelay] between two of them. *)
Lemma fetchApi_loop_bounds (fuel : nat) :
  forall (attempt : nat) (lastError : option Thrown) (w : World),
    (attempt <= RETRY_CONFIG.maxRetries)%nat ->
    (S RETRY_CONFIG.maxRetries - attempt <= fuel)%nat ->
    exists n : nat,
      (1 <= n <= S RETRY_CONFIG.maxRetries - attempt)%nat
      /\ fetches (snd (fetchApi_loop H E endpoint url errorMessage fuel attempt lastError w))
         = (fetches w + n)%nat
      /\ waits (snd (fetchApi_loop H E endpoint url errorMessage fuel attempt lastError w))
         = (waits w ++ List.map getRetryDelay (seq attempt (pred n)))%list.
Proof.
  induction fuel as [| fuel IH]; intros attempt lastError w Hle Hfuel; [lia |].
  rewrite fetchApi_loop_step by exact Hle.
  destruct (afterAttempt_fetches_waits attempt w) as [Hf Hw].
  assert (Hone : exists n : nat,
             (1 <= n <= S RETRY_CONFIG.maxRetries - attempt)%nat
             /\ fetches (afterAttempt H E attempt w) = (fetches w + n)%nat
             /\ waits (afterAttempt H E attempt w)
                = (waits w ++ List.map getRetryDelay (seq attempt (pred n)))%list).
  { exists 1%nat. split; [lia | split; [rewrite Hf; lia |]].
    rewrite Hw. cbn [pred seq List.map]. now rewrite List.app_nil_r. }
  destruct (outcome endpoint url errorMessage (fetches w)) as [data | e];
    [exact Hone |].
  destruct (notRetried e); [exact Hone |].
  destruct (Nat.eqb_spec attempt RETRY_CONFIG.maxRetries) as [Heq | Hne]; [exact Hone |].
  destruct (IH (S attempt) (Some e)
              (with_waits (waits w ++ [getRetryDelay attempt]) (afterAttempt H E attempt w)))
    as [n [Hn [Hfetches Hwaits]]]; [lia | lia |].
  exists (S n). split; [lia | split].
  - rewrite Hfetches. cbn [with_waits fetches]. rewrite Hf. lia.
  - rewrite Hwaits. cbn [with_waits waits]. rewrite <- List.app_assoc.
    destruct n as [| n]; [lia |]. reflexivity.
Qed.

Lemma rateLimiter_fetchApi (w : World) :
  rateLimiter (snd (fetchApi H E endpoint url errorMessage w))
  = snd (RateLimiter.canMakeRequest (Date_now E (clock w)) (Date_now E (S (clock w)))
           (rateLimiter w)).
Proof.
  assert (Hlimiter : rateLimiter (afterLimiter E w)
                     = snd (RateLimiter.canMakeRequest (Date_now E (clock w))
                              (Date_now E (S (clock w))) (rateLimiter w))).
  { unfold afterLimiter, rateLimiter_canMakeRequest.
    destruct (RateLimiter.canMakeRequest _ _ _) as [ok rl]. reflexivity. }
  rewrite fetchApi_eq. destruct (permitted E w); [| exact Hlimiter].
  rewrite <- Hlimiter.
  apply (fetchApi_loop_frame H E endpoint url errorMessage rateLimiter 0).
  - intros attempt w0 _. destruct attempt; reflexivity.
  - reflexivity.
  - lia.
Qed.

End MoreFetchFacts.

(** X9. A call of [fetchApi] calls [fetch] at most [maxRetries + 1] times,
    and between two calls it waits [getRetryDelay] of the attempt that
    failed and nothing else: at most 3000 ms in all. *)
Theorem fetchApi_attempts_and_waits_are_bounded :
  forall (H : Host) (E : Env) (T : Type) (endpoint : string -> nat -> FetchOutcome T)
         (url errorMessage : string) (w : World),
  exists n : nat,
    (n <= S RETRY_CONFIG.maxRetries)%nat
    /\ fetches (snd (fetchApi H E endpoint url errorMessage w)) = (fetches w + n)%nat
    /\ waits (snd (fetchApi H E endpoint url errorMessage w))
       = (waits w ++ List.map getRetryDelay (seq 0 (pred n)))%list
    /\ totalWait (List.map getRetryDelay (seq 0 (pred n))) <= 3000.
Proof.
  intros H E T endpoint url errorMessage w.
  rewrite fetchApi_eq.
  destruct (afterLimiter_frame E w) as [Hf [Hw _]].
  destruct (permitted E w).
  - destruct (fetchApi_loop_bounds H E endpoint url errorMessage
                (S RETRY_CONFIG.maxRetries) 0 None (afterLimiter E w))
      as [n [Hn [Hfetches Hwaits]]]; [lia | lia |].
    exists n. rewrite Hfetches, Hwaits, Hf, Hw.
    split; [lia | split; [reflexivity | split; [reflexivity |]]].
    assert (Hcases : n = 1%nat \/ n = 2%nat \/ n = 3%nat)
      by (unfold RETRY_CONFIG.maxRetries in Hn; lia).
    destruct Hcases as [-> | [-> | ->]]; vm_compute; discriminate.
  - exists 0%nat. cbn [snd]. rewrite Hf, Hw.
    split; [lia | split; [lia | split; [now rewrite List.app_nil_r |]]].
    vm_compute. discriminate.
Qed.

(* ================================================================= *)
(** ** The cached lookups *)

Section LookupRuns.

Variable H : Host.
Variable E : Env.

(** A hit of the cache check leaves the entry it returned under the key. *)
Lemma cachedData_weather_Some (key : string) (w w1 : World) (data : WeatherOrForecast) :
  cachedData E weatherCache_get key w = (Returns (Some data), w1) ->
  exists entry : LRUCache.CacheEntry WeatherOrForecast,
    LRUCache.Map_get key (LRUCache.cache (weatherCache w1)) = Some entry
    /\ LRUCache.data entry = data
    /\ LRUCache.version entry = CONFIG.CACHE.VERSION.
Proof.
  unfold cachedData, bind, weatherCache_get, LRUCache.get.
  destruct (LRUCache.Map_get key (LRUCache.cache (weatherCache w))) as [entry |];
    [| discriminate].
  destruct (String.eqb_spec (LRUCache.version entry) CONFIG.CACHE.VERSION) as [Hv | _];
    cbn [negb]; [| discriminate].
  cbn [fresh bind now ret].
  destruct (isCacheValid _ _); [| discriminate].
  unfold ret. intros Hrun.
  assert (Hd : LRUCache.data entry = data) by congruence.
  assert (Hw : weatherCache w1
               = {| LRUCache.cache :=
                      LRUCache.Map_set key entry
                        (LRUCache.Map_delete key (LRUCache.cache (weatherCache w)));
                    LRUCache.maxSize := LRUCache.maxSize (weatherCache w) |}).
  { injection Hrun as _ <-. reflexivity. }
  exists entry. rewrite Hw. cbn [LRUCache.cache]. split; [apply Map_get_set_same | now split].
Qed.

(** A lookup that returns leaves its result under its key. *)
Lemma lookup_leaves_entry (kind : Lookup) (city s : string) (w w' : World)
    (d : WeatherOrForecast) :
  sanitized H city = Some s ->
  lookup H E kind city w = (Returns d, w') ->
  truthy (trim H city) = true
  /\ keyConfigured E = true
  /\ exists entry : LRUCache.CacheEntry WeatherOrForecast,
      LRUCache.Map_get (lookupKey kind s) (LRUCache.cache (weatherCache w')) = Some entry
      /\ LRUCache.data entry = d
      /\ LRUCache.version entry = CONFIG.CACHE.VERSION.
Proof.
  intros Hs Hrun.
  destruct (truthy (trim H city)) eqn:Hcity;
    [| destruct (lookup_not_ready H E kind city w) as [e He]; auto; congruence].
  destruct (keyConfigured E) eqn:Hkey;
    [| destruct (lookup_not_ready H E kind city w) as [e He]; auto; congruence].
  split; [reflexivity | split; [reflexivity |]].
  destruct kind; cbn [lookup lookupKey] in *.
  - rewrite (getWeatherData_ready H E city s w Hcity Hkey Hs) in Hrun.
    unfold bind at 1 in Hrun.
    destruct (cachedData_weather E ("weather_" ++ s) w) as [cached [w1 [Hcached _]]].
    rewrite Hcached in Hrun. destruct cached as [data |].
    + unfold ret in Hrun. assert (data = d) by congruence. assert (w1 = w') by congruence.
      subst. now apply (cachedData_weather_Some _ w).
    + unfold bind at 1 in Hrun.
      destruct (fetchApi H E (current_json E) (currentUrl E s)
                  "Failed to fetch weather data" w1) as [[payload | e] w2];
        [| discriminate].
      unfold bind, weatherCache_set, now, ret in Hrun. injection Hrun as <- <-.
      cbn [weatherCache with_weatherCache].
      eexists. split; [apply Map_get_set_same | split; reflexivity].
  - rewrite (getForecastData_ready H E city s w Hcity Hkey Hs) in Hrun.
    unfold bind at 1 in Hrun.
    destruct (cachedData_weather E ("forecast_" ++ s) w) as [cached [w1 [Hcached _]]].
    rewrite Hcached in Hrun. destruct cached as [data |].
    + unfold ret in Hrun. assert (data = d) by congruence. assert (w1 = w') by congruence.
      subst. now apply (cachedData_weather_Some _ w).
    + unfold bind at 1 in Hrun.
      destruct (fetchApi H E (forecast_json E) (forecastUrl E s)
                  "Failed to fetch forecast data" w1) as [[payload | e] w2];
        [| discriminate].
      destruct (transformForecast H payload) as [fd | e]; [| discriminate].
      unfold bind, weatherCache_set, now, ret in Hrun. injection Hrun as <- <-.
      cbn [weatherCache with_weatherCache].
      eexists. split; [apply Map_get_set_same | split; reflexivity].
Qed.

(** A lookup served by a fresh entry. *)
Lemma lookup_hit (kind : Lookup) (city s : string) (w : World)
    (entry : LRUCache.CacheEntry WeatherOrForecast) :
  truthy (trim H city) = true ->
  keyConfigured E = true ->
  sanitized H city = Some s ->
  freshEntry E w (lookupKey kind s) entry ->
  servedWithoutRequest (lookup H E kind city) w (LRUCache.data entry).
Proof.
  intros Hcity Hkey Hs Hfresh.
  destruct kind; cbn [lookup lookupKey] in *; eexists.
  - rewrite (getWeatherData_ready H E city s w Hcity Hkey Hs).
    unfold bind at 1. rewrite (cachedData_weather_hit E w _ entry Hfresh).
    split; [reflexivity | now cbn].
  - rewrite (getForecastData_ready H E city s w Hcity Hkey Hs).
    unfold bind at 1. rewrite (cachedData_weather_hit E w _ entry Hfresh).
    split; [reflexivity | now cbn].
Qed.

(** The cache check on an entry of the live version that is too old. *)
Lemma cachedData_weather_stale (key : string) (w : World)
    (entry : LRUCache.CacheEntry WeatherOrForecast) :
  LRUCache.Map_get key (LRUCache.cache (weatherCache w)) = Some entry ->
  LRUCache.version entry = CONFIG.CACHE.VERSION ->
  CONFIG.CACHE.DURATION <= Date_now E (clock w) - LRUCache.timestamp entry ->
  cachedData E weatherCache_get key w
  = (Returns None,
     with_clock (S (clock w))
       (with_weatherCache (snd (LRUCache.get CONFIG.CACHE.VERSION key (weatherCache w))) w)).
Proof.
  intros Hget Hversion Hold.
  unfold cachedData, bind, weatherCache_get.
  rewrite (get_hit CONFIG.CACHE.VERSION key (weatherCache w) entry Hget Hversion).
  cbn [fresh bind now with_weatherCache clock ret fst snd].
  unfold isCacheValid.
  destruct (Z.ltb_spec (Date_now E (clock w) - LRUCache.timestamp entry)
              CONFIG.CACHE.DURATION) as [Hlt | _]; [lia | reflexivity].
Qed.

End LookupRuns.

(** X10. After [getWeatherData] or [getForecastData] has returned, the same
    call is served from the cache, with the same result and no request, for
    as long as the entry under its key is younger than
    [CONFIG.CACHE.DURATION]. *)
Theorem repeated_lookup_is_served_from_cache :
  forall (H : Host) (E : Env) (kind : Lookup) (city s : string) (w w' : World)
         (d : WeatherOrForecast),
    sanitized H city = Some s ->
    lookup H E kind city w = (Returns d, w') ->
    (forall entry : LRUCache.CacheEntry WeatherOrForecast,
        LRUCache.Map_get (lookupKey kind s) (LRUCache.cache (weatherCache w')) = Some entry ->
        isCacheValid (Date_now E (clock w')) (LRUCache.timestamp entry) = true) ->
    servedWithoutRequest (lookup H E kind city) w' d.
Proof.
  intros H E kind city s w w' d Hs Hrun Hyoung.
  destruct (lookup_leaves_entry H E kind city s w w' d Hs Hrun)
    as [Hcity [Hkey [entry [Hentry [Hdata Hversion]]]]].
  rewrite <- Hdata. apply (lookup_hit H E kind city s w' entry Hcity Hkey Hs).
  split; [exact Hentry | split; [exact Hversion | now apply Hyoung]].
Qed.

(** [getWeatherData(" PARIS ")] twice, three seconds apart. *)
Lemma repeated_lookup_is_served_from_cache_witness :
  servedWithoutRequest (lookup Utc.host Run.online CurrentWeather " PARIS ")
    (snd (getWeatherData Utc.host Run.online " PARIS " Run.start))
    (IsWeather (transformWeather Run.paris)).
Proof.
  apply (repeated_lookup_is_served_from_cache Utc.host Run.online CurrentWeather
           " PARIS " "paris" Run.start).
  - reflexivity.
  - reflexivity.
  - intros entry Hentry. vm_compute in Hentry. injection Hentry as <-. reflexivity.
Defined.

(** X11. An entry that is [CONFIG.CACHE.DURATION] old or older is not
    served: the operation goes on to [fetchApi], which asks the rate limiter
    at the next reads of the clock. *)
Theorem stale_entry_is_not_served :
  forall (H : Host) (E : Env) (kind : Lookup) (city s : string) (w : World)
         (entry : LRUCache.CacheEntry WeatherOrForecast),
    truthy (trim H city) = true ->
    keyConfigured E = true ->
    sanitized H city = Some s ->
    LRUCache.Map_get (lookupKey kind s) (LRUCache.cache (weatherCache w)) = Some entry ->
    LRUCache.version entry = CONFIG.CACHE.VERSION ->
    CONFIG.CACHE.DURATION <= Date_now E (clock w) - LRUCache.timestamp entry ->
    rateLimiter (snd (lookup H E kind city w))
    = snd (RateLimiter.canMakeRequest (Date_now E (S (clock w)))
             (Date_now E (S (S (clock w)))) (rateLimiter w)).
Proof.
  intros H E kind city s w entry Hcity Hkey Hs Hentry Hversion Hold.
  destruct kind; cbn [lookup lookupKey] in *.
  - rewrite (getWeatherData_ready H E city s w Hcity Hkey Hs).
    unfold bind at 1.
    rewrite (cachedData_weather_stale E _ w entry Hentry Hversion Hold).
    unfold bind at 1.
    pose proof (rateLimiter_fetchApi H E (current_json E) (currentUrl E s)
                  "Failed to fetch weather data"
                  (with_clock (S (clock w))
                     (with_weatherCache
                        (snd (LRUCache.get CONFIG.CACHE.VERSION ("weather_" ++ s)
                                (weatherCache w))) w))) as Hlimiter.
    destruct (fetchApi H E (current_json E) (currentUrl E s) _ _) as [[payload | e] w2];
      cbn [snd] in Hlimiter; cbn; exact Hlimiter.
  - rewrite (getForecastData_ready H E city s w Hcity Hkey Hs).
    unfold bind at 1.
    rewrite (cachedData_weather_stale E _ w entry Hentry Hversion Hold).
    unfold bind at 1.
    pose proof (rateLimiter_fetchApi H E (forecast_json E) (forecastUrl E s)
                  "Failed to fetch forecast data"
                  (with_clock (S (clock w))
                     (with_weatherCache
                        (snd (LRUCache.get CONFIG.CACHE.VERSION ("forecast_" ++ s)
                                (weatherCache w))) w))) as Hlimiter.
    destruct (fetchApi H E (forecast_json E) (forecastUrl E s) _ _) as [[payload | e] w2];
      cbn [snd] in Hlimiter; [| cbn; exact Hlimiter].
    destruct (transformForecast H payload); cbn; exact Hlimiter.
Qed.

(** With a clock that advances by 400 s at each read, the entry that
    [getWeatherData] stored is stale at the next call. *)
Lemma stale_entry_is_not_served_witness :
  rateLimiter (snd (lookup Utc.host slowClock CurrentWeather "Paris" aged))
  = snd (RateLimiter.canMakeRequest (Date_now slowClock (S (clock aged)))
           (Date_now slowClock (S (S (clock aged)))) (rateLimiter aged)).
Proof.
  apply (stale_entry_is_not_served Utc.host slowClock CurrentWeather "Paris" "paris" aged
           {| LRUCache.data := IsWeather (transformWeather Run.paris);
              LRUCache.timestamp := Run.t0 + 800000;
              LRUCache.version := "1.0.0" |}).
  - reflexivity.
  - reflexivity.
  - reflexivity.
  - reflexivity.
  - reflexivity.
  - vm_compute. discriminate.
Defined.

(** X12. A call of [getWeatherData] or [getForecastData] that throws has
    stored nothing: every entry of [weatherCache] after the call was there
    before it. *)
Theorem failed_lookup_stores_nothing :
  forall (H : Host) (E : Env) (kind : Lookup) (city : string) (w w' : World) (e : Thrown),
    lookup H E kind city w = (Throws e, w') ->
    forall (key : string) (entry : LRUCache.CacheEntry WeatherOrForecast),
      LRUCache.Map_get key (LRUCache.cache (weatherCache w')) = Some entry ->
      LRUCache.Map_get key (LRUCache.cache (weatherCache w)) = Some entry.
Proof.
  intros H E kind city w w' e Hrun key entry Hentry.
  assert (Hnot : forall e0 : Thrown, lookup H E kind city w = (Throws e0, w) ->
                 LRUCache.Map_get key (LRUCache.cache (weatherCache w)) = Some entry).
  { intros e0 He0. rewrite He0 in Hrun. now replace w with w' by congruence. }
  destruct (truthy (trim H city)) eqn:Hcity;
    [| destruct (lookup_not_ready H E kind city w) as [e0 He0]; eauto].
  destruct (keyConfigured E) eqn:Hkey;
    [| destruct (lookup_not_ready H E kind city w) as [e0 He0]; eauto].
  destruct (sanitized H city) as [s |] eqn:Hs;
    [| destruct (lookup_not_ready H E kind city w) as [e0 He0]; eauto].
  clear Hnot.
  assert (Hget : forall w1 : World,
             weatherCache w1
             = snd (LRUCache.get CONFIG.CACHE.VERSION (lookupKey kind s) (weatherCache w)) ->
             weatherCache w' = weatherCache w1 ->
             LRUCache.Map_get key (LRUCache.cache (weatherCache w)) = Some entry).
  { intros w1 Hw1 Hw'. rewrite Hw', Hw1 in Hentry.
    now apply Map_get_after_get in Hentry. }
  destruct kind; cbn [lookup lookupKey] in *.
  - rewrite (getWeatherData_ready H E city s w Hcity Hkey Hs) in Hrun.
    unfold bind at 1 in Hrun.
    destruct (cachedData_weather E ("weather_" ++ s) w) as [cached [w1 [Hcached [Hcache _]]]].
    rewrite Hcached in Hrun. destruct cached as [data |]; [discriminate |].
    unfold bind at 1 in Hrun.
    pose proof (weatherCache_fetchApi H E (current_json E) (currentUrl E s)
                  "Failed to fetch weather data" w1) as Hframe.
    destruct (fetchApi H E (current_json E) (currentUrl E s)
                "Failed to fetch weather data" w1) as [[payload | e1] w2];
      cbn [snd] in Hframe; [discriminate |].
    apply (Hget w1 Hcache). replace w' with w2 by congruence. exact Hframe.
  - rewrite (getForecastData_ready H E city s w Hcity Hkey Hs) in Hrun.
    unfold bind at 1 in Hrun.
    destruct (cachedData_weather E ("forecast_" ++ s) w) as [cached [w1 [Hcached [Hcache _]]]].
    rewrite Hcached in Hrun. destruct cached as [data |]; [discriminate |].
    unfold bind at 1 in Hrun.
    pose proof (weatherCache_fetchApi H E (forecast_json E) (forecastUrl E s)
                  "Failed to fetch forecast data" w1) as Hframe.
    destruct (fetchApi H E (forecast_json E) (forecastUrl E s)
                "Failed to fetch forecast data" w1) as [[payload | e1] w2];
      cbn [snd] in Hframe.
    + destruct (transformForecast H payload) as [fd | e1]; [discriminate |].
      apply (Hget w1 Hcache). replace w' with w2 by (unfold throw in Hrun; congruence). exact Hframe.
    + apply (Hget w1 Hcache). replace w' with w2 by congruence. exact Hframe.
Qed.

(** A forecast without hours: the call throws and the cache stays empty. *)
Lemma failed_lookup_stores_nothing_witness :
  LRUCache.Map_get "forecast_paris"
    (LRUCache.cache
       (weatherCache (snd (lookup Utc.host incomplete Forecast "Paris" Run.start))))
  = None.
Proof.
  destruct (LRUCache.Map_get "forecast_paris"
              (LRUCache.cache
                 (weatherCache (snd (lookup Utc.host incomplete Forecast "Paris" Run.start)))))
    as [entry |] eqn:Hentry; [| reflexivity].
  apply (failed_lookup_stores_nothing Utc.host incomplete Forecast "Paris" Run.start
           (snd (lookup Utc.host incomplete Forecast "Paris" Run.start))
           (Error "Invalid forecast data received from API") eq_refl) in Hentry.
  discriminate Hentry.
Defined.

(* ================================================================= *)
(** ** [searchCities]: the cache *)

Section SearchFacts.
Variable H : Host.
Variable E : Env.

(** The cache check on [cityCache] when it hits. *)
Lemma cachedData_city_hit (w : World) (key : string)
    (entry : LRUCache.CacheEntry (list CitySearchApiResponse)) :
  LRUCache.Map_get key (LRUCache.cache (cityCache w)) = Some entry ->
  LRUCache.version entry = CONFIG.CACHE.VERSION ->
  isCacheValid (Date_now E (clock w)) (LRUCache.timestamp entry) = true ->
  cachedData E cityCache_get key w
  = (Returns (Some (LRUCache.data entry)),
     with_clock (S (clock w))
       (with_cityCache (snd (LRUCache.get CONFIG.CACHE.VERSION key (cityCache w))) w)).
Proof.
  intros Hget Hversion Hvalid.
  unfold cachedData, bind, cityCache_get.
  rewrite (get_hit CONFIG.CACHE.VERSION key (cityCache w) entry Hget Hversion).
  cbn [fresh bind now with_cityCache clock ret fst snd].
  now rewrite Hvalid.
Qed.

End SearchFacts.

(** X13. When [cityCache] holds under the sanitized query an entry of the
    live version that is younger than [CONFIG.CACHE.DURATION],
    [searchCities] returns its matches and makes no request. *)
Theorem cached_search_makes_no_request :
  forall (H : Host) (E : Env) (query s : string) (w : World)
         (entry : LRUCache.CacheEntry (list CitySearchApiResponse)),
    blankOrShort H query = false ->
    keyConfigured E = true ->
    sanitized H query = Some s ->
    LRUCache.Map_get s (LRUCache.cache (cityCache w)) = Some entry ->
    LRUCache.version entry = CONFIG.CACHE.VERSION ->
    isCacheValid (Date_now E (clock w)) (LRUCache.timestamp entry) = true ->
    answeredWithoutRequest (searchCities H E query) w (LRUCache.data entry).
Proof.
  intros H E query s w entry Hquery Hkey Hs Hget Hversion Hvalid.
  eexists. rewrite (searchCities_ready H E query s w Hquery Hkey Hs).
  unfold bind at 1. rewrite (cachedData_city_hit E w s entry Hget Hversion Hvalid).
  split; [reflexivity | now cbn].
Qed.

(** The query ["Lon"] again, three seconds after it was answered. *)
Lemma cached_search_makes_no_request_witness :
  answeredWithoutRequest (searchCities Utc.host twoMatches "Lon") searched lonMatches.
Proof.
  apply (cached_search_makes_no_request Utc.host twoMatches "Lon" "lon" searched
           {| LRUCache.data := lonMatches; LRUCache.timestamp := Run.t0 + 2000;
              LRUCache.version := "1.0.0" |});
    reflexivity.
Defined.

(* ================================================================= *)
(** ** The forecast: days and hours *)

Section ForecastFacts.

Variable H : Host.

Lemma hourEntry_eq (h : HourlyWeather) : hourEntry h = h.
Proof. destruct h; reflexivity. Qed.

Lemma map_hourEntry (hours : list HourlyWeather) : List.map hourEntry hours = hours.
Proof.
  induction hours as [| h hours IH]; [reflexivity |].
  cbn [List.map]. now rewrite hourEntry_eq, IH.
Qed.

(** When every day has its hours, each is copied with its date and its
    hours. *)
Lemma dayEntries_complete (days : list ApiForecastDay) :
  Forall (fun d => api_hour d <> None) days ->
  exists entries : list DayForecast,
    dayEntries days = Returns entries
    /\ List.map date entries = List.map api_date days
    /\ List.map (fun x => Some (hour x)) entries = List.map api_hour days.
Proof.
  induction 1 as [| d days Hd Hdays [entries [IH [Hdates Hhours]]]].
  - exists []. repeat split.
  - cbn [dayEntries]. unfold dayEntry.
    destruct (api_hour d) as [hours |] eqn:Hhour; [| congruence].
    rewrite IH. eexists. split; [reflexivity |].
    cbn [List.map date hour]. rewrite Hdates, Hhours, Hhour, map_hourEntry.
    split; reflexivity.
Qed.

(** A day without hours makes the second [map] throw. *)
Lemma dayEntries_incomplete (days : list ApiForecastDay) :
  Exists (fun d => api_hour d = None) days ->
  exists message : string, dayEntries days = Throws (JsError "TypeError" message).
Proof.
  induction 1 as [d days Hd | d days Hdays [message IH]]; cbn [dayEntries]; unfold dayEntry.
  - rewrite Hd. eexists; reflexivity.
  - destruct (api_hour d); [| eexists; reflexivity].
    rewrite IH. eexists; reflexivity.
Qed.

End ForecastFacts.

(** X14. The check of [getForecastData] looks at the first day only. Of a
    payload that passes it, the transform keeps every day, with its date and
    its hours, when each day has [hour]; a later day without [hour] makes it
    throw a [TypeError], not the invalid-forecast error. *)
Theorem transformForecast_needs_hours_on_every_day :
  forall (H : Host) (payload : ForecastApiResponse) (days : list ApiForecastDay),
    forecastDays payload = Some days ->
    (Forall (fun d => api_hour d <> None) days ->
     exists d : ForecastData,
       transformForecast H payload = Returns d
       /\ List.map dt_txt (list_ d) = List.map api_date days
       /\ List.map date (forecastday (forecast d)) = List.map api_date days
       /\ List.map (fun x => Some (hour x)) (forecastday (forecast d))
          = List.map api_hour days)
    /\ (Exists (fun d => api_hour d = None) days ->
        exists message : string,
          transformForecast H payload = Throws (JsError "TypeError" message)).
Proof.
  intros H payload days Hdays. unfold transformForecast. rewrite Hdays. split.
  - intros Hall.
    destruct (dayEntries_complete days Hall) as [entries [-> [Hdates Hhours]]].
    eexists. split; [reflexivity |].
    cbn [list_ forecast forecastday]. rewrite List.map_map. cbn [dailyEntry dt_txt].
    now split.
  - intros Hsome. destruct (dayEntries_incomplete days Hsome) as [message ->].
    now exists message.
Qed.

(** Two days, the second without hours. *)
Lemma transformForecast_needs_hours_on_every_day_witness :
  exists message : string,
    transformForecast Utc.host truncated = Throws (JsError "TypeError" message).
Proof.
  apply (proj2 (transformForecast_needs_hours_on_every_day Utc.host truncated
                  secondDayWithoutHours eq_refl)).
  apply Exists_cons_tl, Exists_cons_hd. reflexivity.
Defined.

(* ================================================================= *)
(** ** The rate limiter: two windows *)

Section BurstFacts.
Import RateLimiter.

Lemma calls_app (ts1 ts2 : list (Z * Z)) :
  forall rl : t,
    calls (ts1 ++ ts2) rl
    = ((fst (calls ts1 rl) ++ fst (calls ts2 (snd (calls ts1 rl))))%list,
       snd (calls ts2 (snd (calls ts1 rl)))).
Proof.
  induction ts1 as [| [now1 now2] ts1 IH]; intros rl; cbn [List.app calls].
  - cbn [fst snd List.app]. now destruct (calls ts2 rl).
  - destruct (canMakeRequest now1 now2 rl) as [ok rl1].
    rewrite IH. destruct (calls ts1 rl1) as [oks rl2]. reflexivity.
Qed.

(** Calls inside the window leave its start alone and count. *)
Lemma calls_inside_state (ts : list (Z * Z)) :
  forall rl : t,
    Forall (fun r => fst r - lastReset rl <= 60000) ts ->
    snd (calls ts rl)
    = {| requests := requests rl + Z.of_nat (List.length ts); lastReset := lastReset rl |}.
Proof.
  induction ts as [| [now1 now2] ts IH]; intros rl Hall.
  - cbn. destruct rl. cbn. f_equal. lia.
  - inversion Hall as [| r rs Hhd Htl]; subst. cbn [fst] in Hhd.
    cbn [calls]. rewrite (canMakeRequest_inside now1 now2 rl Hhd).
    specialize (IH {| requests := requests rl + 1; lastReset := lastReset rl |} Htl).
    destruct (calls ts _) as [oks rl2]. cbn [snd] in *. rewrite IH.
    cbn [requests lastReset List.length]. f_equal. lia.
Qed.

Lemma below_limit (k : Z) (n : nat) :
  k + Z.of_nat n <= CONFIG.API.RATE_LIMIT ->
  List.map (fun i => k + Z.of_nat i <? CONFIG.API.RATE_LIMIT) (seq 0 n)
  = List.repeat true n.
Proof.
  intros Hle. induction n as [| n IH]; [reflexivity |].
  rewrite seq_S, List.map_app, IH by lia. cbn [List.map Nat.add].
  destruct (Z.ltb_spec (k + Z.of_nat n) CONFIG.API.RATE_LIMIT) as [_ | Hge]; [| lia].
  now rewrite <- List.repeat_cons.
Qed.

End BurstFacts.

(** X15. The window is reset as a whole: after up to [RATE_LIMIT] calls in a
    window, the first call made more than 60 s after its start and up to
    [RATE_LIMIT - 1] calls after that one are all answered [true], however
    close in time the two groups are. *)
Theorem window_reset_allows_a_second_burst :
  forall (rl : RateLimiter.t) (ts1 ts2 : list (Z * Z)) (now1 now2 : Z),
    RateLimiter.requests rl = 0 ->
    Z.of_nat (List.length ts1) <= CONFIG.API.RATE_LIMIT ->
    Z.of_nat (List.length ts2) < CONFIG.API.RATE_LIMIT ->
    Forall (fun r => fst r - RateLimiter.lastReset rl <= 60000) ts1 ->
    60000 < now1 - RateLimiter.lastReset rl ->
    Forall (fun r => fst r - now2 <= 60000) ts2 ->
    fst (RateLimiter.calls (ts1 ++ (now1, now2) :: ts2) rl)
    = List.repeat true (List.length ts1 + S (List.length ts2)).
Proof.
  intros rl ts1 ts2 now1 now2 Hfresh Hn1 Hn2 Hin1 Hout Hin2.
  rewrite calls_app. cbn [fst].
  rewrite (calls_inside ts1 rl Hin1), (calls_inside_state ts1 rl Hin1), Hfresh.
  rewrite below_limit by lia.
  rewrite List.repeat_app. f_equal.
  cbn [RateLimiter.calls].
  rewrite canMakeRequest_expired by (cbn [RateLimiter.lastReset]; exact Hout).
  pose proof (calls_inside ts2 {| RateLimiter.requests := 1; RateLimiter.lastReset := now2 |}
                Hin2) as Hrest.
  destruct (RateLimiter.calls ts2 _) as [oks rl2]. cbn [fst] in *.
  rewrite Hrest. cbn [RateLimiter.requests List.repeat]. f_equal.
  apply below_limit. lia.
Qed.

(** Thirty calls at the last millisecond of a window and thirty at the
    next. *)
Lemma window_reset_allows_a_second_burst_witness :
  fst (RateLimiter.calls
         (List.repeat (60000, 60000) 30 ++ (60001, 60001) :: List.repeat (60001, 60001) 29)
         {| RateLimiter.requests := 0; RateLimiter.lastReset := 0 |})
  = List.repeat true 60.
Proof.
  apply (window_reset_allows_a_second_burst
           {| RateLimiter.requests := 0; RateLimiter.lastReset := 0 |}
           (List.repeat (60000, 60000) 30) (List.repeat (60001, 60001) 29) 60001 60001).
  - reflexivity.
  - vm_compute. discriminate.
  - reflexivity.
  - apply Forall_forall. intros r Hin. apply List.repeat_spec in Hin. subst r.
    vm_compute. discriminate.
  - reflexivity.
  - apply Forall_forall. intros r Hin. apply List.repeat_spec in Hin. subst r.
    vm_compute. discriminate.
Defined.

(* ================================================================= *)
(** ** The usage counter: the storage *)

Section PersistenceFacts.

Import ApiCallCounter.

Variable H : Host.

Lemma increment_stored (now : Z) (c : t) :
  stored (increment H true now c) = Some (state (increment H true now c)).
Proof. reflexivity. Qed.

Lemma state_checkAndResetMonthly (writable : bool) (now : Z) (c : t) :
  state (checkAndResetMonthly H writable now c)
  = if otherMonth H (lastReset (state c)) now
    then {| count := 0; lastReset := Some now |}
    else state c.
Proof.
  unfold checkAndResetMonthly. destruct (otherMonth H (lastReset (state c)) now);
    [apply state_saveState | reflexivity].
Qed.

Lemma state_increment (writable : bool) (now : Z) (c : t) :
  state (increment H writable now c)
  = {| count := count (state (checkAndResetMonthly H true now c)) + 1;
       lastReset := lastReset (state (checkAndResetMonthly H true now c)) |}.
Proof.
  unfold increment. rewrite state_saveState. cbn [state].
  now rewrite !state_checkAndResetMonthly.
Qed.

(** What a sequence of calls returns and the state it leaves depend on the
    state it starts from, not on the storage. *)
Lemma runCalls_storage (calls : list Call) :
  forall (writable writable' : bool) (c c' : t),
    state c = state c' ->
    fst (runCalls H writable calls c) = fst (runCalls H writable' calls c')
    /\ state (snd (runCalls H writable calls c))
       = state (snd (runCalls H writable' calls c')).
Proof.
  induction calls as [| [now | now] calls IH]; intros writable writable' c c' Hstate;
    cbn [runCalls].
  - now split.
  - apply IH. rewrite (state_increment writable), (state_increment writable').
    rewrite !state_checkAndResetMonthly. now rewrite Hstate.
  - unfold getCount.
    assert (Hcheck : state (checkAndResetMonthly H writable now c)
                     = state (checkAndResetMonthly H writable' now c'))
      by (rewrite !state_checkAndResetMonthly; now rewrite Hstate).
    destruct (IH writable writable' _ _ Hcheck) as [Hfst Hsnd].
    destruct (runCalls H writable calls (checkAndResetMonthly H writable now c))
      as [ns c2].
    destruct (runCalls H writable' calls (checkAndResetMonthly H writable' now c'))
      as [ns' c2'].
    cbn [fst snd] in *. now rewrite Hcheck, Hfst.
Qed.

End PersistenceFacts.

(** X16. The counts [getCount] reports and the state a sequence of calls
    leaves are the same whether the storage can be written or not: a failing
    [setItem] costs no count in memory. With a storage that can be written
    the record stored after [increment] is the state of the counter; with one
    that cannot, [increment] leaves the stored record as it was. *)
Theorem storage_failure_loses_no_count :
  forall (H : Host) (calls : list Call) (now : Z) (c : ApiCallCounter.t),
    fst (runCalls H false calls c) = fst (runCalls H true calls c)
    /\ ApiCallCounter.state (snd (runCalls H false calls c))
       = ApiCallCounter.state (snd (runCalls H true calls c))
    /\ ApiCallCounter.stored (ApiCallCounter.increment H true now c)
       = Some (ApiCallCounter.state (ApiCallCounter.increment H true now c))
    /\ ApiCallCounter.stored (ApiCallCounter.increment H false now c)
       = ApiCallCounter.stored c.
Proof.
  intros H calls now c.
  destruct (runCalls_storage H calls false true c c eq_refl) as [Hfst Hsnd].
  split; [exact Hfst | split; [exact Hsnd | split; [reflexivity |]]].
  unfold ApiCallCounter.increment, ApiCallCounter.checkAndResetMonthly.
  destruct (ApiCallCounter.otherMonth H _ now); reflexivity.
Qed.

(** X17. A counter constructed from the record that [increment] stored
    starts from the state of the counter that stored it, unless the month has
    changed in between, in which case it starts from zero; with nothing
    stored it starts from zero. *)
Theorem reload_restores_the_count :
  forall (H : Host) (writable : bool) (now now1 now2 now3 : Z) (c : ApiCallCounter.t),
    ApiCallCounter.state
      (ApiCallCounter.new H writable now1 now2 now3
         (ApiCallCounter.stored (ApiCallCounter.increment H true now c)))
    = (if ApiCallCounter.otherMonth H
            (ApiCallCounter.lastReset
               (ApiCallCounter.state (ApiCallCounter.increment H true now c))) now3
       then {| ApiCallCounter.count := 0; ApiCallCounter.lastReset := Some now3 |}
       else ApiCallCounter.state (ApiCallCounter.increment H true now c))
    /\ ApiCallCounter.count
         (ApiCallCounter.state (ApiCallCounter.new H writable now1 now2 now3 None))
       = 0.
Proof.
  intros H writable now now1 now2 now3 c. split.
  - unfold ApiCallCounter.new. rewrite state_checkAndResetMonthly.
    cbn [ApiCallCounter.state].
    rewrite increment_stored. cbn [ApiCallCounter.written ApiCallCounter.loadState].
    destruct (ApiCallCounter.state (ApiCallCounter.increment H true now c)) as [n l].
    reflexivity.
  - unfold ApiCallCounter.new. rewrite state_checkAndResetMonthly.
    destruct (ApiCallCounter.otherMonth _ _ _); reflexivity.
Qed.

(* ================================================================= *)
(** ** [batchRequests] *)

Section BatchFacts.

Context {T : Type}.
Variable firstToReject : list Thrown -> Thrown.
Implicit Types (requests batch : list (Result T)).

Lemma slice_batch {A : Type} (l : list A) (i batchSize : Z) :
  0 <= i -> 1 <= batchSize ->
  slice l i (i + batchSize)
  = List.firstn (Z.to_nat batchSize) (List.skipn (Z.to_nat i) l).
Proof.
  intros Hi Hb. unfold slice.
  destruct (Z.ltb_spec i 0) as [Hneg | _]; [lia |].
  destruct (Z.ltb_spec (i + batchSize) 0) as [Hneg | _]; [lia |].
  destruct (Z.le_gt_cases (Z.of_nat (List.length l)) i) as [Hout | Hin].
  - rewrite (List.skipn_all2 l) by lia.
    rewrite (List.skipn_all2 l) by lia. now rewrite !List.firstn_nil.
  - rewrite (Z.min_l i) by lia.
    destruct (Z.le_gt_cases (i + batchSize) (Z.of_nat (List.length l))) as [Hfit | Hover].
    + rewrite Z.min_l by lia. f_equal. lia.
    + rewrite Z.min_r by lia.
      rewrite !List.firstn_all2; [reflexivity | |]; rewrite List.length_skipn; lia.
Qed.

Lemma rejections_app batch1 batch2 :
  rejections (batch1 ++ batch2) = (rejections batch1 ++ rejections batch2)%list.
Proof. apply List.flat_map_app. Qed.

Lemma values_app batch1 batch2 :
  values (batch1 ++ batch2) = (values batch1 ++ values batch2)%list.
Proof. apply List.flat_map_app. Qed.

(** With a batch size of at least one the loop ends: on the values of the
    promises from [i] on when none of them rejects, on a rejection
    otherwise. *)
Lemma batchRequests_loop_ends (fuel : nat) :
  forall requests (batchSize i : Z) (results : list T),
    1 <= batchSize -> 0 <= i ->
    Z.of_nat (List.length requests) - i <= Z.of_nat fuel ->
    match rejections (List.skipn (Z.to_nat i) requests) with
    | [] =>
        batchRequests_loop firstToReject fuel requests batchSize i results
        = Some (Returns (results ++ values (List.skipn (Z.to_nat i) requests))%list)
    | _ :: _ =>
        exists e : Thrown,
          batchRequests_loop firstToReject fuel requests batchSize i results
          = Some (Throws e)
    end.
Proof.
  induction fuel as [| fuel IH]; intros requests batchSize i results Hb Hi Hfuel.
  - cbn [batchRequests_loop].
    destruct (Z.ltb_spec i (Z.of_nat (List.length requests))) as [Hlt | _]; [lia |].
    rewrite List.skipn_all2 by lia. cbn. now rewrite List.app_nil_r.
  - cbn [batchRequests_loop].
    destruct (Z.ltb_spec i (Z.of_nat (List.length requests))) as [Hlt | Hge].
    + rewrite (slice_batch requests i batchSize Hi Hb).
      specialize (IH requests batchSize (i + batchSize)).
      assert (Hsplit : List.skipn (Z.to_nat i) requests
                       = (List.firstn (Z.to_nat batchSize) (List.skipn (Z.to_nat i) requests)
                          ++ List.skipn (Z.to_nat (i + batchSize)) requests)%list).
      { rewrite <- (List.firstn_skipn (Z.to_nat batchSize) (List.skipn (Z.to_nat i) requests))
          at 1.
        f_equal. rewrite List.skipn_skipn. f_equal. lia. }
      set (batch := List.firstn (Z.to_nat batchSize) (List.skipn (Z.to_nat i) requests))
        in *.
      rewrite Hsplit, rejections_app, values_app.
      unfold Promise_all.
      destruct (rejections batch) as [| e es]; cbn [List.app];
        [| eexists; reflexivity].
      specialize (IH (results ++ values batch)%list Hb ltac:(lia) ltac:(lia)).
      destruct (rejections (List.skipn (Z.to_nat (i + batchSize)) requests)).
      * now rewrite IH, List.app_assoc.
      * exact IH.
    + rewrite List.skipn_all2 by lia. cbn. now rewrite List.app_nil_r.
Qed.

Lemma rejections_fulfilled (vs : list T) : rejections (List.map Returns vs) = [].
Proof. induction vs as [| v vs IH]; [reflexivity | exact IH]. Qed.

Lemma values_fulfilled (vs : list T) : values (List.map Returns vs) = vs.
Proof. induction vs as [| v vs IH]; [reflexivity | cbn; f_equal; exact IH]. Qed.

(** With a batch size of zero or less the index never passes the first
    promise: the loop does not end on a [return]. *)
Lemma batchRequests_loop_stuck (fuel : nat) :
  forall requests (batchSize i : Z) (results : list T),
    batchSize <= 0 -> i <= 0 -> requests <> [] ->
    forall vs : list T,
      batchRequests_loop firstToReject fuel requests batchSize i results
      <> Some (Returns vs).
Proof.
  induction fuel as [| fuel IH]; intros requests batchSize i results Hb Hi Hne vs;
    cbn [batchRequests_loop];
    (destruct (Z.ltb_spec i (Z.of_nat (List.length requests))) as [_ | Hge];
     [| destruct requests; [congruence | cbn [List.length] in Hge; lia]]).
  - discriminate.
  - destruct (Promise_all firstToReject (slice requests i (i + batchSize)));
      [| discriminate].
    apply IH; [exact Hb | lia | exact Hne].
Qed.

End BatchFacts.

(** X18. With a batch size of at least one, [batchRequests] resolves to the
    values of the promises in the order of the promises, whatever the batch
    size, when all of them fulfil, and rejects when one of them rejects. *)
Theorem batchRequests_keeps_the_order :
  forall (T : Type) (firstToReject : list Thrown -> Thrown) (fuel : nat)
         (requests : list (Result T)) (batchSize : Z),
    1 <= batchSize ->
    (List.length requests <= fuel)%nat ->
    (forall vs : list T,
        requests = List.map Returns vs ->
        batchRequests firstToReject fuel requests batchSize = Some (Returns vs))
    /\ (rejections requests <> [] ->
        exists e : Thrown,
          batchRequests firstToReject fuel requests batchSize = Some (Throws e)).
Proof.
  intros T firstToReject fuel requests batchSize Hb Hfuel.
  pose proof (batchRequests_loop_ends firstToReject fuel requests batchSize 0 []
                Hb ltac:(lia) ltac:(lia)) as Hends.
  cbn [Z.to_nat List.skipn List.app] in Hends. split.
  - intros vs ->. rewrite rejections_fulfilled, values_fulfilled in Hends. exact Hends.
  - intros Hrejected. destruct (rejections requests); [congruence | exact Hends].
Qed.

(** Five promises in batches of two. *)
Lemma batchRequests_keeps_the_order_witness :
  batchRequests (fun _ => Run.timeout) 5
    [Returns 1; Returns 2; Returns 3; Returns 4; Returns 5] 2
  = Some (Returns [1; 2; 3; 4; 5]).
Proof.
  apply (proj1 (batchRequests_keeps_the_order Z (fun _ => Run.timeout) 5
                  [Returns 1; Returns 2; Returns 3; Returns 4; Returns 5] 2
                  ltac:(lia) (le_n 5))).
  reflexivity.
Defined.

(** X19. With a batch size of zero or less the index never passes the first
    promise: on a list that is not empty [batchRequests] never resolves,
    however long it runs. *)
Theorem batchRequests_needs_a_positive_batch_size :
  forall (T : Type) (firstToReject : list Thrown -> Thrown) (fuel : nat)
         (requests : list (Result T)) (batchSize : Z) (vs : list T),
    batchSize <= 0 ->
    requests <> [] ->
    batchRequests firstToReject fuel requests batchSize <> Some (Returns vs).
Proof.
  intros T firstToReject fuel requests batchSize vs Hb Hne.
  apply batchRequests_loop_stuck; [exact Hb | lia | exact Hne].
Qed.

Lemma batchRequests_needs_a_positive_batch_size_witness :
  batchRequests (fun _ => Run.timeout) 100 [Returns 1] 0 <> Some (Returns [1]).
Proof.
  apply (batchRequests_needs_a_positive_batch_size Z (fun _ => Run.timeout) 100
           [Returns 1] 0 [1]).
  - lia.
  - discriminate.
Defined.

(* ================================================================= *)
(** ** The hourly forecast *)

Section HourlyFacts.
Context {A : Type}.

Lemma Subsequence_nil (l : list A) : Subsequence [] l.
Proof. induction l; constructor; assumption. Qed.

Lemma Subsequence_filter (f : A -> bool) (l : list A) : Subsequence (List.filter f l) l.
Proof.
  induction l as [| x l IH]; cbn [List.filter]; [constructor |].
  destruct (f x); constructor; exact IH.
Qed.

Lemma Subsequence_firstn (n : nat) (l : list A) : Subsequence (List.firstn n l) l.
Proof.
  revert n. induction l as [| x l IH]; intros [| n]; cbn [List.firstn].
  - constructor.
  - constructor.
  - apply Subsequence_nil.
  - apply SubKeep, IH.
Qed.

Lemma Subsequence_trans (l1 l2 l3 : list A) :
  Subsequence l1 l2 -> Subsequence l2 l3 -> Subsequence l1 l3.
Proof.
  intros H12 H23. revert l1 H12.
  induction H23 as [| x l2 l3 H23 IH | x l2 l3 H23 IH]; intros l1 H12.
  - exact H12.
  - apply SubSkip. now apply IH.
  - inversion H12 as [| y l1' l2' Hsub | y l1' l2' Hsub]; subst.
    + apply SubSkip. now apply IH.
    + apply SubKeep. now apply IH.
Qed.

Lemma Subsequence_In (l1 l2 : list A) (x : A) :
  Subsequence l1 l2 -> In x l1 -> In x l2.
Proof.
  induction 1 as [| y l1 l2 Hsub IH | y l1 l2 Hsub IH]; cbn [In]; intuition.
Qed.

End HourlyFacts.

(** X20. [nextHours] of [HourlyForecast]. When [localtime] is no date it
    throws the [RangeError] of [toISOString] for any hours but the empty
    list, so the component does not render. The hours it returns otherwise
    are at most 24, are hours it was given, in the order given, and none
    starts before the time of the location, so the hour in progress is not
    among them; when fewer than 24 are returned, every hour given that starts
    at that time or later is. *)
Theorem nextHours_shows_upcoming_hours :
  forall (H : Host) (now : Z) (localtime : option string) (hours : list HourlyWeather),
    (hours <> [] ->
     isFinite (locationTime H now localtime) = false ->
     nextHours H now localtime hours = Throws (JsError "RangeError" "Invalid time value"))
    /\ (forall shown : list HourlyWeather,
           nextHours H now localtime hours = Returns shown ->
           (List.length shown <= 24)%nat
           /\ Subsequence shown hours
           /\ Forall (fun hour => upcoming H (locationTime H now localtime) hour = true)
                shown
           /\ ((List.length shown < 24)%nat ->
               forall hour : HourlyWeather,
                 In hour hours ->
                 upcoming H (locationTime H now localtime) hour = true ->
                 In hour shown)).
Proof.
  intros H now localtime hours. unfold nextHours. split.
  { intros Hhours Hnan. destruct hours as [| hour0 hours']; [congruence |].
    now rewrite Hnan. }
  intros shown.
  destruct hours as [| hour0 hours'].
  { intros [= <-]. split; [cbn; lia | split; [constructor | split; [constructor |]]].
    intros _ hour []. }
  set (hours := hour0 :: hours').
  destruct (isFinite (locationTime H now localtime)); cbn [negb]; [| discriminate].
  set (f := upcoming H (locationTime H now localtime)).
  intros Hrun.
  assert (Hshown : List.firstn 24 (List.filter f hours) = shown)
    by (injection Hrun as Hrun; exact Hrun).
  clear Hrun. subst shown.
  split; [| split; [| split]].
  - rewrite List.length_firstn. lia.
  - apply (Subsequence_trans _ (List.filter f hours)).
    + apply Subsequence_firstn.
    + apply Subsequence_filter.
  - apply Forall_forall. intros hour Hin.
    apply (Subsequence_In _ _ hour (Subsequence_firstn 24 _)), List.filter_In in Hin.
    tauto.
  - intros Hshort hour Hin Hup.
    rewrite List.length_firstn in Hshort.
    rewrite List.firstn_all2 by lia. apply List.filter_In. now split.
Qed.

(** At 11:30, of the hours 11:00, 12:00 and 13:00; and a [localtime] that
    is no date. *)
Lemma nextHours_shows_upcoming_hours_witness :
  nextHours Utc.host 0 (Some "soon") midday
  = Throws (JsError "RangeError" "Invalid time value")
  /\ Subsequence [hourAt "2025-11-02 12:00"; hourAt "2025-11-02 13:00"] midday
  /\ Forall
       (fun hour =>
          upcoming minutesHost (locationTime minutesHost 0 (Some "2025-11-02 11:30")) hour
          = true)
       [hourAt "2025-11-02 12:00"; hourAt "2025-11-02 13:00"].
Proof.
  split.
  - apply (proj1 (nextHours_shows_upcoming_hours Utc.host 0 (Some "soon") midday)).
    + discriminate.
    + reflexivity.
  - destruct (proj2 (nextHours_shows_upcoming_hours minutesHost 0
                       (Some "2025-11-02 11:30") midday)
                [hourAt "2025-11-02 12:00"; hourAt "2025-11-02 13:00"] eq_refl)
      as [_ [Hsub [Hall _]]].
    split; [exact Hsub | exact Hall].
Defined.
